(** * BnpC: the CRP / DPMM inference engine of [libs/CRP.py]

    A shallow embedding of the parts of class [CRP] that carry the
    engine's bookkeeping: the cluster state (assignment vector, member
    count table, parameter table) with the Gibbs, split and merge
    moves, the allocation of cluster ids, the CRP prior table, the
    concentration update, the adaptation of the proposal step sizes,
    the stable normalisation of log probabilities, the likelihood
    kernel, and the run loop with its growable trace.

    Conventions.
    - Python exceptions are values of [PyErr]; fallible code lives in
      the error monad [result].
    - Random draws are inputs: every function that samples takes the
      outcome of its draws as an argument (a "tape").
    - [np.float64] quantities that go through [log] or [exp] are read
      as real numbers ([R]), with the floating-point errors that
      [np.seterr(all='raise')] turns into exceptions written out where
      the code can meet them.  The step-size controller and the burn-in
      index only use [*], [/] and comparisons: they are modelled on
      binary64 floats ([PrimFloat]) and evaluate bit for bit. *)

From Stdlib Require Import ZArith List Lia Reals Lra Floats.
From stdpp Require Import gmap list.

(** ** Python exceptions and the error monad *)

Inductive PyErr : Set :=
  | KeyError
  | IndexError
  | ValueError
  | ZeroDivisionError
  | FloatingPointError
  | OverflowError
  | MemoryError
  | NoMoreDraws.  (* the model's random tape ran out: Python would keep drawing *)

Inductive result (A : Type) : Type :=
  | Ok (a : A)
  | Raise (e : PyErr).
Arguments Ok {A} a.
Arguments Raise {A} e.

#[global] Instance result_ret : MRet result := λ A a, Ok a.
#[global] Instance result_bind : MBind result := λ A B f m,
  match m with
  | Ok a => f a
  | Raise e => Raise e
  end.
#[global] Instance result_fmap : FMap result := λ A B f m,
  match m with
  | Ok a => Ok (f a)
  | Raise e => Raise e
  end.

(** ** Python containers *)

Section PyContainers.
Context {A : Type}.

(** [l[i]] for a non-negative index. *)
Definition getitem (l : list A) (i : nat) : result A :=
  match l !! i with
  | Some x => Ok x
  | None => Raise IndexError
  end.

(** [l[i] = x] for a non-negative index. *)
Definition setitem (l : list A) (i : nat) (x : A) : result (list A) :=
  if decide (i < length l)%nat then Ok (<[i:=x]> l) else Raise IndexError.

(** An integer index, which Python and numpy count from the end
    when it is negative. *)
Definition norm_index (len : nat) (i : Z) : result nat :=
  if decide (0 ≤ i < Z.of_nat len)%Z then Ok (Z.to_nat i)
  else if decide (- Z.of_nat len ≤ i < 0)%Z then Ok (Z.to_nat (Z.of_nat len + i))
  else Raise IndexError.

Definition setitemZ (l : list A) (i : Z) (x : A) : result (list A) :=
  k ← norm_index (length l) i; Ok (<[k:=x]> l).

(** [l[idxs] = x] with an index array: numpy checks every index
    before it writes. *)
Definition setitems (l : list A) (idxs : list nat) (x : A) : result (list A) :=
  if decide (Forall (λ i, i < length l)%nat idxs)
  then Ok (foldr (λ i acc, <[i:=x]> acc) l idxs)
  else Raise IndexError.

(** [l[idxs]] with an index array. *)
Definition getitems (l : list A) (idxs : list nat) : result (list A) :=
  mapM (M := result) (getitem l) idxs.

(** [np.random.choice(l)]: the draw [u] selects the entry returned. *)
Definition random_choice (l : list A) (u : nat) : result A :=
  match l with
  | [] => Raise ValueError
  | _ => getitem l (u mod length l)
  end.

(** [np.random.choice(l, size=2, replace=False)]. *)
Definition random_choice2 (l : list A) (u v : nat) : result (A * A) :=
  if decide (length l < 2)%nat then Raise ValueError
  else
    x ← getitem l (u mod length l);
    y ← random_choice (delete (u mod length l) l) v;
    Ok (x, y).
End PyContainers.

(** [d[k]] on a dict. *)
Definition dict_get (d : gmap Z Z) (k : Z) : result Z :=
  match d !! k with
  | Some v => Ok v
  | None => Raise KeyError
  end.

(** [del d[k]]. *)
Definition dict_del (d : gmap Z Z) (k : Z) : result (gmap Z Z) :=
  match d !! k with
  | Some _ => Ok (delete k d)
  | None => Raise KeyError
  end.

(** [min(xs)] *)
Definition py_min (l : list Z) : result Z :=
  match l with
  | [] => Raise ValueError
  | x :: l' => Ok (foldl Z.min x l')
  end.

(** [np.argwhere(a == c).flatten()]: the positions of [c] in [a], in
    increasing order. *)
Fixpoint argwhere_from (k : nat) (a : list Z) (c : Z) : list nat :=
  match a with
  | [] => []
  | x :: a' =>
      if decide (x = c) then k :: argwhere_from (S k) a' c
      else argwhere_from (S k) a' c
  end.
Definition argwhere (a : list Z) (c : Z) : list nat := argwhere_from 0 a c.

(** ** Cluster state

    [assignment] maps a cell to its cluster id, [cells_per_cluster] is
    the dict of member counts, [parameters] holds one parameter row per
    possible cluster id.  A row of parameters is opaque here ([Row]):
    the moves below only store the rows that the samplers hand them.
    Python's dict keeps its keys in insertion order; the order only
    decides which key a given draw selects, and the draws range over
    every position, so the dict is a [gmap]. *)

Section ClusterState.
Context {Row : Type}.

Record ClusterState : Type := {
  cells_total : nat;
  assignment : list Z;
  cells_per_cluster : gmap Z Z;
  parameters : list Row;
  splits_MH_counter : Z * Z;
  merge_MH_counter : Z * Z;
}.

Definition with_assignment (s : ClusterState) (a : list Z) : ClusterState :=
  {| cells_total := cells_total s; assignment := a;
     cells_per_cluster := cells_per_cluster s; parameters := parameters s;
     splits_MH_counter := splits_MH_counter s;
     merge_MH_counter := merge_MH_counter s |}.

Definition with_cells_per_cluster (s : ClusterState) (m : gmap Z Z) : ClusterState :=
  {| cells_total := cells_total s; assignment := assignment s;
     cells_per_cluster := m; parameters := parameters s;
     splits_MH_counter := splits_MH_counter s;
     merge_MH_counter := merge_MH_counter s |}.

Definition with_parameters (s : ClusterState) (p : list Row) : ClusterState :=
  {| cells_total := cells_total s; assignment := assignment s;
     cells_per_cluster := cells_per_cluster s; parameters := p;
     splits_MH_counter := splits_MH_counter s;
     merge_MH_counter := merge_MH_counter s |}.

Definition with_splits_counter (s : ClusterState) (c : Z * Z) : ClusterState :=
  {| cells_total := cells_total s; assignment := assignment s;
     cells_per_cluster := cells_per_cluster s; parameters := parameters s;
     splits_MH_counter := c;
     merge_MH_counter := merge_MH_counter s |}.

Definition with_merge_counter (s : ClusterState) (c : Z * Z) : ClusterState :=
  {| cells_total := cells_total s; assignment := assignment s;
     cells_per_cluster := cells_per_cluster s; parameters := parameters s;
     splits_MH_counter := splits_MH_counter s;
     merge_MH_counter := c |}.

(** [np.fromiter(self.cells_per_cluster.keys(), dtype=int)] *)
Definition cluster_keys (m : gmap Z Z) : list Z := (map_to_list m).*1.

(** [self._clusters = set(range(self.cells_total))] *)
Definition _clusters (n : nat) : gset Z := list_to_set (Z.of_nat <$> seq 0 n).

(** [_initialize_clusters]: every cell in cluster 0 (mode 'together',
    the default and the one [__init__] uses) or every cell in a cluster
    of its own (mode 'seperate').  [rows] are the initial parameter rows
    ([np.zeros(data.shape)] with row 0 drawn, or one drawn row per cell). *)
Inductive InitMode : Set := together | seperate.

Definition _initialize_clusters (mode : InitMode) (n : nat) (rows : list Row)
    (theta0 : Row) : result ClusterState :=
  match mode with
  | seperate =>
      Ok {| cells_total := n;
            assignment := Z.of_nat <$> seq 0 n;
            cells_per_cluster :=
              list_to_map ((λ i, (Z.of_nat i, 1%Z)) <$> seq 0 n);
            parameters := rows;
            splits_MH_counter := (0, 0)%Z; merge_MH_counter := (0, 0)%Z |}
  | together =>
      parameters0 ← setitemZ rows 0 theta0;
      Ok {| cells_total := n;
            assignment := replicate n 0%Z;
            cells_per_cluster := {[ 0%Z := Z.of_nat n ]};
            parameters := parameters0;
            splits_MH_counter := (0, 0)%Z; merge_MH_counter := (0, 0)%Z |}
  end.

(** [get_empty_cluster] *)
Definition get_empty_cluster (s : ClusterState) : result Z :=
  py_min (elements (_clusters (cells_total s) ∖ list_to_set (assignment s))).

(** [init_new_cluster]; [theta] is the row drawn by [_init_cl_params]. *)
Definition init_new_cluster (theta : Row) (s : ClusterState)
    : result (Z * ClusterState) :=
  cluster_id ← get_empty_cluster s;
  parameters' ← setitemZ (parameters s) cluster_id theta;
  Ok (cluster_id, with_parameters s parameters').

(** *** The Gibbs sweep *)

(** What one iteration of the sweep draws: the cell the permutation
    yields, the position sampled by [np.random.choice] among the
    candidates, and the parameter row for a new cluster. *)
Record GibbsDraw : Type := {
  gd_cell : nat;
  gd_pick : nat;
  gd_theta : Row;
}.

(** "Remove cell from cluster": the first half of the loop body. *)
Definition remove_cell (cell_id : nat) (s : ClusterState) : result ClusterState :=
  old_cluster ← getitem (assignment s) cell_id;
  n_old ← dict_get (cells_per_cluster s) old_cluster;
  let cpc :=
    if decide (n_old = 1%Z) then delete old_cluster (cells_per_cluster s)
    else <[old_cluster := (n_old - 1)%Z]> (cells_per_cluster s) in
  assignment' ← setitem (assignment s) cell_id (-1)%Z;
  Ok (with_cells_per_cluster (with_assignment s assignment') cpc).

(** The second half: sample the new cluster and insert the cell.  The
    weights [probs_norm] decide how likely each candidate is, not which
    candidates there are. *)
Definition assign_cell (d : GibbsDraw) (s : ClusterState) : result ClusterState :=
  let cluster_ids := cluster_keys (cells_per_cluster s) in
  new_cluster_id ← random_choice (cluster_ids ++ [(-1)%Z]) (gd_pick d);
  '(new_cluster_id, s) ←
    (if decide (new_cluster_id = (-1)%Z) then
       '(new_cluster_id, s) ← init_new_cluster (gd_theta d) s;
       Ok (new_cluster_id,
           with_cells_per_cluster s (<[new_cluster_id := 0%Z]> (cells_per_cluster s)))
     else Ok (new_cluster_id, s));
  assignment' ← setitem (assignment s) (gd_cell d) new_cluster_id;
  n ← dict_get (cells_per_cluster s) new_cluster_id;
  Ok (with_cells_per_cluster (with_assignment s assignment')
        (<[new_cluster_id := (n + 1)%Z]> (cells_per_cluster s))).

Definition gibbs_cell (d : GibbsDraw) (s : ClusterState) : result ClusterState :=
  s ← remove_cell (gd_cell d) s; assign_cell d s.

(** [update_assignments_Gibbs]; [gd_cell <$> ds] is the permutation. *)
Fixpoint update_assignments_Gibbs (ds : list GibbsDraw) (s : ClusterState)
    : result ClusterState :=
  match ds with
  | [] => Ok s
  | d :: ds' => s ← gibbs_cell d s; update_assignments_Gibbs ds' s
  end.

(** [update_parameters]; [theta c] is the row [MH_cluster_params]
    returns for cluster [c] (a call of [MH_cluster_params] that raises
    is not modelled). *)
Definition update_parameters (theta : Z → Row) (s : ClusterState)
    : result ClusterState :=
  parameters' ← foldr (λ cluster_id acc,
                   p ← acc; setitemZ p cluster_id (theta cluster_id))
                 (Ok (parameters s))
                 (reverse (cluster_keys (cells_per_cluster s)));
  Ok (with_parameters s parameters').

(** *** The split-merge move

    [run_rg_nc] (restricted Gibbs scans and the MH test) works on
    scratch state only; what it hands back is an input here: whether
    the proposal was accepted, the side of every member of [S]
    ([rg_assignment]) and the proposed parameter rows. *)

Record SplitDraw : Type := {
  sd_clusters : list nat;   (* successive draws of [clust_i] *)
  sd_i : nat;               (* the draws behind [obs_i], [obs_j] *)
  sd_j : nat;
  sd_accept : bool;
  sd_assignment : list Z;
  sd_params : Row * Row;
}.

Record MergeDraw : Type := {
  md_i : nat;               (* the draws behind [cl_i], [cl_j] *)
  md_j : nat;
  md_obs_i : nat;
  md_obs_j : nat;
  md_accept : bool;
  md_params : Row;
}.

(** "Get cluster with more than one item": draw until the cluster
    drawn does not have exactly one member. *)
Fixpoint draw_split_cluster (clusters a : list Z) (tape : list nat)
    : result (Z * list nat) :=
  match tape with
  | [] => Raise NoMoreDraws
  | u :: tape' =>
      clust_i ← random_choice clusters u;
      let clust_i_idx := argwhere a clust_i in
      if decide (length clust_i_idx = 1%nat)
      then draw_split_cluster clusters a tape'
      else Ok (clust_i, clust_i_idx)
  end.

(** [do_split_move] *)
Definition do_split_move (clusters : list Z) (d : SplitDraw) (s : ClusterState)
    : result ClusterState :=
  '(clust_i, clust_i_idx) ← draw_split_cluster clusters (assignment s) (sd_clusters d);
  '(obs_i, obs_j) ← random_choice2 clust_i_idx (sd_i d) (sd_j d);
  let S := filter (λ k, ¬ (k = obs_i ∨ k = obs_j)) (argwhere (assignment s) clust_i) in
  if sd_accept d then
    let s := with_splits_counter s
               ((splits_MH_counter s).1 + 1, (splits_MH_counter s).2)%Z in
    new_cluster ← get_empty_cluster s;
    p ← setitemZ (parameters s) clust_i (sd_params d).1;
    p ← setitemZ p new_cluster (sd_params d).2;
    moved ← getitems S (argwhere (sd_assignment d) 1%Z);
    let new_cluster_cells := moved ++ [obs_j] in
    assignment' ← setitems (assignment s) new_cluster_cells new_cluster;
    let size := Z.of_nat (length new_cluster_cells) in
    let cpc := <[new_cluster := size]> (cells_per_cluster s) in
    n ← dict_get cpc clust_i;
    Ok (with_cells_per_cluster
          (with_assignment (with_parameters s p) assignment')
          (<[clust_i := (n - size)%Z]> cpc))
  else
    Ok (with_splits_counter s
          ((splits_MH_counter s).1, (splits_MH_counter s).2 + 1)%Z).

(** [do_merge_move] *)
Definition do_merge_move (clusters : list Z) (d : MergeDraw) (s : ClusterState)
    : result ClusterState :=
  '(cl_i, cl_j) ← random_choice2 clusters (md_i d) (md_j d);
  let cl_i_cells := argwhere (assignment s) cl_i in
  i ← random_choice cl_i_cells (md_obs_i d);
  let cl_j_cells := argwhere (assignment s) cl_j in
  j ← random_choice cl_j_cells (md_obs_j d);
  if md_accept d then
    let s := with_merge_counter s
               ((merge_MH_counter s).1 + 1, (merge_MH_counter s).2)%Z in
    p ← setitemZ (parameters s) cl_i (md_params d);
    assignment' ← setitems (assignment s) cl_j_cells cl_i;
    n ← dict_get (cells_per_cluster s) cl_i;
    let cpc := <[cl_i := (n + Z.of_nat (length cl_j_cells))%Z]> (cells_per_cluster s) in
    cpc ← dict_del cpc cl_j;
    Ok (with_cells_per_cluster
          (with_assignment (with_parameters s p) assignment') cpc)
  else
    Ok (with_merge_counter s
          ((merge_MH_counter s).1, (merge_MH_counter s).2 + 1)%Z).

Record SplitMergeDraw : Type := {
  sm_split : bool;          (* the move drawn when both are possible *)
  sm_split_draw : SplitDraw;
  sm_merge_draw : MergeDraw;
}.

(** [update_assignments_split_merge] *)
Definition update_assignments_split_merge (d : SplitMergeDraw) (s : ClusterState)
    : result ClusterState :=
  let clusters := cluster_keys (cells_per_cluster s) in
  let cluster_no := length clusters in
  if decide (cluster_no = 1%nat) then do_split_move clusters (sm_split_draw d) s
  else if decide (cluster_no = cells_total s)
  then do_merge_move clusters (sm_merge_draw d) s
  else if sm_split d then do_split_move clusters (sm_split_draw d) s
  else do_merge_move clusters (sm_merge_draw d) s.

(** *** States of a run

    The states the engine goes through: the one [__init__] builds,
    and every state a Gibbs sweep, a split-merge move or a parameter
    update returns from a state already reached. *)
Inductive reachable : ClusterState → Prop :=
  | reach_init mode n rows theta0 s :
      length rows = n →
      _initialize_clusters mode n rows theta0 = Ok s →
      reachable s
  | reach_Gibbs ds s s' :
      reachable s →
      update_assignments_Gibbs ds s = Ok s' →
      reachable s'
  | reach_split_merge d s s' :
      reachable s →
      update_assignments_split_merge d s = Ok s' →
      reachable s'
  | reach_parameters theta s s' :
      reachable s →
      update_parameters theta s = Ok s' →
      reachable s'.

(** The sum of the member counts of the table. *)
Definition counts_sum (m : gmap Z Z) : Z := map_fold (λ _ n acc, (n + acc)%Z) 0%Z m.

(** What the data model asks of the table: the counts add up to the
    number of cells, the ids of the assignment vector are exactly the
    keys with a positive count, and no key has count 0. *)
Definition table_consistent (s : ClusterState) : Prop :=
  counts_sum (cells_per_cluster s) = Z.of_nat (cells_total s)
  ∧ (∀ c, c ∈ assignment s ↔ ∃ n, cells_per_cluster s !! c = Some n ∧ (0 < n)%Z)
  ∧ (∀ c, cells_per_cluster s !! c ≠ Some 0%Z).
End ClusterState.
Arguments ClusterState Row : clear implicits.
Arguments GibbsDraw Row : clear implicits.
Arguments SplitDraw Row : clear implicits.
Arguments MergeDraw Row : clear implicits.
Arguments SplitMergeDraw Row : clear implicits.

(** *** The invariant behind the data model *)

(** Number of cells of [a] that sit in cluster [c]. *)
Definition occ (c : Z) (a : list Z) : nat := length (filter (λ x, x = c) a).

(** The entry a dict of member counts has for a cluster of [n] cells. *)
Definition entry (n : nat) : option Z :=
  if decide (n = 0%nat) then None else Some (Z.of_nat n).

(** The table counts the members of every cluster exactly; the marker
    -1 of a cell taken out of its cluster is not a cluster. *)
Definition tallied (a : list Z) (m : gmap Z Z) : Prop :=
  ∀ c, m !! c = if decide (c = (-1)%Z) then None else entry (occ c a).

(** The table of member counts of an assignment vector, built cell by cell. *)
Definition tally (a : list Z) : gmap Z Z :=
  foldr (λ c m, <[c := (default 0 (m !! c) + 1)%Z]> m) ∅ a.

Section Invariant.
Context {Row : Type}.
Implicit Types s : ClusterState Row.

(** Between two iterations of a sweep and between two moves. *)
Definition Inv s : Prop :=
  length (assignment s) = cells_total s
  ∧ length (parameters s) = cells_total s
  ∧ Forall (λ c, 0 ≤ c < Z.of_nat (cells_total s))%Z (assignment s)
  ∧ tallied (assignment s) (cells_per_cluster s).

(** Inside an iteration of the sweep, while cell [i] is out of its cluster. *)
Definition Mid (i : nat) s : Prop :=
  length (assignment s) = cells_total s
  ∧ length (parameters s) = cells_total s
  ∧ assignment s !! i = Some (-1)%Z
  ∧ (∀ j c, j ≠ i → assignment s !! j = Some c → 0 ≤ c < Z.of_nat (cells_total s))%Z
  ∧ tallied (assignment s) (cells_per_cluster s).
End Invariant.

(** The three operations that change the assignment vector. *)
Inductive mutates {Row : Type} : ClusterState Row → ClusterState Row → Prop :=
  | mutates_Gibbs ds s s' :
      update_assignments_Gibbs ds s = Ok s' → mutates s s'
  | mutates_split d s s' :
      sd_accept d = true →
      do_split_move (cluster_keys (cells_per_cluster s)) d s = Ok s' →
      mutates s s'
  | mutates_merge d s s' :
      md_accept d = true →
      do_merge_move (cluster_keys (cells_per_cluster s)) d s = Ok s' →
      mutates s s'.

(** [c] is the smallest non-negative integer that [a] does not hold. *)
Definition smallest_free_id (a : list Z) (c : Z) : Prop :=
  (0 ≤ c)%Z ∧ (c ∉ a) ∧ ∀ c', (0 ≤ c')%Z → c' ∉ a → (c ≤ c')%Z.

(** A run on four cells: the initial state, a Gibbs sweep, an accepted
    split and an accepted merge. *)
Definition ex_init : ClusterState unit :=
  {| cells_total := 4; assignment := [0; 0; 0; 0]%Z;
     cells_per_cluster := {[ 0%Z := 4%Z ]}; parameters := [(); (); (); ()];
     splits_MH_counter := (0, 0)%Z; merge_MH_counter := (0, 0)%Z |}.

Definition ex_sweep : list (GibbsDraw unit) :=
  [ {| gd_cell := 2; gd_pick := 1; gd_theta := () |};
    {| gd_cell := 0; gd_pick := 0; gd_theta := () |};
    {| gd_cell := 3; gd_pick := 2; gd_theta := () |};
    {| gd_cell := 1; gd_pick := 5; gd_theta := () |} ].

Definition ex_swept : ClusterState unit :=
  {| cells_total := 4; assignment := [1; 0; 1; 2]%Z;
     cells_per_cluster := <[0%Z := 1%Z]> (<[1%Z := 2%Z]> {[ 2%Z := 1%Z ]});
     parameters := [(); (); (); ()];
     splits_MH_counter := (0, 0)%Z; merge_MH_counter := (0, 0)%Z |}.

Definition ex_split_draw : SplitDraw unit :=
  {| sd_clusters := [0; 1]; sd_i := 0; sd_j := 0; sd_accept := true;
     sd_assignment := []; sd_params := ((), ()) |}.

Definition ex_split : ClusterState unit :=
  {| cells_total := 4; assignment := [1; 0; 3; 2]%Z;
     cells_per_cluster :=
       <[0%Z := 1%Z]> (<[1%Z := 1%Z]> (<[2%Z := 1%Z]> {[ 3%Z := 1%Z ]}));
     parameters := [(); (); (); ()];
     splits_MH_counter := (1, 0)%Z; merge_MH_counter := (0, 0)%Z |}.

Definition ex_merge_draw : MergeDraw unit :=
  {| md_i := 0; md_j := 0; md_obs_i := 0; md_obs_j := 0; md_accept := true;
     md_params := () |}.

Definition ex_merged : ClusterState unit :=
  {| cells_total := 4; assignment := [1; 0; 3; 3]%Z;
     cells_per_cluster := <[0%Z := 1%Z]> (<[1%Z := 1%Z]> {[ 3%Z := 2%Z ]});
     parameters := [(); (); (); ()];
     splits_MH_counter := (1, 0)%Z; merge_MH_counter := (1, 0)%Z |}.

(** ** Floating-point operations that can raise

    [np.seterr(all='raise')] makes numpy raise [FloatingPointError]
    where IEEE arithmetic would return an infinity, a NaN or a
    denormal.  On real numbers: [log] of a non-positive number, a
    division by zero, and an [exp] whose value leaves the range of the
    normal binary64 numbers. *)

Section Numerics.
Local Open Scope R_scope.

(** [EPSILON = np.finfo(np.float64).resolution], which is 1e-15. *)
Definition EPSILON : R := / 10 ^ 15.
Definition log_EPSILON : R := ln EPSILON.

(** Smallest normal binary64 number, and the first power of two past
    the largest one. *)
Definition TINY : R := / 2 ^ 1022.
Definition HUGE : R := 2 ^ 1024.

Definition np_log (x : R) : result R :=
  if Rlt_dec 0 x then Ok (ln x) else Raise FloatingPointError.

Definition np_log1p (x : R) : result R :=
  if Rlt_dec (-1) x then Ok (ln (1 + x)) else Raise FloatingPointError.

Definition np_exp (x : R) : result R :=
  if Rlt_dec (exp x) TINY then Raise FloatingPointError
  else if Rle_dec HUGE (exp x) then Raise FloatingPointError
  else Ok (exp x).

Definition np_div (x y : R) : result R :=
  if Req_dec_T y 0 then Raise FloatingPointError else Ok (x / y).

(** [max(x, y)] of Python: the first argument unless the second is greater. *)
Definition py_max (x y : R) : R := if Rlt_dec x y then y else x.

(** [bn.nansum] of a vector whose NaN entries are [None]. *)
Definition nansum (l : list (option R)) : R :=
  foldr (λ o acc, default 0 o + acc) 0 l.

Definition sum_list (l : list R) : R := foldr Rplus 0 l.

(** ** The CRP prior *)

(** [log_CRP_prior], its value in exact arithmetic.  The code computes
    it in binary32 ([dtype=np.float32]): that computation is
    [log_CRP_prior_f32] below. *)
Definition log_CRP_prior (n_i n a : R) : result R :=
  l_i ← np_log n_i;
  l_n ← np_log (n - 1 + a);
  Ok (l_i - l_n).

(** [init_DP_prior]: entry 0 is 0, entry [k] for [k] in 1..N is the
    prior of a cluster of [k] cells, the last entry that of a new cluster. *)
Definition init_DP_prior (cells_total : nat) (DP_alpha : R) : result (list R) :=
  let cl_vals := (INR <$> seq 1 cells_total) ++ [DP_alpha] in
  CRP_prior ← mapM (M := result)
                (λ n_i, log_CRP_prior n_i (INR cells_total) DP_alpha) cl_vals;
  Ok (0 :: CRP_prior).

(** ** The concentration parameter *)

Record DPState : Type := {
  DP_alpha : R;
  DP_alpha_a : R;
  DP_alpha_b : R;
  CRP_prior : list R;
}.

(** The draws of [update_DP_alpha]: [np.random.beta], [np.random.random]
    and [np.random.gamma] as a function of the two arguments it is
    called with. *)
Record AlphaDraw : Type := {
  ad_eta : R;
  ad_u : R;
  ad_gamma : R → R → R;
}.

(** [update_DP_alpha]; [k] is [len(self.cells_per_cluster)]. *)
Definition update_DP_alpha (n : option nat) (k cells_total : nat) (d : AlphaDraw)
    (s : DPState) : result DPState :=
  let n := match n with
           | Some (S m) => S m
           | _ => cells_total      (* [if not n: n = self.cells_total] *)
           end in
  let eta := ad_eta d in
  log_eta ← np_log eta;
  w ← np_div (DP_alpha_a s + INR k - 1) (INR n * (DP_alpha_b s - log_eta));
  pi_eta ← np_div w (1 + w);
  log_eta' ← np_log eta;
  let new_alpha :=
    if Rlt_dec (ad_u d) pi_eta
    then ad_gamma d (DP_alpha_a s + INR k) (DP_alpha_b s - log_eta')
    else ad_gamma d (DP_alpha_a s + INR k - 1) (DP_alpha_b s - log_eta') in
  let DP_alpha' := py_max new_alpha (1 + EPSILON) in
  CRP_prior' ← init_DP_prior cells_total DP_alpha';
  Ok {| DP_alpha := DP_alpha'; DP_alpha_a := DP_alpha_a s;
        DP_alpha_b := DP_alpha_b s; CRP_prior := CRP_prior' |}.

(** ** The likelihood model *)

(** An entry of the data matrix: 0, 1 or NaN. *)
Inductive obs : Set := obs0 | obs1 | obs_nan.

Definition obs_val (x : obs) : option nat :=
  match x with
  | obs0 => Some 0%nat
  | obs1 => Some 1%nat
  | obs_nan => None
  end.

Record ErrorModel : Type := {
  alpha_error : R;          (* [fd_error] *)
  beta_error : R;           (* [ad_error] *)
  _beta_mix_const2 : R;     (* [self._beta_mix_const[2]] *)
}.

(** [_Bernoulli_FN], [_Bernoulli_FP]; NaN in, NaN out. *)
Definition _Bernoulli_FN (m : ErrorModel) (cell_data : obs) : option R :=
  v ← obs_val cell_data;
  Some ((1 - beta_error m) ^ v * beta_error m ^ (1 - v)).

Definition _Bernoulli_FP (m : ErrorModel) (cell_data : obs) : option R :=
  v ← obs_val cell_data;
  Some ((1 - alpha_error m) ^ (1 - v) * alpha_error m ^ v).

(** One entry of [np.log(FN + FP)]; a NaN goes through [np.log]
    without an error and is dropped by [bn.nansum].  The products are
    exact: the [FloatingPointError] of a product that underflows is
    not modelled. *)
Definition ll_entry (m : ErrorModel) (theta : R) (x : obs) : result (option R) :=
  match _Bernoulli_FN m x, _Bernoulli_FP m x with
  | Some fn, Some fp =>
      let FN := theta * fn in
      let FP := (1 - theta) * fp in
      l ← np_log (FN + FP); Ok (Some l)
  | _, _ => Ok None
  end.

(** [_calc_ll] for one cell and one parameter vector ([flat=True]). *)
Definition _calc_ll_flat (m : ErrorModel) (x : list obs) (theta : list R)
    (nan_no : R) : result R :=
  if decide (length x = length theta) then
    logs ← mapM (M := result) (λ tx, ll_entry m tx.1 tx.2) (zip theta x);
    Ok (nansum logs + nan_no * _beta_mix_const2 m)
  else Raise ValueError.

(** [_calc_ll] for a matrix of cells (one row per cell, [axis=1]). *)
Definition _calc_ll (m : ErrorModel) (x : list (list obs)) (theta : list R)
    (nan_no : list R) : result (list R) :=
  if decide (length x = length nan_no) then
    mapM (M := result) (λ xn, _calc_ll_flat m xn.1 theta xn.2) (zip x nan_no)
  else Raise ValueError.

(** [log_beta_pdf_short], the density that does guard its logarithms. *)
Definition log_beta_pdf_short (x a b : R) : result R :=
  match (l ← np_log x; l' ← np_log (1 - x); Ok ((a - 1) * l + (b - 1) * l')) with
  | Raise FloatingPointError =>
      if Req_dec_T x 0 then l ← np_log EPSILON; Ok ((a - 1) * l)
      else l ← np_log EPSILON; Ok ((b - 1) * l)
  | r => r
  end.

(** ** Normalisation of log probabilities *)

(** [bn.nanargmax]: the position of the first maximum. *)
Fixpoint argmax_from (best_i : nat) (best : R) (k : nat) (l : list R) : nat :=
  match l with
  | [] => best_i
  | x :: l' =>
      if Rlt_dec best x then argmax_from k x (S k) l'
      else argmax_from best_i best (S k) l'
  end.

Definition nanargmax (probs : list R) : result nat :=
  match probs with
  | [] => Raise ValueError
  | x :: l => Ok (argmax_from 0 x 1 l)
  end.

(** The expression both normalisations share:
    [probs - probs[max_i] - log1p(nansum(exp(probs[others] - probs[max_i])))] *)
Definition log_probs_norm (probs : list R) (max_i : nat) : result (list R) :=
  p_max ← getitem probs max_i;
  others ← mapM (M := result) (λ p, np_exp (p - p_max)) (delete max_i probs);
  l ← np_log1p (sum_list others);
  Ok ((λ p, p - p_max - l) <$> probs).

(** [_normalize_log_probs] *)
Definition _normalize_log_probs (probs : list R) : result (list R) :=
  max_i ← nanargmax probs;
  probs_norm ← log_probs_norm probs max_i;
  mapM (M := result) np_exp probs_norm.

(** [_normalize_log] *)
Definition _normalize_log (probs : list R) : result (list R) :=
  max_i ← nanargmax probs;
  match log_probs_norm probs max_i with
  | Raise FloatingPointError =>
      p0 ← getitem probs 0;
      p1 ← getitem probs 1;
      if Rgt_dec p0 p1 then Ok [0; log_EPSILON] else Ok [log_EPSILON; 0]
  | r => r
  end.
End Numerics.

(** The normalisation of a pair [p0; p1] underflows when the
    exponential of the smaller entry minus the larger one is below the
    normal range. *)
Definition underflows (p0 p1 : R) : Prop :=
  (exp (Rmin p0 p1 - Rmax p0 p1) < TINY)%R.

(** ** The proposal step sizes (binary64) *)

Section StepSizes.
Local Open Scope float_scope.
(* Decimal literals denote the nearest binary64 number, as in Python. *)
Set Warnings "-inexact-float".

Record MHState : Type := {
  param_proposal_sd : list float;
  params_MH_counter : float * float;
}.

(** A float division under [np.seterr(all='raise')]. *)
Definition np_fdiv (x y : float) : result float :=
  if (y =? 0) then Raise FloatingPointError else Ok (x / y).

(** [np.clip(x, lo, hi)] on one entry. *)
Definition clip (x lo hi : float) : float :=
  let y := if x <? lo then lo else x in
  if hi <? y then hi else y.

(** The state [__init__] sets up. *)
Definition MH_init : MHState :=
  {| param_proposal_sd := [0.1; 0.25; 0.5]; params_MH_counter := (0, 0) |}.

(** [update_MH_std] (the message it prints left out).  In the branch
    that grows the step sizes the sum with [0.8, 0.9, 1.] is computed
    and not stored, as in the source. *)
Definition update_MH_std (mult : float) (s : MHState) : result MHState :=
  let '(acc, dec) := params_MH_counter s in
  ratio ← np_fdiv (acc + 1) ((acc + dec) + 1);
  sd ←
    (if ratio <? 0.45 then
       q ← mapM (M := result) (λ x, np_fdiv x mult) (param_proposal_sd s);
       Ok ((λ x, clip x 0 1) <$> (q : list float))
     else if 0.55 <? ratio then
       let sd := (λ x, clip (x * mult) 0 1) <$> param_proposal_sd s in
       if forallb (λ x, x =? 1) sd then
         let _ := zip_with PrimFloat.add sd [0.8; 0.9; 1] in
         Ok sd
       else Ok sd
     else Ok (param_proposal_sd s));
  Ok {| param_proposal_sd := sd; params_MH_counter := (0, 0) |}.

(** [n] calls in a row with the default factor. *)
Fixpoint update_MH_std_times (n : nat) (s : MHState) : result MHState :=
  match n with
  | O => Ok s
  | S n' => s ← update_MH_std 1.5 s; update_MH_std_times n' s
  end.

(** ** Integers and binary64 *)

(** [float(z)] for a Python int: rounded to nearest even,
    [OverflowError] past the largest float. *)
Definition float_of_int (z : Z) : result float :=
  let x := SF2Prim (binary_normalize prec emax z 0 false) in
  if is_infinity x then Raise OverflowError else Ok x.

(** [int(x)] for a float: truncation toward zero. *)
Definition py_int (x : float) : result Z :=
  match Prim2SF x with
  | S754_zero _ => Ok 0%Z
  | S754_finite s m e =>
      let mag := if (0 <=? e)%Z then (Z.pos m * 2 ^ e)%Z
                 else Z.shiftr (Z.pos m) (- e) in
      Ok (if s then (- mag)%Z else mag)
  | S754_infinity _ => Raise OverflowError
  | S754_nan => Raise ValueError
  end.

(** [z * x] for an int and a float *)
Definition int_times_float (z : Z) (x : float) : result float :=
  fz ← float_of_int z; Ok (fz * x).
End StepSizes.

(** [a % b] and [a // b] on Python ints. *)
Definition py_mod (a b : Z) : result Z :=
  if decide (b = 0%Z) then Raise ZeroDivisionError else Ok (a mod b)%Z.

Definition py_floordiv (a b : Z) : result Z :=
  if decide (b = 0%Z) then Raise ZeroDivisionError else Ok (a / b)%Z.

(** [range(a, b)] *)
Definition py_range (a b : Z) : list Z :=
  (λ i, (a + Z.of_nat i)%Z) <$> seq 0 (Z.to_nat (b - a)).

(** Reads and writes through integer indices and index arrays. *)
Section PyArrays.
Context {A : Type}.

Definition getitemZ (l : list A) (i : Z) : result A :=
  k ← norm_index (length l) i; getitem l k.

(** [l[idxs]] *)
Definition getitemsZ (l : list A) (idxs : list Z) : result (list A) :=
  mapM (M := result) (getitemZ l) idxs.

(** [l[idxs] = vals]: every index is checked, then the entries are written. *)
Definition setitemsZ (l : list A) (idxs : list Z) (vals : list A)
    : result (list A) :=
  ks ← mapM (M := result) (norm_index (length l)) idxs;
  Ok (foldl (λ acc kv, <[kv.1 := kv.2]> acc) l (zip ks vals)).
End PyArrays.

(** ** The engine and its trace *)

Record Engine : Type := {
  muts_total : nat;
  clusters : ClusterState (list R);
  DP : DPState;
  MH : MHState;
}.

(** The dict [results]: one row per step in each array.
    [params_width] is [results['params'].shape[1]]; the key 'burn_in'
    is absent until the run sets it. *)
Record Trace : Type := {
  ML : list R;
  MAP : list R;
  tr_DP_alpha : list R;
  assignments : list (list Z);
  params : list (list (list R));
  params_width : nat;
  burn_in : option Z;
}.

(** What one MCMC step draws. *)
Record StepDraw : Type := {
  st_u_move : float;
  st_split_merge : SplitMergeDraw (list R);
  st_Gibbs : list (GibbsDraw (list R));
  st_theta : Z → list R;
  st_MH_counter : float * float;     (* [params_MH_counter] after the MH updates *)
  st_u_conc : float;
  st_alpha : AlphaDraw;
}.

(** [do_MCMC_step] *)
Definition do_MCMC_step (sm_prob conc_prob : float) (d : StepDraw) (e : Engine)
    : result Engine :=
  cs ← (if (st_u_move d <? sm_prob)%float
        then update_assignments_split_merge (st_split_merge d) (clusters e)
        else update_assignments_Gibbs (st_Gibbs d) (clusters e));
  cs ← update_parameters (st_theta d) cs;
  let mh := {| param_proposal_sd := param_proposal_sd (MH e);
               params_MH_counter := st_MH_counter d |} in
  dp ← (if (st_u_conc d <? conc_prob)%float
        then update_DP_alpha None (size (cells_per_cluster cs)) (cells_total cs)
               (st_alpha d) (DP e)
        else Ok (DP e));
  Ok {| muts_total := muts_total e; clusters := cs; DP := dp; MH := mh |}.

(** [stdout_MCMC_progress]: prints, and resets the MH counter. *)
Definition stdout_MCMC_progress (e : Engine) : Engine :=
  {| muts_total := muts_total e; clusters := clusters e; DP := DP e;
     MH := {| param_proposal_sd := param_proposal_sd (MH e);
              params_MH_counter := (0, 0)%float |} |}.

Section RunLoop.
(** The posterior evaluators ([get_ll_full], [get_lprior]) return a
    number or raise; numpy's allocator fails or not on a request to
    grow a trace of a given length. *)
Variables (get_ll_full get_lprior : Engine → result R).
Variable alloc_fails : nat → bool.

Definition zeros (n : nat) : list R := replicate n 0%R.

(** [_extend_results_array] *)
Definition _extend_results_array (muts : nat) (cells : nat) (results : Trace)
    : result Trace :=
  let add_size := Nat.min 200 (length (ML results)) in
  if alloc_fails (length (ML results)) then Raise MemoryError
  else
    Ok {| ML := ML results ++ zeros add_size;
          MAP := MAP results ++ zeros add_size;
          tr_DP_alpha := tr_DP_alpha results ++ zeros add_size;
          assignments := assignments results
                         ++ replicate add_size (replicate cells 0%Z);
          params := params results
                    ++ replicate add_size
                         (replicate (params_width results) (zeros muts));
          params_width := params_width results;
          burn_in := burn_in results |}.

(** [results['params'][step][clusters] = self.parameters[clusters]] *)
Definition write_params (results : Trace) (step : Z) (cl : list Z) (e : Engine)
    : result (list (list (list R))) :=
  vals ← getitemsZ (parameters (clusters e)) cl;
  row ← getitemZ (params results) step;
  row' ← setitemsZ row cl vals;
  setitemZ (params results) step row'.

(** [np.pad(results['params'], [(0,0), (0, cl_diff), (0,0)])] *)
Definition pad_params (muts : nat) (cl_diff : nat) (p : list (list (list R)))
    : list (list (list R)) :=
  (λ row, row ++ replicate cl_diff (zeros muts)) <$> p.

Definition py_max_list (l : list Z) : result Z :=
  match l with
  | [] => Raise ValueError
  | x :: l' => Ok (foldl Z.max x l')
  end.

(** [update_MCMC_results] *)
Definition update_MCMC_results (results : Trace) (step : Z) (e : Engine)
    : result Trace :=
  ll ← get_ll_full e;
  lprior ← get_lprior e;
  let lpost := (ll + lprior)%R in
  '(results, step, ml) ←
    match setitemZ (ML results) step ll with
    | Raise IndexError =>
        '(results, step) ←
          match _extend_results_array (muts_total e)
                  (cells_total (clusters e)) results with
          | Raise MemoryError =>
              step' ← py_mod step (Z.of_nat (length (ML results)));
              Ok (results, step')
          | r => r' ← r; Ok (r', step)
          end;
        ml ← setitemZ (ML results) step ll;
        Ok (results, step, ml)
    | r => ml ← r; Ok (results, step, ml)
    end;
  map ← setitemZ (MAP results) step lpost;
  asg ← setitemZ (assignments results) step (assignment (clusters e));
  dpa ← setitemZ (tr_DP_alpha results) step (DP_alpha (DP e));
  let cl := cluster_keys (cells_per_cluster (clusters e)) in
  '(par, width) ←
    match write_params results step cl e with
    | Raise IndexError =>
        top ← py_max_list cl;
        let cl_diff := (top - Z.of_nat (params_width results) + 1)%Z in
        if decide (cl_diff < 0)%Z then Raise ValueError
        else
          let padded :=
            {| ML := ML results; MAP := MAP results;
               tr_DP_alpha := tr_DP_alpha results;
               assignments := assignments results;
               params := pad_params (muts_total e) (Z.to_nat cl_diff)
                           (params results);
               params_width := (params_width results + Z.to_nat cl_diff)%nat;
               burn_in := burn_in results |} in
          par ← write_params padded step cl e;
          Ok (par, params_width padded)
    | r => par ← r; Ok (par, params_width results)
    end;
  Ok {| ML := ml; MAP := map; tr_DP_alpha := dpa; assignments := asg;
        params := par; params_width := width; burn_in := burn_in results |}.

(** [init_MCMC_results]; [np.zeros] refuses a negative length. *)
Definition init_MCMC_results (steps : Z) (e : Engine) : result Trace :=
  if decide (steps < 0)%Z then Raise ValueError
  else
    let n := Z.to_nat steps in
    let results :=
      {| ML := zeros n; MAP := zeros n; tr_DP_alpha := zeros n;
         assignments := replicate n (replicate (cells_total (clusters e)) 0%Z);
         params := replicate n (replicate 1 (zeros (muts_total e)));
         params_width := 1;
         burn_in := None |} in
    update_MCMC_results results 0 e.

(** The body of the loop of [_run_MCMC_steps]. *)
Definition MCMC_steps_body (steps : Z) (sm_prob dpa_prob : float) (silent : bool)
    (draws : Z → StepDraw) (step : Z) (st : Engine * Trace)
    : result (Engine * Trace) :=
  let '(e, results) := st in
  tenth ← py_floordiv steps 10;
  r ← py_mod step tenth;
  let e := if decide (r = 0%Z) then
             if negb silent then stdout_MCMC_progress e else e
           else e in
  e ← do_MCMC_step sm_prob dpa_prob (draws step) e;
  results ← update_MCMC_results results step e;
  Ok (e, results).

Fixpoint MCMC_steps_loop (steps : Z) (sm_prob dpa_prob : float) (silent : bool)
    (draws : Z → StepDraw) (todo : list Z) (st : Engine * Trace)
    : result (Engine * Trace) :=
  match todo with
  | [] => Ok st
  | step :: todo' =>
      st ← MCMC_steps_body steps sm_prob dpa_prob silent draws step st;
      MCMC_steps_loop steps sm_prob dpa_prob silent draws todo' st
  end.

(** [_run_MCMC_steps] *)
Definition _run_MCMC_steps (steps : Z) (burn_in : float) (sm_prob dpa_prob : float)
    (silent : bool) (draws : Z → StepDraw) (e : Engine)
    : result (Engine * Trace) :=
  let steps := (steps + 1)%Z in
  results ← init_MCMC_results steps e;
  '(e, results) ← MCMC_steps_loop steps sm_prob dpa_prob silent draws
                    (py_range 1 steps) (e, results);
  x ← int_times_float steps burn_in;
  b ← py_int x;
  Ok (e, {| ML := ML results; MAP := MAP results;
            tr_DP_alpha := tr_DP_alpha results;
            assignments := assignments results; params := params results;
            params_width := params_width results; burn_in := Some b |}).
End RunLoop.

(** An engine on four cells and one feature, in its initial state,
    evaluators that return constants, an allocator that never
    fails, and a tape of draws (each step a Gibbs sweep that moves
    nothing). *)
Definition ex_engine : Engine :=
  {| muts_total := 1;
     clusters :=
       {| cells_total := 4; assignment := [0; 0; 0; 0]%Z;
          cells_per_cluster := {[ 0%Z := 4%Z ]};
          parameters := [[/ 2]; [0]; [0]; [0]]%R;
          splits_MH_counter := (0, 0)%Z; merge_MH_counter := (0, 0)%Z |};
     DP := {| DP_alpha := 2; DP_alpha_a := 1; DP_alpha_b := 1; CRP_prior := [] |};
     MH := MH_init |}.

Definition ex_ll (e : Engine) : result R := Ok (- 3)%R.
Definition ex_lprior (e : Engine) : result R := Ok (- 1)%R.
Definition ex_alloc (n : nat) : bool := false.

Definition ex_draws (step : Z) : StepDraw :=
  {| st_u_move := 1%float;
     st_split_merge :=
       {| sm_split := true;
          sm_split_draw :=
            {| sd_clusters := [0%nat]; sd_i := 0; sd_j := 0; sd_accept := false;
               sd_assignment := []; sd_params := ([], []) |};
          sm_merge_draw :=
            {| md_i := 0; md_j := 0; md_obs_i := 0; md_obs_j := 0;
               md_accept := false; md_params := [] |} |};
     st_Gibbs := [];
     st_theta := λ _, [(/ 2)%R];
     st_MH_counter := (1, 0)%float;
     st_u_conc := 1%float;
     st_alpha := {| ad_eta := 1; ad_u := 0; ad_gamma := λ _ _, 2%R |} |}.

(** A trace of one recorded step that is full, and the same trace
    after the second step was recorded. *)
Definition ex_trace_full : Trace :=
  {| ML := [(- 7)%R]; MAP := [(- 9)%R]; tr_DP_alpha := [3%R];
     assignments := [[0; 0; 0; 0]%Z]; params := [[[(/ 4)%R]]];
     params_width := 1; burn_in := None |}.

Definition ex_trace_grown : Trace :=
  {| ML := [- 7; - 3]%R; MAP := [- 9; - 3 + - 1]%R; tr_DP_alpha := [3; 2]%R;
     assignments := [[0; 0; 0; 0]; [0; 0; 0; 0]]%Z;
     params := [[[/ 4]]; [[/ 2]]]%R;
     params_width := 1; burn_in := None |}.

(** Every entry of the old trace at a step of [keep] is an entry of
    the new one, at the same step (and, for a parameter snapshot, the
    same cluster slot). *)
Definition extends_trace (old new : Trace) (keep : nat → Prop) : Prop :=
  (∀ i x, keep i → ML old !! i = Some x → ML new !! i = Some x)
  ∧ (∀ i x, keep i → MAP old !! i = Some x → MAP new !! i = Some x)
  ∧ (∀ i x, keep i → tr_DP_alpha old !! i = Some x → tr_DP_alpha new !! i = Some x)
  ∧ (∀ i x, keep i → assignments old !! i = Some x → assignments new !! i = Some x)
  ∧ (∀ i row c v, keep i → params old !! i = Some row → row !! c = Some v →
       ∃ row', params new !! i = Some row' ∧ row' !! c = Some v).

(** All the arrays of a trace have [n] rows. *)
Definition trace_len (tr : Trace) (n : nat) : Prop :=
  length (ML tr) = n ∧ length (MAP tr) = n ∧ length (tr_DP_alpha tr) = n
  ∧ length (assignments tr) = n ∧ length (params tr) = n.

(** ** Truncation of the trace and the open-ended runs *)

(** [(results['ML'] == 0).sum()] *)
Definition count_zeros (l : list R) : nat :=
  foldr (λ x n, if Req_dec_T x 0 then S n else n) 0%nat l.

(** [values[:-zeros]] for a positive [zeros]: all rows but the last [zeros]. *)
Definition drop_last {A} (zeros : nat) (values : list A) : list A :=
  take (length values - zeros) values.

(** [_truncate_results_array].  The loop goes over every item of the
    dict: with the key 'burn_in' present it would slice an integer,
    which raises [TypeError]; that outcome is [None].  Both callers
    truncate before they set the key. *)
Definition _truncate_results_array (results : Trace) : option Trace :=
  let zeros := count_zeros (ML results) in
  if decide (zeros ≠ 0%nat) then
    match burn_in results with
    | Some _ => None
    | None =>
        Some {| ML := drop_last zeros (ML results);
                MAP := drop_last zeros (MAP results);
                tr_DP_alpha := drop_last zeros (tr_DP_alpha results);
                assignments := drop_last zeros (assignments results);
                params := drop_last zeros (params results);
                params_width := params_width results;
                burn_in := None |}
    end
  else Some results.

Section OpenRuns.
Variables (get_ll_full get_lprior : Engine → result R).
Variable alloc_fails : nat → bool.
(** [ut.get_lugsail_batch_means_est(results['ML'], step // 2, steps=step)],
    a function of another module, and the [pow] of the C library
    behind [cutoff**2]. *)
Variable get_lugsail_batch_means_est : list R → Z → Z → result float.
Variable py_pow : float → float → float.

(** The loop of [_run_MCMC_time].  [clock] holds, for each reading of
    [datetime.now()], whether it is past [end_time]; the loop reads the
    clock once per iteration. *)
Fixpoint MCMC_time_loop (sm_prob dpa_prob : float) (silent : bool)
    (draws : Z → StepDraw) (clock : list bool) (step : Z) (st : Engine * Trace)
    : result (Z * (Engine * Trace)) :=
  match clock with
  | [] => Raise NoMoreDraws
  | late :: clock' =>
      let step := (step + 1)%Z in
      if late then Ok (step, st)
      else
        let '(e, results) := st in
        let e := if decide (step mod 1000 = 0)%Z then
                   if negb silent then stdout_MCMC_progress e else e
                 else e in
        e ← do_MCMC_step sm_prob dpa_prob (draws step) e;
        results ← update_MCMC_results get_ll_full get_lprior alloc_fails
                    results step e;
        MCMC_time_loop sm_prob dpa_prob silent draws clock' step (e, results)
  end.

(** [_run_MCMC_time]; [None] is the [TypeError] of the truncation. *)
Definition _run_MCMC_time (burn_in : float) (sm_prob dpa_prob : float)
    (silent : bool) (draws : Z → StepDraw) (clock : list bool) (e : Engine)
    : result (option (Engine * Trace)) :=
  results ← init_MCMC_results get_ll_full get_lprior alloc_fails 500 e;
  '(step, (e, results)) ← MCMC_time_loop sm_prob dpa_prob silent draws clock 0
                            (e, results);
  match _truncate_results_array results with
  | None => Ok None
  | Some results =>
      x ← int_times_float step burn_in;
      b ← py_int x;
      Ok (Some (e, {| ML := ML results; MAP := MAP results;
                      tr_DP_alpha := tr_DP_alpha results;
                      assignments := assignments results;
                      params := params results;
                      params_width := params_width results;
                      burn_in := Some b |}))
  end.

(** [int(1 / (cutoff**2 - 1))] on Python floats. *)
Definition lugsail_min_steps (cutoff : float) : result Z :=
  let d := (py_pow cutoff 2 - 1)%float in
  if (d =? 0)%float then Raise ZeroDivisionError else py_int (1 / d)%float.

(** The loop of [_run_MCMC_lugsail]; [fuel] bounds the number of
    iterations the model follows. *)
Fixpoint MCMC_lugsail_loop (cutoff : float) (min_steps : Z)
    (sm_prob dpa_prob : float) (silent : bool) (draws : Z → StepDraw)
    (fuel : nat) (step : Z) (st : Engine * Trace)
    : result (Z * (Engine * Trace)) :=
  match fuel with
  | O => Raise NoMoreDraws
  | S fuel' =>
      let step := (step + 1)%Z in
      let '(e, results) := st in
      '(stop, e) ←
        (if decide (step mod 500 = 0)%Z then
           PSRF ← get_lugsail_batch_means_est (ML results) (step / 2)%Z step;
           let e := if negb silent then stdout_MCMC_progress e else e in
           Ok ((PSRF <=? cutoff)%float && bool_decide (min_steps < step)%Z, e)
         else Ok (false, e));
      if (stop : bool) then Ok (step, (e, results))
      else
        e ← do_MCMC_step sm_prob dpa_prob (draws step) e;
        results ← update_MCMC_results get_ll_full get_lprior alloc_fails
                    results step e;
        MCMC_lugsail_loop cutoff min_steps sm_prob dpa_prob silent draws fuel'
          step (e, results)
  end.

(** [_run_MCMC_lugsail] *)
Definition _run_MCMC_lugsail (cutoff : float) (sm_prob dpa_prob : float)
    (silent : bool) (draws : Z → StepDraw) (fuel : nat) (e : Engine)
    : result (option (Engine * Trace)) :=
  min_steps ← lugsail_min_steps cutoff;
  results ← init_MCMC_results get_ll_full get_lprior alloc_fails min_steps e;
  '(step, (e, results)) ← MCMC_lugsail_loop cutoff min_steps sm_prob dpa_prob
                            silent draws fuel 0 (e, results);
  match _truncate_results_array results with
  | None => Ok None
  | Some results =>
      Ok (Some (e, {| ML := ML results; MAP := MAP results;
                      tr_DP_alpha := tr_DP_alpha results;
                      assignments := assignments results;
                      params := params results;
                      params_width := params_width results;
                      burn_in := Some (step / 2)%Z |}))
  end.
End OpenRuns.

(** A trace whose first [n] rows are samples with a non-zero log
    likelihood and whose other rows are still the zeros it was
    allocated with. *)
Definition recorded (n : nat) (tr : Trace) : Prop :=
  ∃ m, trace_len tr m ∧ (n ≤ m)%nat
       ∧ (∀ i x, (i < n)%nat → ML tr !! i = Some x → x ≠ 0%R)
       ∧ (∀ i, (n ≤ i < m)%nat → ML tr !! i = Some 0%R)
       ∧ burn_in tr = None.

(** Every parameter snapshot of the trace has [params_width] cluster slots. *)
Definition params_shaped (tr : Trace) : Prop :=
  Forall (λ row, length row = params_width tr) (params tr).

(** The example engine after a step of [ex_draws]: the step moves
    nothing and leaves one accepted parameter move in the counter. *)
Definition ex_engine_stepped : Engine :=
  {| muts_total := muts_total ex_engine; clusters := clusters ex_engine;
     DP := DP ex_engine;
     MH := {| param_proposal_sd := param_proposal_sd MH_init;
              params_MH_counter := (1, 0)%float |} |}.

(** ** The restricted Gibbs scan *)

(** The sizes [n_i], [n_j] that [_rg_scan_assign] and
    [_rg_get_split_prob] compute while one observation is taken out
    (marker -1): "+1 to compensate for obs -1; +1 for observation j",
    and "+1 for observation i". *)
Definition rg_sizes (S_size : nat) (rg_assignment : list Z) : Z * Z :=
  let n_j := (foldr Z.add 0 rg_assignment + 2)%Z in
  let n_i := (Z.of_nat S_size - n_j + 1)%Z in
  (n_i, n_j).

(** The body of the loop of both functions up to the normalisation:
    the observation is taken out, and the likelihood of the two clusters
    plus their CRP prior is normalised with [_normalize_log].  [ll] is
    the array [_rg_get_ll] returns, one pair per observation of [S]. *)
Definition rg_log_probs (DP_alpha : R) (S_size : nat) (rg_assignment : list Z)
    (ll : list (R * R)) (obs : nat) : result (list Z * list R) :=
  a ← setitem rg_assignment obs (-1)%Z;
  let n := (Z.of_nat S_size + 2)%Z in
  let '(n_i, n_j) := rg_sizes S_size a in
  l ← getitem ll obs;
  p_i ← log_CRP_prior (IZR n_i) (IZR n) DP_alpha;
  p_j ← log_CRP_prior (IZR n_j) (IZR n) DP_alpha;
  log_probs_norm ← _normalize_log [(l.1 + p_i)%R; (l.2 + p_j)%R];
  Ok (a, log_probs_norm).

(** ** The CRP prior in single precision

    [log_CRP_prior] is called with its default [dtype=np.float32]: the
    arguments of [np.log] are converted to binary32, the logarithm and
    the subtraction are binary32 operations.  This is the computation as
    the code performs it; [log_CRP_prior] above is its value in exact
    arithmetic. *)





Section SinglePrecision.
(** [np.log] on binary32 under [np.seterr(all='raise')]: the
    logarithm of the platform, a function of its binary32 argument. *)
Variable logf : spec_float → result spec_float.


End SinglePrecision.

(** ** A run with sweeps that move cells

    An engine on four cells and two features, and draws whose steps
    are full Gibbs sweeps over a permutation of the cells, but for step
    3, which is an accepted split. *)
Definition ex_engine2 : Engine :=
  {| muts_total := 2;
     clusters :=
       {| cells_total := 4; assignment := [0; 0; 0; 0]%Z;
          cells_per_cluster := {[ 0%Z := 4%Z ]};
          parameters := [[/ 2; / 2]; [0; 0]; [0; 0]; [0; 0]]%R;
          splits_MH_counter := (0, 0)%Z; merge_MH_counter := (0, 0)%Z |};
     DP := {| DP_alpha := 2; DP_alpha_a := 1; DP_alpha_b := 1; CRP_prior := [] |};
     MH := MH_init |}.

Definition ex_sweep2 : list (GibbsDraw (list R)) :=
  [ {| gd_cell := 2; gd_pick := 1; gd_theta := [/ 4; / 2]%R |};
    {| gd_cell := 0; gd_pick := 0; gd_theta := [/ 4; / 2]%R |};
    {| gd_cell := 3; gd_pick := 2; gd_theta := [/ 2; / 4]%R |};
    {| gd_cell := 1; gd_pick := 5; gd_theta := [/ 4; / 4]%R |} ].

Definition ex_draws2 (step : Z) : StepDraw :=
  {| st_u_move := if decide (step = 3%Z) then 0%float else 1%float;
     st_split_merge :=
       {| sm_split := true;
          sm_split_draw :=
            {| sd_clusters := [0; 1; 2]%nat; sd_i := 0; sd_j := 0;
               sd_accept := true;
               sd_assignment := []; sd_params := ([/ 2; / 2], [/ 4; / 4])%R |};
          sm_merge_draw :=
            {| md_i := 0; md_j := 0; md_obs_i := 0; md_obs_j := 0;
               md_accept := false; md_params := [] |} |};
     st_Gibbs := ex_sweep2;
     st_theta := λ _, [(/ 2)%R; (/ 4)%R];
     st_MH_counter := (2, 0)%float;
     st_u_conc := 1%float;
     st_alpha := {| ad_eta := 1; ad_u := 0; ad_gamma := λ _ _, 2%R |} |}.


(** * Proofs *)

Lemma bind_Ok {A B} (f : A → result B) (m : result A) (b : B) :
  m ≫= f = Ok b → ∃ a, m = Ok a ∧ f a = Ok b.
Proof. destruct m as [a|e]; simpl; [eauto | discriminate]. Qed.

(** Inversion of a chain of binds that returned [Ok]. *)
Ltac inv_bind H :=
  let x := fresh "x" in
  let E := fresh "E" in
  apply bind_Ok in H as (x & E & H).

(** ** Containers *)

Lemma getitem_Ok {A} (l : list A) i x : getitem l i = Ok x ↔ l !! i = Some x.
Proof. unfold getitem. destruct (l !! i); split; congruence. Qed.

Lemma setitem_Ok {A} (l l' : list A) i x :
  setitem l i x = Ok l' ↔ (i < length l)%nat ∧ l' = <[i:=x]> l.
Proof. unfold setitem. case_decide; split; intros; try congruence; intuition congruence. Qed.

Lemma norm_index_Ok len i k :
  norm_index len i = Ok k → (0 ≤ i)%Z → Z.of_nat k = i ∧ (k < len)%nat.
Proof. unfold norm_index. repeat case_decide; intros [= <-] ?; lia. Qed.

Lemma setitemZ_Ok {A} (l l' : list A) i x :
  setitemZ l i x = Ok l' →
  length l' = length l ∧ (- Z.of_nat (length l) ≤ i < Z.of_nat (length l))%Z.
Proof.
  unfold setitemZ. intros H. inv_bind H. injection H as <-.
  rewrite length_insert. split; [done|].
  unfold norm_index in E. repeat case_decide; (done || lia).
Qed.

Lemma setitemZ_total {A} (l : list A) i x :
  (0 ≤ i < Z.of_nat (length l))%Z → ∃ l', setitemZ l i x = Ok l'.
Proof. intros H. unfold setitemZ, norm_index. rewrite decide_True by done. simpl. eauto. Qed.

Lemma random_choice_Ok {A} (l : list A) u x : random_choice l u = Ok x → x ∈ l.
Proof.
  unfold random_choice. destruct l as [|y l]; [done|].
  rewrite getitem_Ok. apply list_elem_of_lookup_2.
Qed.

Lemma random_choice_total {A} (l : list A) u :
  l ≠ [] → ∃ x, random_choice l u = Ok x.
Proof.
  intros Hl. destruct l as [|y l]; [done|]. unfold random_choice.
  destruct (lookup_lt_is_Some_2 (y :: l) (u mod length (y :: l))) as [x Hx].
  { apply Nat.mod_upper_bound. simpl. lia. }
  exists x. by apply getitem_Ok.
Qed.

Lemma random_choice2_Ok {A} (l : list A) u v x y :
  NoDup l → random_choice2 l u v = Ok (x, y) → x ∈ l ∧ y ∈ l ∧ x ≠ y.
Proof.
  intros Hnd. unfold random_choice2. case_decide; [done|]. intros Hc.
  inv_bind Hc. inv_bind Hc. injection Hc as -> ->.
  apply getitem_Ok in E. apply random_choice_Ok in E0.
  split; [by eapply list_elem_of_lookup_2|].
  split; [by eapply list_elem_of_delete_inv|].
  intros ->. apply list_elem_of_lookup_1 in E0 as [j Hj].
  rewrite list_lookup_delete in Hj. case_decide.
  - assert (j = u mod length l) by (eapply NoDup_lookup; eauto). lia.
  - assert (S j = u mod length l) by (eapply NoDup_lookup; eauto). lia.
Qed.

Lemma foldl_min_spec l x :
  (foldl Z.min x l = x ∨ foldl Z.min x l ∈ l)
  ∧ (foldl Z.min x l ≤ x)%Z ∧ ∀ y, y ∈ l → (foldl Z.min x l ≤ y)%Z.
Proof.
  revert x. induction l as [|z l IH]; intros x; simpl.
  - split; [by left|]. split; [lia|]. intros y Hy. by apply elem_of_nil in Hy.
  - destruct (IH (Z.min x z)) as (Hin & Hx & Hle). split; [|split].
    + destruct Hin as [Hin|Hin].
      * rewrite Hin. destruct (Z.min_spec x z) as [[_ ->]|[_ ->]];
          [by left | right; left].
      * right. by right.
    + lia.
    + intros y [->|Hy]%elem_of_cons; [lia | by apply Hle].
Qed.

Lemma py_min_Ok l m :
  py_min l = Ok m → m ∈ l ∧ ∀ y, y ∈ l → (m ≤ y)%Z.
Proof.
  destruct l as [|x l]; [done|]. simpl. intros [= <-].
  destruct (foldl_min_spec l x) as (Hin & Hx & Hle). split.
  - destruct Hin as [->|Hin]; [left | by right].
  - intros y [->|Hy]%elem_of_cons; [done | by apply Hle].
Qed.

Lemma py_min_total l : l ≠ [] → ∃ m, py_min l = Ok m.
Proof. destruct l; [done|]. simpl. eauto. Qed.

(** ** Counting the members of a cluster *)

Lemma occ_nil c : occ c [] = 0%nat.
Proof. done. Qed.

Lemma occ_cons c x a :
  occ c (x :: a) = ((if decide (x = c) then 1 else 0) + occ c a)%nat.
Proof. unfold occ. rewrite filter_cons. by case_decide. Qed.

Lemma occ_app c a b : occ c (a ++ b) = (occ c a + occ c b)%nat.
Proof. unfold occ. by rewrite filter_app, length_app. Qed.

Lemma occ_pos c a : (0 < occ c a)%nat ↔ c ∈ a.
Proof.
  induction a as [|x a IH]; [rewrite occ_nil; split; [lia | by intros ?%elem_of_nil]|].
  rewrite occ_cons, elem_of_cons. case_decide; subst; [intuition lia|].
  rewrite <- IH. intuition (try lia; congruence).
Qed.

Lemma occ_zero c a : occ c a = 0%nat ↔ c ∉ a.
Proof. rewrite <- occ_pos. lia. Qed.

(** Overwriting one cell moves one unit from its old cluster to the new one. *)
Lemma occ_insert c a i x y :
  a !! i = Some x →
  (occ c (<[i:=y]> a) + (if decide (x = c) then 1 else 0)
   = occ c a + (if decide (y = c) then 1 else 0))%nat.
Proof.
  intros Hi. pose proof (lookup_lt_Some _ _ _ Hi) as Hlt.
  rewrite insert_take_drop by done.
  rewrite <- (take_drop_middle a i x Hi) at 3.
  rewrite !occ_app, !occ_cons. lia.
Qed.

Lemma argwhere_from_spec k a c i :
  i ∈ argwhere_from k a c ↔ ∃ j, i = (k + j)%nat ∧ a !! j = Some c.
Proof.
  revert k. induction a as [|x a IH]; intros k; simpl.
  - split; [by intros ?%elem_of_nil | by intros (? & _ & ?)].
  - case_decide; subst; rewrite ?elem_of_cons, IH.
    + split.
      * intros [->|(j & -> & Hj)]; [exists 0%nat | exists (S j)]; split; (lia || done).
      * intros ([|j] & -> & Hj); [left; lia | right; exists j; split; [lia | done]].
    + split.
      * intros (j & -> & Hj). exists (S j). split; [lia | done].
      * intros ([|j] & -> & Hj); [simpl in Hj; congruence|].
        exists j. split; [lia | done].
Qed.

Lemma argwhere_spec a c i : i ∈ argwhere a c ↔ a !! i = Some c.
Proof.
  unfold argwhere. rewrite argwhere_from_spec. split.
  - by intros (j & -> & Hj).
  - intros Hi. by exists i.
Qed.

Lemma argwhere_from_NoDup k a c : NoDup (argwhere_from k a c).
Proof.
  revert k. induction a as [|x a IH]; intros k; simpl; [constructor|].
  case_decide; [|done]. constructor; [|done].
  rewrite argwhere_from_spec. intros (j & ? & _). lia.
Qed.

Lemma argwhere_NoDup a c : NoDup (argwhere a c).
Proof. apply argwhere_from_NoDup. Qed.

Lemma argwhere_from_length k a c : length (argwhere_from k a c) = occ c a.
Proof.
  revert k. induction a as [|x a IH]; intros k; simpl; [done|].
  rewrite occ_cons. case_decide; simpl; by rewrite IH.
Qed.

Lemma argwhere_length a c : length (argwhere a c) = occ c a.
Proof. apply argwhere_from_length. Qed.

(** Writing [y] over [n] distinct cells of cluster [x]. *)
Lemma setitems_spec a idxs (x y : Z) a' :
  setitems a idxs y = Ok a' →
  NoDup idxs → (∀ i, i ∈ idxs → a !! i = Some x) → x ≠ y →
  length a' = length a
  ∧ (∀ i, a' !! i = if decide (i ∈ idxs) then Some y else a !! i)
  ∧ (∀ c, occ c a' =
          if decide (c = x) then (occ x a - length idxs)%nat
          else if decide (c = y) then (occ y a + length idxs)%nat
          else occ c a)
  ∧ (length idxs ≤ occ x a)%nat.
Proof.
  unfold setitems. case_decide as Hr; [|done]. intros [= <-]. clear Hr.
  induction idxs as [|i idxs IH]; intros Hnd Hx Hxy; cbn [foldr length].
  - split; [done|]. split; [|split; [|lia]].
    + intros i. rewrite decide_False; [done | apply not_elem_of_nil].
    + intros c. repeat case_decide; subst; lia.
  - apply NoDup_cons in Hnd as [Hi Hnd].
    destruct IH as (Hlen & Hlk & Hocc & Hle); [done | | done |].
    { intros j Hj. apply Hx. by right. }
    assert (Hai : a !! i = Some x) by (apply Hx; left).
    set (b := foldr (λ i acc, <[i:=y]> acc) a idxs) in *.
    assert (Hbi : b !! i = Some x).
    { rewrite Hlk. by rewrite decide_False. }
    pose proof (lookup_lt_Some _ _ _ Hbi) as Hlt.
    pose proof (occ_insert x b i x y Hbi) as Hox.
    rewrite Hocc in Hox. rewrite !decide_True in Hox by done.
    rewrite (decide_False (P := y = x)) in Hox by done.
    split; [by rewrite length_insert|]. split; [|split; [|lia]].
    + intros j. destruct (decide (j = i)) as [->|Hji].
      * rewrite list_lookup_insert_eq by done. rewrite decide_True; [done | left].
      * rewrite list_lookup_insert_ne by done. rewrite Hlk.
        destruct (decide (j ∈ idxs)) as [Hj|Hj].
        -- rewrite decide_True; [done | by right].
        -- rewrite decide_False; [done|]. rewrite elem_of_cons. tauto.
    + intros c. pose proof (occ_insert c b i x y Hbi) as Hoc.
      rewrite !Hocc in Hoc.
      repeat case_decide; subst; try congruence; lia.
Qed.

Lemma setitems_total {A} (a : list A) idxs y :
  (∀ i, i ∈ idxs → (i < length a)%nat) → ∃ a', setitems a idxs y = Ok a'.
Proof.
  intros H. unfold setitems. rewrite decide_True; [eauto|]. by apply Forall_forall.
Qed.

(** ** The table of member counts *)

Lemma counts_sum_empty : counts_sum ∅ = 0%Z.
Proof. unfold counts_sum. by rewrite map_fold_empty. Qed.

Lemma counts_sum_insert_fresh m c n :
  m !! c = None → counts_sum (<[c:=n]> m) = (n + counts_sum m)%Z.
Proof.
  intros Hc. unfold counts_sum. rewrite map_fold_insert_L; [done | | done].
  intros. lia.
Qed.

Lemma counts_sum_insert m c n :
  counts_sum (<[c:=n]> m) = (n + counts_sum m - default 0 (m !! c))%Z.
Proof.
  destruct (m !! c) as [k|] eqn:Hc; simpl.
  - rewrite <- (insert_delete_eq m c n).
    rewrite <- (insert_delete_id m c k Hc) at 2.
    rewrite !counts_sum_insert_fresh by apply lookup_delete_eq. lia.
  - rewrite counts_sum_insert_fresh by done. lia.
Qed.

Lemma tally_lookup a c : tally a !! c = entry (occ c a).
Proof.
  induction a as [|x a IH]; simpl.
  - by rewrite lookup_empty.
  - rewrite occ_cons. destruct (decide (x = c)) as [->|Hne].
    + rewrite lookup_insert_eq, IH. unfold entry.
      repeat case_decide; simpl; try lia; f_equal; lia.
    + by rewrite lookup_insert_ne.
Qed.

Lemma counts_sum_tally a : counts_sum (tally a) = Z.of_nat (length a).
Proof.
  induction a as [|x a IH]; simpl; [apply counts_sum_empty|].
  rewrite counts_sum_insert, IH. lia.
Qed.

Lemma tallied_tally a m : (-1)%Z ∉ a → tallied a m → m = tally a.
Proof.
  intros Ha Hm. apply map_eq. intros c. rewrite Hm, tally_lookup.
  case_decide; [|done]. subst. apply occ_zero in Ha. by rewrite Ha.
Qed.

(** ** Allocation of cluster ids *)

Section ClusterProofs.
Context {Row : Type}.
Implicit Types s : ClusterState Row.

Lemma elem_of_clusters n c : c ∈ _clusters n ↔ (0 ≤ c < Z.of_nat n)%Z.
Proof.
  unfold _clusters. rewrite elem_of_list_to_set, list_elem_of_fmap. split.
  - intros (k & -> & Hk%elem_of_seq). lia.
  - intros Hc. exists (Z.to_nat c). split; [lia|]. apply elem_of_seq. lia.
Qed.

Lemma get_empty_cluster_Ok s c :
  get_empty_cluster s = Ok c →
  (0 ≤ c < Z.of_nat (cells_total s))%Z
  ∧ (c ∉ assignment s)
  ∧ ∀ c', (0 ≤ c')%Z → c' ∉ assignment s → (c ≤ c')%Z.
Proof.
  unfold get_empty_cluster. intros [Hin Hmin]%py_min_Ok.
  apply elem_of_elements, elem_of_difference in Hin as [Hc Ha].
  apply elem_of_clusters in Hc. rewrite elem_of_list_to_set in Ha.
  split; [done|]. split; [done|]. intros c' Hc' Ha'.
  destruct (decide (c' < Z.of_nat (cells_total s))%Z) as [Hlt|]; [|lia].
  apply Hmin, elem_of_elements, elem_of_difference.
  rewrite elem_of_clusters, elem_of_list_to_set. split; [lia | done].
Qed.

(** An id is free as soon as the cells do not use all of [0, N): *)
Lemma get_empty_cluster_total s c0 :
  (0 ≤ c0 < Z.of_nat (cells_total s))%Z → c0 ∉ assignment s →
  ∃ c, get_empty_cluster s = Ok c.
Proof.
  intros Hc0 Ha. apply py_min_total. intros Hnil.
  apply elements_empty_inv in Hnil.
  assert (c0 ∈ (_clusters (cells_total s) ∖ list_to_set (assignment s) : gset Z)) as Hin.
  { apply elem_of_difference. rewrite elem_of_clusters, elem_of_list_to_set. done. }
  rewrite Hnil in Hin. by apply elem_of_empty in Hin.
Qed.

(** Pigeonhole: fewer than [N] cells cannot use all the ids of [0, N). *)
Lemma free_id_exists (l : list Z) n :
  (length l < n)%nat → ∃ c, (0 ≤ c < Z.of_nat n)%Z ∧ c ∉ l.
Proof.
  intros Hlen.
  destruct (decide (Forall (λ c, c ∈ l) (Z.of_nat <$> seq 0 n))) as [Hall|Hex].
  - exfalso. assert (Z.of_nat <$> seq 0 n ⊆+ l) as Hsub.
    { apply NoDup_submseteq; [|by apply Forall_forall].
      apply NoDup_fmap; [apply _ | apply NoDup_seq]. }
    apply submseteq_length in Hsub. rewrite length_fmap, length_seq in Hsub. lia.
  - apply not_Forall_Exists in Hex; [|apply _].
    apply Exists_exists in Hex as (c & Hc & Hnot).
    exists c. split; [|done].
    apply list_elem_of_fmap in Hc as (k & -> & Hk%elem_of_seq). lia.
Qed.

Lemma get_empty_cluster_Mid s i :
  Mid i s → ∃ c, get_empty_cluster s = Ok c.
Proof.
  intros (Hlen & _ & Hi & _).
  pose proof (lookup_lt_Some _ _ _ Hi) as Hlt.
  destruct (free_id_exists (delete i (assignment s)) (cells_total s))
    as (c & Hc & Hfree).
  { rewrite length_delete by eauto. lia. }
  apply (get_empty_cluster_total s c Hc). intros Hin.
  apply list_elem_of_lookup_1 in Hin as [j Hj].
  destruct (decide (j = i)) as [->|Hji]; [rewrite Hi in Hj; injection Hj; lia|].
  apply Hfree. apply list_elem_of_lookup.
  destruct (decide (j < i)%nat).
  - exists j. by rewrite list_lookup_delete_lt.
  - exists (pred j). rewrite list_lookup_delete_ge by lia.
    replace (S (pred j)) with j by lia. done.
Qed.

(** ** The invariant gives the data model's properties *)

Lemma tallied_key a m c n :
  tallied a m → m !! c = Some n → c ≠ (-1)%Z ∧ n = Z.of_nat (occ c a) ∧ c ∈ a.
Proof.
  intros Hm Hc. rewrite Hm in Hc. case_decide; [done|]. unfold entry in Hc.
  case_decide; [done|]. injection Hc as <-. split; [done|]. split; [done|].
  apply occ_pos. lia.
Qed.

Lemma tallied_member a m c :
  tallied a m → c ∈ a → c ≠ (-1)%Z → m !! c = Some (Z.of_nat (occ c a)).
Proof.
  intros Hm Hc Hne. rewrite Hm, decide_False by done. unfold entry.
  apply occ_pos in Hc. rewrite decide_False by lia. done.
Qed.

Lemma Inv_no_marker s : Inv s → (-1)%Z ∉ assignment s.
Proof.
  intros (_ & _ & Hr & _) Hin. rewrite Forall_forall in Hr. apply Hr in Hin. lia.
Qed.

Lemma Inv_consistent s : Inv s → table_consistent s.
Proof.
  intros HI. pose proof (Inv_no_marker s HI) as Hm.
  destruct HI as (Hlen & _ & Hr & Ht). split; [|split].
  - rewrite (tallied_tally _ _ Hm Ht), counts_sum_tally. by rewrite Hlen.
  - intros c. split.
    + intros Hc. exists (Z.of_nat (occ c (assignment s))). split.
      * apply tallied_member; [done..|]. intros ->. done.
      * apply occ_pos in Hc. lia.
    + intros (n & Hn & _). by eapply tallied_key.
  - intros c Hc. eapply tallied_key in Hc as (_ & Hz & Hin); [|done].
    apply occ_pos in Hin. lia.
Qed.

Lemma Inv_key_range s c n :
  Inv s → cells_per_cluster s !! c = Some n → (0 ≤ c < Z.of_nat (cells_total s))%Z.
Proof.
  intros (_ & _ & Hr & Ht) Hc. eapply tallied_key in Hc as (_ & _ & Hin); [|done].
  rewrite Forall_forall in Hr. by apply Hr.
Qed.

Lemma elem_of_cluster_keys (m : gmap Z Z) c : c ∈ cluster_keys m ↔ is_Some (m !! c).
Proof.
  unfold cluster_keys. rewrite list_elem_of_fmap. split.
  - intros ([k n] & -> & Hin%elem_of_map_to_list). simpl. eauto.
  - intros [n Hn]. exists (c, n). split; [done|]. by apply elem_of_map_to_list.
Qed.

Lemma cluster_keys_NoDup (m : gmap Z Z) : NoDup (cluster_keys m).
Proof. apply NoDup_fst_map_to_list. Qed.

(** ** The initial state *)

Lemma occ_replicate c n x :
  occ c (replicate n x) = if decide (x = c) then n else 0%nat.
Proof.
  induction n as [|n IH]; simpl; [by case_decide|].
  rewrite occ_cons, IH. by case_decide.
Qed.

Lemma occ_seq c k n :
  occ c (Z.of_nat <$> seq k n) =
  if decide (Z.of_nat k ≤ c < Z.of_nat (k + n))%Z then 1%nat else 0%nat.
Proof.
  revert k. induction n as [|n IH]; intros k; simpl.
  - rewrite occ_nil. case_decide; [lia | done].
  - rewrite occ_cons, IH. repeat case_decide; lia.
Qed.

Lemma lookup_singletons c k n :
  (list_to_map ((λ i, (Z.of_nat i, 1%Z)) <$> seq k n) : gmap Z Z) !! c =
  if decide (Z.of_nat k ≤ c < Z.of_nat (k + n))%Z then Some 1%Z else None.
Proof.
  revert k. induction n as [|n IH]; intros k; simpl.
  - rewrite lookup_empty. case_decide; [lia | done].
  - destruct (decide (Z.of_nat k = c)) as [<-|Hne].
    + rewrite lookup_insert_eq. rewrite decide_True by lia. done.
    + rewrite lookup_insert_ne by done. rewrite IH.
      repeat case_decide; (done || lia).
Qed.

Lemma initialize_clusters_Inv mode n rows theta0 s :
  length rows = n → _initialize_clusters mode n rows theta0 = Ok s → Inv s.
Proof.
  intros Hrows. destruct mode; simpl; intros H.
  - inv_bind H. injection H as <-. apply setitemZ_Ok in E as [Hlen Hn].
    unfold Inv; simpl. rewrite length_replicate. split; [done|].
    split; [congruence|]. split.
    + apply Forall_replicate. lia.
    + intros c. rewrite occ_replicate. unfold entry.
      destruct (decide (c = 0%Z)) as [->|Hc].
      * rewrite lookup_singleton_eq. repeat case_decide; (done || lia).
      * rewrite lookup_singleton_ne by done. repeat case_decide; (done || lia).
  - injection H as <-. unfold Inv; simpl.
    rewrite length_fmap, length_seq. split; [done|]. split; [done|]. split.
    + apply Forall_forall. intros c (k & -> & Hk%elem_of_seq)%list_elem_of_fmap. lia.
    + intros c. rewrite lookup_singletons, occ_seq. unfold entry.
      repeat case_decide; (done || lia).
Qed.

(** ** The Gibbs sweep keeps the invariant *)

Lemma remove_cell_Mid s s1 i :
  Inv s → remove_cell i s = Ok s1 → Mid i s1 ∧ cells_total s1 = cells_total s.
Proof.
  intros HI H. pose proof (Inv_no_marker s HI) as Hm.
  destruct HI as (Hlen & Hpar & Hr & Ht).
  unfold remove_cell in H. inv_bind H. rename x into old. apply getitem_Ok in E.
  inv_bind H. rename x into n_old. unfold dict_get in E0.
  destruct (cells_per_cluster s !! old) as [n|] eqn:Hold; [|done].
  injection E0 as ->. inv_bind H. apply setitem_Ok in E0 as [Hi ->].
  injection H as <-. split; [|done]. unfold Mid; simpl.
  rewrite length_insert. split; [done|]. split; [done|].
  split; [by apply list_lookup_insert_eq|]. split.
  { intros j c Hj Hc. rewrite list_lookup_insert_ne in Hc by done.
    rewrite Forall_forall in Hr. eapply Hr, list_elem_of_lookup_2, Hc. }
  destruct (tallied_key _ _ _ _ Ht Hold) as (Hne & Hn & Hin).
  intros c. pose proof (occ_insert c _ i old (-1)%Z E) as Hocc.
  pose proof (Ht c) as Htc.
  assert (∀ c', c' ≠ old →
    (if decide (n_old = 1%Z) then delete old (cells_per_cluster s)
     else <[old:=(n_old - 1)%Z]> (cells_per_cluster s)) !! c' = cells_per_cluster s !! c')
    as Hother.
  { intros c' Hc'. destruct (decide (n_old = 1%Z));
      [by rewrite lookup_delete_ne | by rewrite lookup_insert_ne]. }
  destruct (decide (old = c)) as [->|Hoc].
  - rewrite (decide_False (P := (-1)%Z = c)) in Hocc by lia.
    rewrite (decide_False (P := c = (-1)%Z)) by done. unfold entry.
    destruct (decide (n_old = 1%Z)).
    + rewrite lookup_delete_eq. rewrite decide_True by lia. done.
    + rewrite lookup_insert_eq. rewrite decide_False by lia. f_equal. lia.
  - rewrite Hother by done. rewrite Htc.
    destruct (decide (c = (-1)%Z)) as [->|Hc]; [done|].
    rewrite (decide_False (P := (-1)%Z = c)) in Hocc by done.
    f_equal. lia.
Qed.

Lemma remove_cell_total s i :
  Inv s → (i < cells_total s)%nat → ∃ s1, remove_cell i s = Ok s1.
Proof.
  intros HI Hi. pose proof (Inv_no_marker s HI) as Hm.
  destruct HI as (Hlen & Hpar & Hr & Ht).
  destruct (lookup_lt_is_Some_2 (assignment s) i) as [old Hold]; [lia|].
  unfold remove_cell, getitem. rewrite Hold. simpl.
  assert (old ∈ assignment s) as Hin by (by eapply list_elem_of_lookup_2).
  unfold dict_get. rewrite (tallied_member _ _ _ Ht Hin) by (by intros ->). simpl.
  unfold setitem. rewrite (decide_True (P := (i < length (assignment s))%nat)) by lia.
  simpl. eauto.
Qed.

(** Inserting the cell taken out into cluster [c], which holds
    [occ c a] cells already (none if [c] is new). *)
Lemma insert_cell_Inv s i c :
  Mid i s → (0 ≤ c < Z.of_nat (cells_total s))%Z →
  Inv (with_cells_per_cluster (with_assignment s (<[i:=c]> (assignment s)))
         (<[c := (Z.of_nat (occ c (assignment s)) + 1)%Z]> (cells_per_cluster s))).
Proof.
  intros (Hlen & Hpar & Hi & Hr & Ht) Hc. unfold Inv; simpl.
  rewrite length_insert. split; [done|]. split; [done|]. split.
  - apply Forall_forall. intros c' [j Hj]%list_elem_of_lookup_1.
    destruct (decide (j = i)) as [->|Hji].
    + rewrite list_lookup_insert_eq in Hj by (by eapply lookup_lt_Some).
      by injection Hj as <-.
    + rewrite list_lookup_insert_ne in Hj by done. by eapply Hr.
  - intros c'. pose proof (occ_insert c' _ i _ c Hi) as Hocc.
    destruct (decide (c' = (-1)%Z)) as [->|Hc'].
    + rewrite lookup_insert_ne by lia. rewrite Ht. by rewrite decide_True.
    + rewrite (decide_False (P := (-1)%Z = c')) in Hocc by done.
      destruct (decide (c = c')) as [->|Hcc].
      * rewrite lookup_insert_eq. unfold entry. rewrite decide_False by lia.
        f_equal. lia.
      * rewrite lookup_insert_ne by done. rewrite Ht, decide_False by done.
        f_equal. lia.
Qed.

Lemma Mid_key s i c n :
  Mid i s → cells_per_cluster s !! c = Some n →
  (0 ≤ c < Z.of_nat (cells_total s))%Z ∧ n = Z.of_nat (occ c (assignment s)).
Proof.
  intros (Hlen & Hpar & Hi & Hr & Ht) Hc.
  destruct (tallied_key _ _ _ _ Ht Hc) as (Hne & Hn & [j Hj]%list_elem_of_lookup_1).
  split; [|done]. apply (Hr j); [|done]. intros ->. congruence.
Qed.

Lemma assign_cell_Inv s s' d :
  Mid (gd_cell d) s → assign_cell d s = Ok s' →
  Inv s' ∧ cells_total s' = cells_total s.
Proof.
  intros HM H. pose proof HM as (Hlen & Hpar & Hi & Hr & Ht).
  unfold assign_cell in H. inv_bind H. rename x into pick.
  apply random_choice_Ok in E. inv_bind H. destruct x as [c s2].
  inv_bind H. apply setitem_Ok in E1 as [Hlt ->]. inv_bind H. rename x into n.
  injection H as <-. unfold dict_get in E1.
  destruct (cells_per_cluster s2 !! c) as [n'|] eqn:Hn; [|done]. injection E1 as ->.
  case_decide as Hpick.
  - (* a new cluster *)
    inv_bind E0. destruct x as [c0 s3]. injection E0 as -> <-.
    unfold init_new_cluster in E1. inv_bind E1. rename x into c0.
    inv_bind E1. injection E1 as -> <-.
    apply get_empty_cluster_Ok in E0 as (Hc0 & Hfree & _).
    apply setitemZ_Ok in E2 as [Hlen' _]. apply occ_zero in Hfree.
    simpl in *. rewrite lookup_insert_eq in Hn. injection Hn as <-.
    rewrite insert_insert_eq.
    assert (Mid (gd_cell d) (with_parameters s x)) as HM'.
    { unfold Mid; simpl. split; [done|]. split; [congruence|]. done. }
    pose proof (insert_cell_Inv _ _ c HM' Hc0) as HI. simpl in HI.
    rewrite Hfree in HI. split; [exact HI | done].
  - injection E0 as -> ->.
    destruct (Mid_key _ _ _ _ HM Hn) as [Hc ->].
    split; [|done]. by apply insert_cell_Inv.
Qed.

Lemma assign_cell_total s d :
  Mid (gd_cell d) s → ∃ s', assign_cell d s = Ok s'.
Proof.
  intros HM. pose proof HM as (Hlen & Hpar & Hi & Hr & Ht).
  pose proof (lookup_lt_Some _ _ _ Hi) as Hlt.
  unfold assign_cell.
  destruct (random_choice_total (cluster_keys (cells_per_cluster s) ++ [(-1)%Z])
              (gd_pick d)) as [pick Hpick].
  { by destruct (cluster_keys (cells_per_cluster s)). }
  rewrite Hpick. simpl. apply random_choice_Ok in Hpick.
  case_decide as Hnew.
  - destruct (get_empty_cluster_Mid s _ HM) as [c Hc].
    unfold init_new_cluster. rewrite Hc. simpl.
    apply get_empty_cluster_Ok in Hc as Hc'. destruct Hc' as (Hrange & _).
    destruct (setitemZ_total (parameters s) c (gd_theta d)) as [p Hp]; [lia|].
    rewrite Hp. simpl. unfold setitem. rewrite decide_True by done. simpl.
    unfold dict_get. rewrite lookup_insert_eq. simpl. eauto.
  - simpl. unfold setitem. rewrite decide_True by done. simpl.
    apply elem_of_app in Hpick as [Hkey|Hm%list_elem_of_singleton]; [|done].
    apply elem_of_cluster_keys in Hkey as [n Hn].
    unfold dict_get. rewrite Hn. simpl. eauto.
Qed.

Lemma gibbs_cell_Inv s s' d :
  Inv s → gibbs_cell d s = Ok s' → Inv s' ∧ cells_total s' = cells_total s.
Proof.
  intros HI H. unfold gibbs_cell in H. inv_bind H.
  destruct (remove_cell_Mid _ _ _ HI E) as [HM HN].
  destruct (assign_cell_Inv _ _ _ HM H) as [HI' HN']. split; [done | congruence].
Qed.

Lemma update_assignments_Gibbs_Inv ds s s' :
  Inv s → update_assignments_Gibbs ds s = Ok s' →
  Inv s' ∧ cells_total s' = cells_total s.
Proof.
  revert s. induction ds as [|d ds IH]; intros s HI H; simpl in H.
  - by injection H as <-.
  - inv_bind H. destruct (gibbs_cell_Inv _ _ _ HI E) as [HI1 HN1].
    destruct (IH _ HI1 H) as [HI' HN']. split; [done | congruence].
Qed.

(** The sweep runs to its end on every tape whose cells exist; a
    permutation of the cells is such a tape. *)
Lemma update_assignments_Gibbs_total ds s :
  Inv s → Forall (λ d, gd_cell d < cells_total s)%nat ds →
  ∃ s', update_assignments_Gibbs ds s = Ok s'.
Proof.
  revert s. induction ds as [|d ds IH]; intros s HI Hds; simpl; [eauto|].
  apply Forall_cons in Hds as [Hd Hds].
  destruct (remove_cell_total _ _ HI Hd) as [s1 Hs1].
  destruct (remove_cell_Mid _ _ _ HI Hs1) as [HM HN].
  destruct (assign_cell_total s1 d HM) as [s2 Hs2].
  destruct (assign_cell_Inv _ _ _ HM Hs2) as [HI2 HN2].
  unfold gibbs_cell. rewrite Hs1. simpl. rewrite Hs2. simpl.
  apply IH; [done|]. rewrite HN2, HN. done.
Qed.

(** ** The split and merge moves keep the invariant *)

Lemma getitems_Ok {A} (l : list A) idxs r :
  getitems l idxs = Ok r → Forall2 (λ i x, l !! i = Some x) idxs r.
Proof.
  unfold getitems. revert r. induction idxs as [|i idxs IH]; intros r H; simpl in H.
  - injection H as <-. constructor.
  - inv_bind H. inv_bind H. injection H as <-. apply getitem_Ok in E.
    constructor; [done | by apply IH].
Qed.

Lemma getitems_NoDup {A} (l : list A) idxs r :
  getitems l idxs = Ok r → NoDup l → NoDup idxs →
  NoDup r ∧ ∀ x, x ∈ r → x ∈ l.
Proof.
  intros H%getitems_Ok Hl. induction H as [|i x idxs r Hi H IH]; intros Hnd.
  - split; [constructor | by intros ? ?%elem_of_nil].
  - apply NoDup_cons in Hnd as [Hni Hnd]. destruct (IH Hnd) as [Hr Hin]. split.
    + constructor; [|done]. intros Hx.
      apply list_elem_of_lookup_1 in Hx as [k Hk].
      destruct (Forall2_lookup_r _ _ _ _ _ H Hk) as (j & Hj & Hlj).
      assert (i = j) by (by apply (NoDup_lookup l i j x)). subst.
      apply Hni. by eapply list_elem_of_lookup_2.
    + intros y [->|Hy]%elem_of_cons; [by eapply list_elem_of_lookup_2 | by apply Hin].
Qed.

Lemma draw_split_cluster_Ok clusters a tape clust_i idx :
  draw_split_cluster clusters a tape = Ok (clust_i, idx) →
  idx = argwhere a clust_i.
Proof.
  induction tape as [|u tape IH]; simpl; [done|]. intros H. inv_bind H.
  case_decide; [by apply IH | by injection H as -> ->].
Qed.

Lemma Inv_counters s c1 c2 :
  Inv s → Inv (with_merge_counter (with_splits_counter s c1) c2).
Proof. done. Qed.

Lemma do_split_move_Inv clusters d s s' :
  Inv s → do_split_move clusters d s = Ok s' →
  Inv s' ∧ cells_total s' = cells_total s.
Proof.
  intros HI H. pose proof HI as (Hlen & Hpar & Hr & Ht).
  unfold do_split_move in H. inv_bind H. destruct x as [clust_i idx].
  apply draw_split_cluster_Ok in E as ->.
  inv_bind H. destruct x as [obs_i obs_j].
  apply random_choice2_Ok in E as (Hi & Hj & Hij); [|apply argwhere_NoDup].
  apply argwhere_spec in Hi. apply argwhere_spec in Hj.
  destruct (sd_accept d); [|by injection H as <-].
  inv_bind H. rename x into new.
  apply get_empty_cluster_Ok in E as (Hnew & Hfree & _). simpl in Hnew, Hfree.
  inv_bind H. apply setitemZ_Ok in E as [Hp1 _].
  inv_bind H. apply setitemZ_Ok in E as [Hp2 _].
  inv_bind H. rename x1 into moved.
  apply getitems_NoDup in E as [Hmnd Hmin];
    [|apply NoDup_filter, argwhere_NoDup | apply argwhere_NoDup].
  inv_bind H. rename x1 into a'. inv_bind H. rename x1 into n.
  injection H as <-. simpl in *.
  assert (clust_i ∈ assignment s) as Hci by (by eapply list_elem_of_lookup_2).
  assert (clust_i ≠ new) as Hcn by (by intros ->).
  assert (clust_i ≠ (-1)%Z) as Hc1.
  { rewrite Forall_forall in Hr. apply Hr in Hci. lia. }
  assert (∀ k, k ∈ moved →
    k ≠ obs_i ∧ k ≠ obs_j ∧ assignment s !! k = Some clust_i) as Hmoved.
  { intros k Hk%Hmin. apply list_elem_of_filter in Hk as [Hne Hk%argwhere_spec].
    split; [tauto|]. split; [tauto | done]. }
  apply setitems_spec with (x := clust_i) in E as (Hlen' & Hlk & Hocc & Hle);
    [| | |done].
  2:{ apply NoDup_app. split; [done|]. split; [|apply NoDup_singleton].
      intros k Hk ->%list_elem_of_singleton. apply Hmoved in Hk. tauto. }
  2:{ intros k [Hk| ->%list_elem_of_singleton]%elem_of_app; [by apply Hmoved | done]. }
  assert (obs_i ∉ moved ++ [obs_j]) as Hkeep.
  { intros [Hk| ->%list_elem_of_singleton]%elem_of_app; [|done].
    apply Hmoved in Hk. tauto. }
  assert (0 < occ clust_i a')%nat as Hpos.
  { apply occ_pos. apply list_elem_of_lookup. exists obs_i.
    rewrite Hlk. by rewrite decide_False. }
  unfold dict_get in E0. rewrite lookup_insert_ne in E0 by done.
  rewrite (tallied_member _ _ _ Ht Hci Hc1) in E0. injection E0 as <-.
  pose proof (Hocc clust_i) as Hoi. rewrite decide_True in Hoi by done.
  rewrite length_app in *. simpl in *.
  split; [|done]. unfold Inv; simpl. split; [congruence|]. split; [congruence|].
  split.
  - apply Forall_forall. intros c [k Hk]%list_elem_of_lookup_1.
    rewrite Hlk in Hk. case_decide.
    + by injection Hk as <-.
    + rewrite Forall_forall in Hr. eapply Hr, list_elem_of_lookup_2, Hk.
  - intros c. rewrite Hocc. apply occ_zero in Hfree.
    destruct (decide (c = clust_i)) as [->|Hc].
    + rewrite lookup_insert_eq, decide_False by done. unfold entry.
      rewrite decide_False by lia. f_equal. lia.
    + rewrite lookup_insert_ne by done.
      destruct (decide (c = new)) as [->|Hc'].
      * rewrite lookup_insert_eq, decide_False by lia. unfold entry.
        rewrite decide_False by lia. f_equal. lia.
      * rewrite lookup_insert_ne by done. apply Ht.
Qed.

Lemma do_merge_move_Inv clusters d s s' :
  NoDup clusters → Inv s → do_merge_move clusters d s = Ok s' →
  Inv s' ∧ cells_total s' = cells_total s.
Proof.
  intros Hnd HI H. pose proof HI as (Hlen & Hpar & Hr & Ht).
  unfold do_merge_move in H. inv_bind H. destruct x as [cl_i cl_j].
  apply random_choice2_Ok in E as (_ & _ & Hij); [|done].
  inv_bind H. rename x into i. apply random_choice_Ok, argwhere_spec in E.
  inv_bind H. rename x into j. apply random_choice_Ok, argwhere_spec in E0.
  destruct (md_accept d); [|by injection H as <-].
  inv_bind H. apply setitemZ_Ok in E1 as [Hp _].
  inv_bind H. rename x0 into a'. inv_bind H. rename x0 into n.
  inv_bind H. rename x0 into cpc. injection H as <-. simpl in *.
  assert (cl_i ∈ assignment s) as Hci by (by eapply list_elem_of_lookup_2).
  assert (cl_j ∈ assignment s) as Hcj by (by eapply list_elem_of_lookup_2).
  rewrite Forall_forall in Hr. pose proof (Hr _ Hci) as Hri. pose proof (Hr _ Hcj) as Hrj.
  apply setitems_spec with (x := cl_j) in E1 as (Hlen' & Hlk & Hocc & Hle);
    [|apply argwhere_NoDup | by intros k ?%argwhere_spec | done].
  unfold dict_get in E2.
  rewrite (tallied_member _ _ _ Ht Hci) in E2 by lia. injection E2 as <-.
  unfold dict_del in E3.
  destruct (_ !! cl_j) eqn:Hdel in E3; [|done]. injection E3 as <-.
  rewrite argwhere_length in *.
  split; [|done]. unfold Inv; simpl. split; [congruence|]. split; [congruence|].
  split.
  - apply Forall_forall. intros c [k Hk]%list_elem_of_lookup_1.
    rewrite Hlk in Hk. case_decide.
    + by injection Hk as <-.
    + eapply Hr, list_elem_of_lookup_2, Hk.
  - intros c. rewrite Hocc.
    destruct (decide (c = cl_j)) as [->|Hc].
    + rewrite lookup_delete_eq, decide_False by lia. unfold entry.
      rewrite decide_True by lia. done.
    + rewrite lookup_delete_ne by done.
      destruct (decide (c = cl_i)) as [->|Hc'].
      * rewrite lookup_insert_eq, decide_False by lia. unfold entry.
        apply occ_pos in Hci. rewrite decide_False by lia. f_equal. lia.
      * rewrite lookup_insert_ne by done. apply Ht.
Qed.

Lemma update_assignments_split_merge_Inv d s s' :
  Inv s → update_assignments_split_merge d s = Ok s' →
  Inv s' ∧ cells_total s' = cells_total s.
Proof.
  intros HI. unfold update_assignments_split_merge.
  pose proof (cluster_keys_NoDup (cells_per_cluster s)) as Hnd.
  repeat case_decide; try destruct (sm_split d);
    eauto using do_split_move_Inv, do_merge_move_Inv.
Qed.

Lemma update_parameters_Inv theta s s' :
  Inv s → update_parameters theta s = Ok s' →
  Inv s' ∧ cells_total s' = cells_total s.
Proof.
  intros (Hlen & Hpar & Hr & Ht) H. unfold update_parameters in H. inv_bind H.
  injection H as <-. split; [|done]. unfold Inv; simpl.
  split; [done|]. split; [|done]. rewrite <- Hpar. clear -E.
  revert x E. induction (reverse _) as [|c l IH]; intros p H; simpl in H.
  - by injection H as <-.
  - inv_bind H. apply setitemZ_Ok in H as [-> _]. by apply IH.
Qed.

(** Every state of a run satisfies the invariant. *)
Lemma reachable_Inv s : reachable s → Inv s.
Proof.
  induction 1 as [mode n rows theta0 s Hrows Hinit
                 |ds s s' _ IH Hs|d s s' _ IH Hs|theta s s' _ IH Hs].
  - by eapply initialize_clusters_Inv.
  - by eapply update_assignments_Gibbs_Inv.
  - by eapply update_assignments_split_merge_Inv.
  - by eapply update_parameters_Inv.
Qed.

(** ** The moves return

    On draws that the samplers can produce, the split and merge moves
    run to their end: the invariant above is not an invariant of
    states that cannot be left. *)

Lemma getitem_total {A} (l : list A) i : (i < length l)%nat → ∃ x, getitem l i = Ok x.
Proof.
  intros H. destruct (lookup_lt_is_Some_2 l i H) as [x Hx].
  exists x. by apply getitem_Ok.
Qed.

Lemma random_choice2_total {A} (l : list A) u v :
  (2 ≤ length l)%nat → ∃ x y, random_choice2 l u v = Ok (x, y).
Proof.
  intros Hl. unfold random_choice2. rewrite decide_False by lia.
  assert (u mod length l < length l)%nat as Hu by (apply Nat.mod_upper_bound; lia).
  destruct (getitem_total l _ Hu) as [x Hx]. rewrite Hx. simpl.
  destruct (random_choice_total (delete (u mod length l) l) v) as [y Hy].
  { intros Hnil. apply (f_equal length) in Hnil.
    rewrite length_delete in Hnil by (by apply lookup_lt_is_Some_2). simpl in Hnil. lia. }
  rewrite Hy. simpl. eauto.
Qed.

Lemma getitems_total {A} (l : list A) idxs :
  Forall (λ i, i < length l)%nat idxs → ∃ r, getitems l idxs = Ok r.
Proof.
  unfold getitems. induction 1 as [|i idxs Hi _ [r IH]]; simpl; [eauto|].
  destruct (getitem_total l i Hi) as [x ->]. simpl. rewrite IH. simpl. eauto.
Qed.

Lemma occ_delete c a i x :
  a !! i = Some x →
  (occ c (delete i a) + (if decide (x = c) then 1 else 0) = occ c a)%nat.
Proof.
  intros Hi. rewrite <- (take_drop_middle a i x Hi) at 2.
  rewrite delete_take_drop, !occ_app, occ_cons. lia.
Qed.

(** A cluster of two cells leaves an id of [0, N) unused. *)
Lemma free_id_of_pair a n c :
  length a = n → (2 ≤ occ c a)%nat → ∃ c0, (0 ≤ c0 < Z.of_nat n)%Z ∧ c0 ∉ a.
Proof.
  intros Hlen Hocc.
  assert (c ∈ a) as [i Hi]%list_elem_of_lookup_1 by (apply occ_pos; lia).
  pose proof (lookup_lt_Some _ _ _ Hi) as Hlt.
  destruct (free_id_exists (delete i a) n) as (c0 & Hc0 & Hfree).
  { rewrite length_delete by eauto. lia. }
  exists c0. split; [done|]. intros Hin%occ_pos. apply Hfree, occ_pos.
  pose proof (occ_delete c0 a i c Hi) as Hd1.
  pose proof (occ_delete c a i c Hi) as Hd2.
  rewrite decide_True in Hd2 by done. case_decide; subst; lia.
Qed.

Lemma filter_split_three (l : list nat) i j :
  i ≠ j →
  (length (filter (λ k, ¬ (k = i ∨ k = j)) l)
   + length (filter (λ k, k = i) l) + length (filter (λ k, k = j) l)
   = length l)%nat.
Proof.
  intros Hij. induction l as [|k l IH]; [done|].
  rewrite !filter_cons.
  destruct (decide (k = i)) as [Hki|Hki], (decide (k = j)) as [Hkj|Hkj].
  - congruence.
  - rewrite decide_False by tauto. simpl. lia.
  - rewrite decide_False by tauto. simpl. lia.
  - rewrite decide_True by tauto. simpl. lia.
Qed.

Lemma filter_eq_NoDup (l : list nat) i :
  NoDup l → i ∈ l → length (filter (λ k, k = i) l) = 1%nat.
Proof.
  induction 1 as [|k l Hk Hnd IH]; [by intros ?%elem_of_nil|].
  rewrite filter_cons. intros [->|Hin]%elem_of_cons.
  - rewrite decide_True by done. simpl. f_equal.
    apply length_zero_iff_nil, elem_of_nil_inv. intros x [-> Hx]%list_elem_of_filter.
    done.
  - rewrite decide_False by (by intros ->). by apply IH.
Qed.

Lemma filter_two_length (l : list nat) i j :
  NoDup l → i ∈ l → j ∈ l → i ≠ j →
  length (filter (λ k, ¬ (k = i ∨ k = j)) l) = (length l - 2)%nat.
Proof.
  intros Hnd Hi Hj Hij. pose proof (filter_split_three l i j Hij) as H3.
  rewrite !filter_eq_NoDup in H3 by done. lia.
Qed.

Lemma draw_split_cluster_total clusters a tape :
  Exists (λ u, ∃ c, random_choice clusters u = Ok c ∧ occ c a ≠ 1%nat) tape →
  clusters ≠ [] →
  ∃ clust_i, draw_split_cluster clusters a tape = Ok (clust_i, argwhere a clust_i)
             ∧ clust_i ∈ clusters ∧ occ clust_i a ≠ 1%nat.
Proof.
  intros Hex Hne. induction tape as [|u tape IH]; [by apply Exists_nil in Hex|].
  simpl. destruct (random_choice_total clusters u Hne) as [c Hc]. rewrite Hc. simpl.
  rewrite argwhere_length. case_decide as Hone.
  - apply Exists_cons in Hex as [(c' & Hc' & Hocc)|Hex]; [congruence | by apply IH].
  - exists c. split; [done|]. split; [by eapply random_choice_Ok | done].
Qed.

(** The split move returns when some draw of the tape hits a cluster
    of two cells or more and [rg_assignment] has one entry per member
    of [S]. *)
Lemma do_split_move_total d s :
  Inv s →
  Exists (λ u, ∃ c, random_choice (cluster_keys (cells_per_cluster s)) u = Ok c
               ∧ occ c (assignment s) ≠ 1%nat) (sd_clusters d) →
  (∀ clust_i idx,
     draw_split_cluster (cluster_keys (cells_per_cluster s)) (assignment s)
       (sd_clusters d) = Ok (clust_i, idx) →
     (length (sd_assignment d) + 2 = length idx)%nat) →
  ∃ s', do_split_move (cluster_keys (cells_per_cluster s)) d s = Ok s'.
Proof.
  intros HI Hex Hrg. pose proof HI as (Hlen & Hpar & Hr & Ht).
  destruct (draw_split_cluster_total _ _ _ Hex) as (clust_i & Hdraw & Hkey & Hocc).
  { intros Hnil. apply Exists_exists in Hex as (u & _ & c & Hc & _).
    rewrite Hnil in Hc. done. }
  apply elem_of_cluster_keys in Hkey as [n Hn].
  pose proof (Inv_key_range _ _ _ HI Hn) as Hrange.
  destruct (tallied_key _ _ _ _ Ht Hn) as (_ & _ & Hin). apply occ_pos in Hin.
  unfold do_split_move. rewrite Hdraw. simpl.
  destruct (random_choice2_total (argwhere (assignment s) clust_i) (sd_i d) (sd_j d))
    as (obs_i & obs_j & Hpair); [rewrite argwhere_length; lia|].
  rewrite Hpair. simpl.
  destruct (random_choice2_Ok _ _ _ _ _ (argwhere_NoDup _ _) Hpair) as (Hi & Hj & Hij).
  destruct (sd_accept d); [|eauto].
  destruct (free_id_of_pair (assignment s) (cells_total s) clust_i Hlen ltac:(lia))
    as (c0 & Hc0 & Hfree).
  destruct (get_empty_cluster_total
              (with_splits_counter s
                 ((splits_MH_counter s).1 + 1, (splits_MH_counter s).2)%Z) c0 Hc0 Hfree)
    as [new Hnew].
  rewrite Hnew. simpl. apply get_empty_cluster_Ok in Hnew as (Hnr & _).
  destruct (setitemZ_total (parameters s) clust_i (sd_params d).1) as [p1 Hp1]; [lia|].
  simpl in *. rewrite Hp1. simpl. apply setitemZ_Ok in Hp1 as Hl1. destruct Hl1 as [Hl1 _].
  destruct (setitemZ_total p1 new (sd_params d).2) as [p2 Hp2]; [lia|].
  rewrite Hp2. simpl.
  set (S := filter (λ k, ¬ (k = obs_i ∨ k = obs_j)) (argwhere (assignment s) clust_i)).
  assert (length S = (occ clust_i (assignment s) - 2)%nat) as HS.
  { unfold S. rewrite filter_two_length by (done || apply argwhere_NoDup).
    by rewrite argwhere_length. }
  destruct (getitems_total S (argwhere (sd_assignment d) 1%Z)) as [moved Hmoved].
  { apply Forall_forall. intros k Hk%argwhere_spec%lookup_lt_Some.
    specialize (Hrg _ _ Hdraw). rewrite argwhere_length in Hrg. lia. }
  rewrite Hmoved. simpl.
  destruct (setitems_total (assignment s) (moved ++ [obs_j]) new) as [a' Ha'].
  { apply getitems_Ok in Hmoved.
    intros k [Hk| ->%list_elem_of_singleton]%elem_of_app.
    - apply list_elem_of_lookup_1 in Hk as [m Hm].
      destruct (Forall2_lookup_r _ _ _ _ _ Hmoved Hm) as (q & _ & Hq).
      apply list_elem_of_lookup_2, list_elem_of_filter in Hq as [_ Hq].
      apply argwhere_spec in Hq. by eapply lookup_lt_Some.
    - apply argwhere_spec in Hj. by eapply lookup_lt_Some. }
  rewrite Ha'. simpl. unfold dict_get.
  destruct (decide (new = clust_i)) as [->|Hne].
  - rewrite lookup_insert_eq. simpl. eauto.
  - rewrite lookup_insert_ne, Hn by done. simpl. eauto.
Qed.

(** The merge move returns as soon as there are two clusters. *)
Lemma do_merge_move_total d s :
  Inv s → (2 ≤ length (cluster_keys (cells_per_cluster s)))%nat →
  ∃ s', do_merge_move (cluster_keys (cells_per_cluster s)) d s = Ok s'.
Proof.
  intros HI Htwo. pose proof HI as (Hlen & Hpar & Hr & Ht).
  destruct (random_choice2_total (cluster_keys (cells_per_cluster s)) (md_i d) (md_j d)
              Htwo) as (cl_i & cl_j & Hpair).
  destruct (random_choice2_Ok _ _ _ _ _ (cluster_keys_NoDup _) Hpair)
    as ([ni Hni]%elem_of_cluster_keys & [nj Hnj]%elem_of_cluster_keys & Hij).
  destruct (tallied_key _ _ _ _ Ht Hni) as (_ & _ & Hini).
  destruct (tallied_key _ _ _ _ Ht Hnj) as (_ & _ & Hinj).
  pose proof (Inv_key_range _ _ _ HI Hni) as Hri.
  unfold do_merge_move. rewrite Hpair. simpl.
  destruct (random_choice_total (argwhere (assignment s) cl_i) (md_obs_i d)) as [i Hi].
  { intros Hnil. apply (f_equal length) in Hnil. rewrite argwhere_length in Hnil.
    apply occ_pos in Hini. simpl in Hnil. lia. }
  destruct (random_choice_total (argwhere (assignment s) cl_j) (md_obs_j d)) as [j Hj].
  { intros Hnil. apply (f_equal length) in Hnil. rewrite argwhere_length in Hnil.
    apply occ_pos in Hinj. simpl in Hnil. lia. }
  rewrite Hi. simpl. rewrite Hj. simpl.
  destruct (md_accept d); [|eauto]. simpl.
  destruct (setitemZ_total (parameters s) cl_i (md_params d)) as [p Hp]; [lia|].
  rewrite Hp. simpl.
  destruct (setitems_total (assignment s) (argwhere (assignment s) cl_j) cl_i)
    as [a' Ha'].
  { intros k Hk%argwhere_spec. by eapply lookup_lt_Some. }
  rewrite Ha'. simpl. unfold dict_get. rewrite Hni. simpl.
  unfold dict_del. rewrite lookup_insert_ne, Hnj by done. simpl. eauto.
Qed.
End ClusterProofs.

(** ** The run on four cells *)

Lemma ex_init_reachable : reachable ex_init.
Proof. by apply (reach_init together 4 (replicate 4 ()) ()). Qed.

Lemma ex_swept_eq : update_assignments_Gibbs ex_sweep ex_init = Ok ex_swept.
Proof. vm_compute. reflexivity. Qed.

Lemma ex_split_eq :
  do_split_move (cluster_keys (cells_per_cluster ex_swept)) ex_split_draw ex_swept
  = Ok ex_split.
Proof. vm_compute. reflexivity. Qed.

Lemma ex_merged_eq :
  do_merge_move (cluster_keys (cells_per_cluster ex_split)) ex_merge_draw ex_split
  = Ok ex_merged.
Proof. vm_compute. reflexivity. Qed.

Lemma ex_swept_reachable : reachable ex_swept.
Proof. exact (reach_Gibbs _ _ _ ex_init_reachable ex_swept_eq). Qed.

Lemma ex_split_reachable : reachable ex_split.
Proof.
  apply (reach_split_merge
           {| sm_split := true; sm_split_draw := ex_split_draw;
              sm_merge_draw := ex_merge_draw |} ex_swept);
    [exact ex_swept_reachable | vm_compute; reflexivity].
Qed.

(** ** The member count table (C1) *)

(** C1: after every operation that changes the assignment vector (a
    Gibbs sweep, an accepted split, an accepted merge) carried out on a
    state of a run, the member counts add up to the number of cells,
    the cluster ids of the assignment vector are exactly the keys of
    [cells_per_cluster] with a positive count, and no key has count 0. *)
Theorem cells_per_cluster_consistent {Row} (s s' : ClusterState Row) :
  reachable s → mutates s s' →
  counts_sum (cells_per_cluster s') = Z.of_nat (cells_total s')
  ∧ (∀ c, c ∈ assignment s' ↔
          ∃ n, cells_per_cluster s' !! c = Some n ∧ (0 < n)%Z)
  ∧ (∀ c, cells_per_cluster s' !! c ≠ Some 0%Z).
Proof.
  intros HI%reachable_Inv Hm. apply Inv_consistent.
  destruct Hm as [ds s s' H|d s s' _ H|d s s' _ H].
  - by eapply update_assignments_Gibbs_Inv.
  - by eapply do_split_move_Inv.
  - eapply do_merge_move_Inv; [apply cluster_keys_NoDup | done..].
Qed.

Lemma cells_per_cluster_consistent_witness :
  counts_sum (cells_per_cluster ex_merged) = 4%Z
  ∧ (∀ c, c ∈ assignment ex_merged ↔
          ∃ n, cells_per_cluster ex_merged !! c = Some n ∧ (0 < n)%Z)
  ∧ (∀ c, cells_per_cluster ex_merged !! c ≠ Some 0%Z).
Proof.
  apply (cells_per_cluster_consistent ex_split ex_merged).
  - exact ex_split_reachable.
  - exact (mutates_merge ex_merge_draw _ _ eq_refl ex_merged_eq).
Defined.

(** ** Allocation of cluster ids (C6) *)

(** C6: the id [get_empty_cluster] and [init_new_cluster] choose is
    the smallest non-negative integer that the assignment vector does
    not hold; in every state of a run the active cluster ids lie in
    [0, N) and are pairwise distinct, and the id allocated (in a split,
    or in a Gibbs sweep while a cell is out of its cluster) is not the
    id of an active cluster. *)
Theorem new_cluster_id_smallest_free {Row} (s : ClusterState Row) :
  reachable s →
  (∀ c, get_empty_cluster s = Ok c → smallest_free_id (assignment s) c)
  ∧ (∀ i s1 theta c s2,
       remove_cell i s = Ok s1 → init_new_cluster theta s1 = Ok (c, s2) →
       smallest_free_id (assignment s1) c
       ∧ c ∉ cluster_keys (cells_per_cluster s1))
  ∧ (∀ c, c ∈ cluster_keys (cells_per_cluster s) →
          (0 ≤ c < Z.of_nat (cells_total s))%Z)
  ∧ NoDup (cluster_keys (cells_per_cluster s))
  ∧ (∀ c, get_empty_cluster s = Ok c → c ∉ cluster_keys (cells_per_cluster s)).
Proof.
  intros HI%reachable_Inv.
  assert (∀ (t : ClusterState Row) c,
    get_empty_cluster t = Ok c → smallest_free_id (assignment t) c) as Hfree.
  { intros t c (Hc & Hnot & Hmin)%get_empty_cluster_Ok.
    split; [lia|]. split; [done|]. done. }
  split; [apply Hfree|]. split; [|split; [|split]].
  - intros i s1 theta c s2 Hrm Hnew. unfold init_new_cluster in Hnew.
    inv_bind Hnew. inv_bind Hnew. injection Hnew as -> _.
    split; [by apply Hfree|].
    destruct (remove_cell_Mid _ _ _ HI Hrm) as [(_ & _ & _ & _ & Ht) _].
    apply get_empty_cluster_Ok in E as (_ & Hnot & _).
    intros [n Hn]%elem_of_cluster_keys.
    by destruct (tallied_key _ _ _ _ Ht Hn) as (_ & _ & Hin).
  - intros c [n Hn]%elem_of_cluster_keys. by eapply Inv_key_range.
  - apply cluster_keys_NoDup.
  - intros c (_ & Hnot & _)%get_empty_cluster_Ok [n Hn]%elem_of_cluster_keys.
    destruct HI as (_ & _ & _ & Ht).
    by destruct (tallied_key _ _ _ _ Ht Hn) as (_ & _ & Hin).
Qed.

Lemma new_cluster_id_smallest_free_witness :
  get_empty_cluster ex_merged = Ok 2%Z
  ∧ smallest_free_id (assignment ex_merged) 2
  ∧ (2%Z ∉ cluster_keys (cells_per_cluster ex_merged))
  ∧ ∀ c, c ∈ cluster_keys (cells_per_cluster ex_merged) → (0 ≤ c < 4)%Z.
Proof.
  assert (reachable ex_merged) as Hr.
  { apply (reach_split_merge
             {| sm_split := false; sm_split_draw := ex_split_draw;
                sm_merge_draw := ex_merge_draw |} ex_split);
      [exact ex_split_reachable | vm_compute; reflexivity]. }
  destruct (new_cluster_id_smallest_free ex_merged Hr) as (H1 & _ & H3 & _ & H5).
  split; [vm_compute; reflexivity|]. split; [by apply H1|].
  split; [by apply H5 | exact H3].
Defined.

(** ** Real-number helpers *)

Section NumericProofs.
Local Open Scope R_scope.

Lemma mapM_Ok_fmap {A B} (f : A → result B) (g : A → B) (l : list A) :
  (∀ x, x ∈ l → f x = Ok (g x)) → mapM (M := result) f l = Ok (g <$> l).
Proof.
  induction l as [|x l IH]; intros H; simpl; [done|].
  rewrite (H x) by left. simpl. rewrite IH; [done|].
  intros y Hy. apply H. by right.
Qed.

Lemma EPSILON_pos : 0 < EPSILON.
Proof. unfold EPSILON. apply Rinv_0_lt_compat, pow_lt. lra. Qed.

Lemma TINY_pos : 0 < TINY.
Proof. unfold TINY. apply Rinv_0_lt_compat, pow_lt. lra. Qed.

Lemma TINY_lt_1 : TINY < 1.
Proof.
  unfold TINY. rewrite <- Rinv_1. apply Rinv_lt_contravar.
  - rewrite Rmult_1_l. apply pow_lt. lra.
  - apply (Rlt_pow_R1 2 1022); [lra | lia].
Qed.

Lemma one_lt_HUGE : 1 < HUGE.
Proof. unfold HUGE. apply (Rlt_pow_R1 2 1024); [lra | lia]. Qed.

Lemma np_log_pos x : 0 < x → np_log x = Ok (ln x).
Proof. intros H. unfold np_log. by destruct (Rlt_dec 0 x). Qed.

Lemma np_log_nonpos x : x <= 0 → np_log x = Raise FloatingPointError.
Proof. intros H. unfold np_log. destruct (Rlt_dec 0 x); [lra | done]. Qed.


Lemma py_max_ge x y : y <= py_max x y.
Proof. unfold py_max. destruct (Rlt_dec x y); lra. Qed.

Lemma INR_pos_of_seq k n x : x ∈ INR <$> seq (S k) n → 0 < x.
Proof.
  intros (i & -> & Hi%elem_of_seq)%list_elem_of_fmap.
  apply lt_0_INR. lia.
Qed.

(** ** The CRP prior in exact arithmetic *)

Lemma log_CRP_prior_Ok n_i n a :
  0 < n_i → 0 < n - 1 + a → log_CRP_prior n_i n a = Ok (ln n_i - ln (n - 1 + a)).
Proof.
  intros H1 H2. unfold log_CRP_prior. by rewrite !np_log_pos.
Qed.

Lemma init_DP_prior_Ok N alpha :
  0 < alpha → 0 < INR N - 1 + alpha →
  init_DP_prior N alpha =
  Ok (0 :: ((λ n_i, ln n_i - ln (INR N - 1 + alpha)) <$> (INR <$> seq 1 N) ++ [alpha])).
Proof.
  intros Ha HN. unfold init_DP_prior.
  rewrite (mapM_Ok_fmap _ (λ n_i, ln n_i - ln (INR N - 1 + alpha))); [done|].
  intros x [Hx| ->%list_elem_of_singleton]%elem_of_app.
  - apply log_CRP_prior_Ok; [by eapply INR_pos_of_seq | done].
  - by apply log_CRP_prior_Ok.
Qed.

Lemma init_DP_prior_lookup N alpha table k :
  0 < alpha → 0 < INR N - 1 + alpha →
  init_DP_prior N alpha = Ok table → (1 ≤ k ≤ N)%nat →
  table !! k = Some (ln (INR k) - ln (INR N - 1 + alpha)).
Proof.
  intros Ha HN Ht Hk. rewrite init_DP_prior_Ok in Ht by done. injection Ht as <-.
  destruct k as [|k]; [lia|]. simpl.
  rewrite fmap_app, lookup_app_l by (rewrite !length_fmap, length_seq; lia).
  rewrite !list_lookup_fmap, lookup_seq_lt by lia. done.
Qed.

(** The prior in exact arithmetic: the value is
    [log n_i - log (n - 1 + alpha)], the last entry of the table has
    [alpha] in place of [n_i], and for fixed [n] and [alpha] the value
    is strictly increasing in the cluster size.  What the code stores
    is computed in binary32, for which see [log_CRP_prior_f32]. *)
Lemma log_CRP_prior_exact_increasing (N : nat) (alpha : R) :
  (1 ≤ N)%nat → 0 < alpha →
  (∀ n_i, 0 < n_i →
     log_CRP_prior n_i (INR N) alpha = Ok (ln n_i - ln (INR N - 1 + alpha)))
  ∧ (∃ table, init_DP_prior N alpha = Ok table
       ∧ length table = S (S N)
       ∧ (∀ k, (1 ≤ k ≤ N)%nat →
            log_CRP_prior (INR k) (INR N) alpha = Ok (ln (INR k) - ln (INR N - 1 + alpha))
            ∧ table !! k = Some (ln (INR k) - ln (INR N - 1 + alpha)))
       ∧ last table = Some (ln alpha - ln (INR N - 1 + alpha))
       ∧ log_CRP_prior alpha (INR N) alpha = Ok (ln alpha - ln (INR N - 1 + alpha))
       ∧ (∀ i j x y, (1 ≤ i)%nat → (i < j)%nat → (j ≤ N)%nat →
            table !! i = Some x → table !! j = Some y → x < y))
  ∧ (∀ n_i n_j x y, 0 < n_i → n_i < n_j →
       log_CRP_prior n_i (INR N) alpha = Ok x →
       log_CRP_prior n_j (INR N) alpha = Ok y → x < y).
Proof.
  intros HN Ha.
  assert (0 < INR N - 1 + alpha) as Hpos.
  { assert (1 <= INR N) by (apply (le_INR 1); lia). lra. }
  split; [|split].
  - intros n_i Hn. by apply log_CRP_prior_Ok.
  - eexists. split; [by apply init_DP_prior_Ok|]. split; [|split; [|split; [|split]]].
    + simpl. rewrite length_fmap, length_app, length_fmap, length_seq. simpl. lia.
    + intros k Hk. split.
      * apply log_CRP_prior_Ok; [apply lt_0_INR; lia | done].
      * eapply init_DP_prior_lookup; [done..| |done]. by apply init_DP_prior_Ok.
    + rewrite fmap_app. cbn [fmap list_fmap]. rewrite last_cons, last_snoc. done.
    + by apply log_CRP_prior_Ok.
    + intros i j x y Hi Hij Hj Hx Hy.
      rewrite (init_DP_prior_lookup N alpha _ i Ha Hpos (init_DP_prior_Ok _ _ Ha Hpos))
        in Hx by lia.
      rewrite (init_DP_prior_lookup N alpha _ j Ha Hpos (init_DP_prior_Ok _ _ Ha Hpos))
        in Hy by lia.
      injection Hx as <-. injection Hy as <-.
      assert (ln (INR i) < ln (INR j)); [|lra].
      apply ln_increasing; [apply lt_0_INR; lia | apply lt_INR; lia].
  - intros n_i n_j x y Hi Hij Hx Hy.
    rewrite log_CRP_prior_Ok in Hx, Hy by lra.
    injection Hx as <-. injection Hy as <-.
    assert (ln n_i < ln n_j) by (by apply ln_increasing). lra.
Qed.

(** ** The concentration update (C5) *)

(** Whatever is drawn and whatever [n] is passed, an update that
    returns has stored a concentration of at least [1 + EPSILON] and
    the table rebuilt from it. *)
Lemma update_DP_alpha_Ok n0 k cells d s s' :
  update_DP_alpha n0 k cells d s = Ok s' →
  1 + EPSILON <= DP_alpha s' ∧ init_DP_prior cells (DP_alpha s') = Ok (CRP_prior s').
Proof.
  unfold update_DP_alpha. intros H.
  inv_bind H. inv_bind H. inv_bind H. inv_bind H. inv_bind H. injection H as <-.
  simpl. split; [apply py_max_ge | done].
Qed.




(** ** The likelihood kernel (C3) *)

Lemma mixture_pos theta p q :
  0 <= theta <= 1 → 0 < p → 0 < q → 0 < theta * p + (1 - theta) * q.
Proof.
  intros Ht Hp Hq.
  assert (0 <= theta * p) by (apply Rmult_le_pos; lra).
  assert (0 <= (1 - theta) * q) by (apply Rmult_le_pos; lra).
  destruct (Rle_lt_dec theta (1 / 2)).
  - assert (0 < (1 - theta) * q) by (apply Rmult_lt_0_compat; lra). lra.
  - assert (0 < theta * p) by (apply Rmult_lt_0_compat; lra). lra.
Qed.

(** With error rates strictly between 0 and 1 the Bernoulli mixture
    of a parameter in [0, 1] is positive: the logarithm is defined. *)
Lemma ll_entry_Ok m theta x :
  0 < alpha_error m < 1 → 0 < beta_error m < 1 → 0 <= theta <= 1 →
  ∃ o, ll_entry m theta x = Ok o.
Proof.
  intros Ha Hb Ht. unfold ll_entry, _Bernoulli_FN, _Bernoulli_FP.
  destruct x; simpl; [| |eauto].
  - rewrite np_log_pos; [simpl; eauto | apply mixture_pos; lra].
  - rewrite np_log_pos; [simpl; eauto | apply mixture_pos; lra].
Qed.

(** [log_beta_pdf_short] catches the error of its logarithms: it
    returns a value whatever its argument is. *)
Lemma log_beta_pdf_short_guarded x a b : ∃ v, log_beta_pdf_short x a b = Ok v.
Proof.
  unfold log_beta_pdf_short. pose proof EPSILON_pos as Heps.
  unfold np_log at 1 2.
  destruct (Rlt_dec 0 x); simpl; [destruct (Rlt_dec 0 (1 - x)); simpl|].
  - eauto.
  - destruct (Req_dec_T x 0); rewrite np_log_pos by done; simpl; eauto.
  - destruct (Req_dec_T x 0); rewrite np_log_pos by done; simpl; eauto.
Qed.

(** C3: [_calc_ll] takes the logarithm of the Bernoulli mixture as it
    is.  For a false-positive rate of 0, a parameter of exactly 0 and
    an observed 1 the mixture is 0 and the evaluation raises
    [FloatingPointError]. *)
Theorem calc_ll_unguarded :
  _calc_ll_flat {| alpha_error := 0; beta_error := EPSILON; _beta_mix_const2 := ln (/ 2) |}
    [obs1] [0] 0
  = Raise FloatingPointError
  ∧ _calc_ll {| alpha_error := 0; beta_error := EPSILON; _beta_mix_const2 := ln (/ 2) |}
      [[obs1]] [0] [0]
    = Raise FloatingPointError.
Proof.
  assert (_calc_ll_flat
            {| alpha_error := 0; beta_error := EPSILON; _beta_mix_const2 := ln (/ 2) |}
            [obs1] [0] 0 = Raise FloatingPointError) as H.
  { unfold _calc_ll_flat, ll_entry, _Bernoulli_FN, _Bernoulli_FP. simpl.
    rewrite np_log_nonpos; [done | lra]. }
  split; [exact H|]. unfold _calc_ll. simpl. by rewrite H.
Qed.

(** ** Normalisation of a pair of log probabilities (C4) *)

Lemma exp_INR n : exp (INR n) = exp 1 ^ n.
Proof.
  induction n as [|n IH]; [simpl; by rewrite exp_0|].
  rewrite S_INR, exp_plus, IH. simpl. lra.
Qed.

Lemma exp_minus_2000_tiny : exp (- 2000) < TINY.
Proof.
  replace (- 2000) with (- INR 2000).
  2:{ rewrite INR_IZR_INZ.
      replace (Z.of_nat 2000) with 2000%Z by (vm_compute; reflexivity). lra. }
  unfold TINY. rewrite exp_Ropp. apply Rinv_lt_contravar.
  - apply Rmult_lt_0_compat; [apply pow_lt; lra | apply exp_pos].
  - rewrite exp_INR. apply Rlt_le_trans with (2 ^ 2000).
    + apply Rlt_pow; [lra | lia].
    + apply pow_incr. pose proof (exp_ineq1_le 1). lra.
Qed.

Lemma np_exp_underflow x : exp x < TINY → np_exp x = Raise FloatingPointError.
Proof. intros H. unfold np_exp. by destruct (Rlt_dec (exp x) TINY). Qed.

Lemma np_exp_0 : np_exp 0 = Ok 1.
Proof.
  unfold np_exp. rewrite exp_0. pose proof TINY_lt_1. pose proof one_lt_HUGE.
  destruct (Rlt_dec 1 TINY); [lra|]. destruct (Rle_dec HUGE 1); [lra | done].
Qed.

Lemma exp_log_EPSILON : exp log_EPSILON = EPSILON.
Proof. apply exp_ln, EPSILON_pos. Qed.

Lemma underflows_lt p0 p1 : underflows p0 p1 → p0 ≠ p1.
Proof.
  unfold underflows. intros H ->. rewrite Rmin_left, Rmax_left in H by lra.
  rewrite Rminus_diag, exp_0 in H. pose proof TINY_lt_1. lra.
Qed.

(** What [_normalize_log] returns on a pair whose normalisation underflows. *)
Lemma _normalize_log_underflow p0 p1 :
  underflows p0 p1 →
  _normalize_log [p0; p1] =
  Ok (if Rgt_dec p0 p1 then [0; log_EPSILON] else [log_EPSILON; 0]).
Proof.
  intros Hu. pose proof (underflows_lt _ _ Hu) as Hne. unfold underflows in Hu.
  unfold _normalize_log, nanargmax. simpl.
  destruct (Rlt_dec p0 p1) as [Hlt|Hge]; simpl.
  - rewrite Rmin_left, Rmax_right in Hu by lra.
    unfold log_probs_norm. simpl. rewrite np_exp_underflow by done. simpl.
    by destruct (Rgt_dec p0 p1).
  - rewrite Rmin_right, Rmax_left in Hu by lra.
    unfold log_probs_norm. simpl. rewrite np_exp_underflow by done. simpl.
    by destruct (Rgt_dec p0 p1).
Qed.

(** C4 (as the code has it): on a pair of log probabilities whose
    stable normalisation underflows, [_normalize_log] does not raise;
    it returns log probability 0, that is mass 1, for the strictly
    larger entry and [log_EPSILON], that is mass [EPSILON], for the other. *)
Theorem normalize_log_two_way (p0 p1 : R) :
  underflows p0 p1 →
  ∃ r0 r1, _normalize_log [p0; p1] = Ok [r0; r1]
    ∧ ((p0 > p1 ∧ exp r0 = 1 ∧ exp r1 = EPSILON)
       ∨ (p1 > p0 ∧ exp r1 = 1 ∧ exp r0 = EPSILON)).
Proof.
  intros Hu. pose proof (underflows_lt _ _ Hu) as Hne.
  rewrite (_normalize_log_underflow _ _ Hu).
  destruct (Rgt_dec p0 p1) as [Hgt|Hle].
  - exists 0, log_EPSILON. split; [done|]. left.
    rewrite exp_0, exp_log_EPSILON. done.
  - exists log_EPSILON, 0. split; [done|]. right.
    rewrite exp_0, exp_log_EPSILON. split; [lra | done].
Qed.

Lemma underflows_0_minus_2000 : underflows 0 (- 2000).
Proof.
  unfold underflows. rewrite Rmin_right, Rmax_left by lra.
  replace (- 2000 - 0) with (- 2000) by lra. apply exp_minus_2000_tiny.
Qed.

Lemma normalize_log_two_way_witness :
  ∃ r0 r1, _normalize_log [0; - 2000] = Ok [r0; r1]
    ∧ ((0 > - 2000 ∧ exp r0 = 1 ∧ exp r1 = EPSILON)
       ∨ (- 2000 > 0 ∧ exp r1 = 1 ∧ exp r0 = EPSILON)).
Proof. exact (normalize_log_two_way 0 (- 2000) underflows_0_minus_2000). Defined.

(** The mass of the larger entry is 1, not [1 - EPSILON]. *)
Lemma normalize_log_mass_counterexample :
  underflows 0 (- 2000)
  ∧ _normalize_log [0; - 2000] = Ok [0; log_EPSILON]
  ∧ ¬ (∃ r0 r1, _normalize_log [0; - 2000] = Ok [r0; r1] ∧ exp r0 = 1 - EPSILON).
Proof.
  pose proof underflows_0_minus_2000 as Hu.
  pose proof (_normalize_log_underflow _ _ Hu) as Hr.
  destruct (Rgt_dec 0 (- 2000)) as [_|Hn]; [|lra].
  split; [done|]. split; [done|].
  intros (r0 & r1 & H & Hmass). rewrite Hr in H. injection H as <- <-.
  rewrite exp_0 in Hmass. pose proof EPSILON_pos. lra.
Qed.
End NumericProofs.

(** ** The proposal step sizes (C8) *)

Section StepSizeProofs.
Local Open Scope float_scope.

(** Inside the target band the step sizes stay as they are. *)
Lemma update_MH_std_in_band mult s ratio :
  np_fdiv ((params_MH_counter s).1 + 1)
          (((params_MH_counter s).1 + (params_MH_counter s).2) + 1) = Ok ratio →
  (ratio <? 0.45) = false → (0.55 <? ratio) = false →
  update_MH_std mult s =
  Ok {| param_proposal_sd := param_proposal_sd s; params_MH_counter := (0, 0) |}.
Proof.
  intros Hr Hlo Hhi. unfold update_MH_std.
  destruct (params_MH_counter s) as [acc dec]. simpl in *.
  rewrite Hr. simpl. by rewrite Hlo, Hhi.
Qed.

(** Above the band the step sizes are multiplied and clamped, and
    that is all: whatever the clamped values are, they are what is stored. *)
Lemma update_MH_std_grow mult s ratio :
  np_fdiv ((params_MH_counter s).1 + 1)
          (((params_MH_counter s).1 + (params_MH_counter s).2) + 1) = Ok ratio →
  (ratio <? 0.45) = false → (0.55 <? ratio) = true →
  update_MH_std mult s =
  Ok {| param_proposal_sd := (λ x, clip (x * mult) 0 1) <$> param_proposal_sd s;
        params_MH_counter := (0, 0) |}.
Proof.
  intros Hr Hlo Hhi. unfold update_MH_std.
  destruct (params_MH_counter s) as [acc dec]. simpl in *.
  rewrite Hr. simpl. rewrite Hlo, Hhi. by destruct (forallb _ _).
Qed.

(** C8: the step sizes that have all been clamped to 1 are not
    re-seeded.  Six calls without a recorded MH move take the initial
    step sizes (0.1, 0.25, 0.5) to (1, 1, 1); the next call, and a call
    with 60 accepted moves out of 100, leave them at (1, 1, 1) and not
    at (0.8, 0.9, 1.0). *)
Theorem update_MH_std_no_reseed :
  update_MH_std_times 6 MH_init
  = Ok {| param_proposal_sd := [1; 1; 1]; params_MH_counter := (0, 0) |}
  ∧ update_MH_std 1.5 {| param_proposal_sd := [1; 1; 1]; params_MH_counter := (0, 0) |}
    = Ok {| param_proposal_sd := [1; 1; 1]; params_MH_counter := (0, 0) |}
  ∧ update_MH_std 1.5 {| param_proposal_sd := [1; 1; 1]; params_MH_counter := (60, 40) |}
    = Ok {| param_proposal_sd := [1; 1; 1]; params_MH_counter := (0, 0) |}.
Proof. repeat split; vm_compute; reflexivity. Qed.

(** ** The burn-in index *)

Lemma burn_in_100_half : int_times_float 101 0.5 ≫= py_int = Ok 50%Z.
Proof. vm_compute. reflexivity. Qed.
End StepSizeProofs.

(** ** The trace *)

Lemma setitemZ_inv {A} (l l' : list A) i x :
  setitemZ l i x = Ok l' → (0 ≤ i)%Z →
  (Z.to_nat i < length l)%nat ∧ l' = <[Z.to_nat i := x]> l.
Proof.
  unfold setitemZ, norm_index. intros H Hi.
  repeat case_decide; simpl in H; try done; try lia.
  injection H as <-. split; [lia | done].
Qed.

Lemma setitemZ_Raise {A} (l : list A) i x e :
  setitemZ l i x = Raise e → e = IndexError.
Proof.
  unfold setitemZ, norm_index. repeat case_decide; simpl; congruence.
Qed.

Lemma setitemZ_in_range {A} (l : list A) i x :
  (0 ≤ i < Z.of_nat (length l))%Z → setitemZ l i x = Ok (<[Z.to_nat i := x]> l).
Proof.
  intros H. unfold setitemZ, norm_index. by rewrite decide_True.
Qed.

Lemma setitemZ_preserves {A} (l l' : list A) i x k y :
  setitemZ l i x = Ok l' → (0 ≤ i)%Z → k ≠ Z.to_nat i →
  l !! k = Some y → l' !! k = Some y.
Proof.
  intros H Hi Hk Hy. apply setitemZ_inv in H as [_ ->]; [|done].
  by rewrite list_lookup_insert_ne.
Qed.

Section TraceProofs.
Variables (get_ll_full get_lprior : Engine → result R).
Variable alloc_fails : nat → bool.

Local Abbreviation update_MCMC_results' := (update_MCMC_results get_ll_full get_lprior alloc_fails).
Local Abbreviation _extend_results_array' := (_extend_results_array alloc_fails).
Local Abbreviation init_MCMC_results' := (init_MCMC_results get_ll_full get_lprior alloc_fails).
Local Abbreviation _run_MCMC_steps' := (_run_MCMC_steps get_ll_full get_lprior alloc_fails).
Local Abbreviation MCMC_steps_loop' := (MCMC_steps_loop get_ll_full get_lprior alloc_fails).
Local Abbreviation MCMC_steps_body' := (MCMC_steps_body get_ll_full get_lprior alloc_fails).

Lemma _extend_results_array_extends muts cells results results' :
  _extend_results_array' muts cells results = Ok results' →
  extends_trace results results' (λ _, True).
Proof.
  unfold _extend_results_array. destruct (alloc_fails _); [done|].
  intros [= <-]. unfold extends_trace; simpl.
  repeat split; intros; try (by apply lookup_app_l_Some).
  eexists. split; [by apply lookup_app_l_Some | done].
Qed.

Lemma write_params_preserves results step cl e par i row c v :
  write_params results step cl e = Ok par → (0 ≤ step)%Z → i ≠ Z.to_nat step →
  params results !! i = Some row → row !! c = Some v →
  ∃ row', par !! i = Some row' ∧ row' !! c = Some v.
Proof.
  unfold write_params. intros H Hs Hi Hrow Hv.
  inv_bind H. inv_bind H. inv_bind H.
  exists row. split; [|done]. by eapply setitemZ_preserves.
Qed.

(** Recording a step leaves the entries of all other steps in place,
    whether the trace had room for the step or had to grow. *)
Lemma update_MCMC_results_extends results step e results' :
  update_MCMC_results' results step e = Ok results' →
  alloc_fails (length (ML results)) = false →
  (0 ≤ step)%Z →
  extends_trace results results' (λ i, i ≠ Z.to_nat step).
Proof.
  intros H Halloc Hstep. unfold update_MCMC_results in H.
  inv_bind H. rename x into ll. inv_bind H. rename x into lprior.
  inv_bind H. destruct x as [[results1 step1] ml].
  assert (step1 = step ∧ extends_trace results results1 (λ _, True)
          ∧ ∀ i x, i ≠ Z.to_nat step → ML results !! i = Some x → ml !! i = Some x)
    as (-> & Hext & Hml).
  { destruct (setitemZ (ML results) step ll) as [ml0|err] eqn:Hset.
    - simpl in E1. injection E1 as <- <- <-. split; [done|]. split.
      + unfold extends_trace. repeat split; eauto.
      + intros i x Hi Hx. by eapply setitemZ_preserves.
    - apply setitemZ_Raise in Hset as ->.
      inv_bind E1. destruct x as [results2 step2].
      destruct (_extend_results_array' _ _ results) as [r|err] eqn:Hgrow.
      2:{ unfold _extend_results_array in Hgrow.
          rewrite Halloc in Hgrow. done. }
      simpl in E2. injection E2 as <- <-. inv_bind E1.
      injection E1 as <- <- <-.
      pose proof (_extend_results_array_extends _ _ _ _ Hgrow) as Hext.
      split; [done|]. split; [done|].
      intros i y Hi Hy. eapply setitemZ_preserves; [done..|].
      by apply Hext. }
  inv_bind H. rename x into map. inv_bind H. rename x into asg.
  inv_bind H. rename x into dpa. inv_bind H. destruct x as [par width].
  injection H as <-. destruct Hext as (_ & HMAP & HDP & HA & HP).
  unfold extends_trace; simpl.
  split; [done|].
  split; [intros i x Hi Hx; eapply setitemZ_preserves; eauto|].
  split; [intros i x Hi Hx; eapply setitemZ_preserves; eauto|].
  split; [intros i x Hi Hx; eapply setitemZ_preserves; eauto|].
  intros i row c v Hi Hrow Hv.
  destruct (HP i row c v I Hrow Hv) as (row1 & Hrow1 & Hv1).
  destruct (write_params results1 step _ e) as [par0|err] eqn:Hw.
  - simpl in E5. injection E5 as <- <-. by eapply write_params_preserves.
  - destruct err; try done. inv_bind E5. case_decide; [done|].
    inv_bind E5. injection E5 as <- <-.
    eapply write_params_preserves; [done..| |].
    + simpl. unfold pad_params. rewrite list_lookup_fmap, Hrow1. done.
    + by apply lookup_app_l_Some.
Qed.

(** ** The run with a fixed number of steps *)

Lemma write_params_length results step cl e par :
  write_params results step cl e = Ok par → length par = length (params results).
Proof.
  unfold write_params. intros H. inv_bind H. inv_bind H. inv_bind H.
  by apply setitemZ_Ok in H as [-> _].
Qed.

(** A step that fits in the trace is recorded without growing it. *)
Lemma update_MCMC_results_len results step e results' n :
  update_MCMC_results' results step e = Ok results' →
  (0 ≤ step < Z.of_nat n)%Z → trace_len results n → trace_len results' n.
Proof.
  intros H Hstep (HML & HMAP & HDP & HA & HP). unfold update_MCMC_results in H.
  inv_bind H. inv_bind H. inv_bind H. destruct x1 as [[results1 step1] ml].
  rewrite setitemZ_in_range in E1 by lia. simpl in E1. injection E1 as <- <- <-.
  inv_bind H. inv_bind H. inv_bind H. inv_bind H. destruct x4 as [par width].
  injection H as <-.
  apply setitemZ_Ok in E1 as [L1 _]. apply setitemZ_Ok in E2 as [L2 _].
  apply setitemZ_Ok in E3 as [L3 _].
  unfold trace_len; simpl. rewrite length_insert, L1, L2, L3.
  split; [done|]. split; [done|]. split; [done|]. split; [done|].
  destruct (write_params results step _ e) as [par0|err] eqn:Hw.
  - simpl in E4. injection E4 as <- <-. by apply write_params_length in Hw as ->.
  - destruct err; try done. inv_bind E4. case_decide; [done|].
    inv_bind E4. injection E4 as <- <-. apply write_params_length in E2 as ->.
    simpl. unfold pad_params. by rewrite length_fmap.
Qed.

Lemma init_MCMC_results_len steps e results :
  init_MCMC_results' steps e = Ok results → (1 ≤ steps)%Z →
  trace_len results (Z.to_nat steps).
Proof.
  unfold init_MCMC_results. case_decide as Hneg; [done|]. intros H Hs.
  eapply update_MCMC_results_len; [done | lia |].
  unfold trace_len, zeros; simpl. by rewrite !length_replicate.
Qed.

Lemma MCMC_steps_loop_len steps sm dpa silent draws todo st st' n :
  MCMC_steps_loop' steps sm dpa silent draws todo st = Ok st' →
  Forall (λ step, 0 ≤ step < Z.of_nat n)%Z todo →
  trace_len st.2 n → trace_len st'.2 n.
Proof.
  revert st. induction todo as [|step todo IH]; intros st H Htodo Hlen; simpl in H.
  - by injection H as <-.
  - apply Forall_cons in Htodo as [Hstep Htodo]. inv_bind H.
    apply (IH x); [done..|]. clear IH H.
    unfold MCMC_steps_body in E. destruct st as [e results].
    inv_bind E. inv_bind E. inv_bind E. inv_bind E. injection E as <-.
    simpl. by eapply update_MCMC_results_len.
Qed.

Lemma py_range_bounds a b : Forall (λ i, a ≤ i < b)%Z (py_range a b).
Proof.
  unfold py_range. apply Forall_forall.
  intros i (k & -> & Hk%elem_of_seq)%list_elem_of_fmap. lia.
Qed.

(** A run that returns hands back a trace of [steps + 1] rows and the
    burn-in index [int((steps + 1) * burn_in)]. *)
Lemma _run_MCMC_steps_trace steps f sm dpa silent draws e e' tr :
  _run_MCMC_steps' steps f sm dpa silent draws e = Ok (e', tr) → (0 ≤ steps)%Z →
  trace_len tr (Z.to_nat (steps + 1))
  ∧ ∃ b, burn_in tr = Some b ∧ int_times_float (steps + 1) f ≫= py_int = Ok b.
Proof.
  intros H Hs. unfold _run_MCMC_steps in H. inv_bind H. rename x into tr0.
  inv_bind H. destruct x as [e1 tr1]. inv_bind H. inv_bind H.
  injection H as <- <-. apply init_MCMC_results_len in E; [|lia].
  apply MCMC_steps_loop_len with (n := Z.to_nat (steps + 1)) in E0; [| |done].
  2:{ eapply Forall_impl; [apply py_range_bounds|]. simpl. intros; lia. }
  split; [exact E0|]. exists x0. split; [done|]. rewrite E1. simpl. done.
Qed.

(** Recording the step just past the end of the trace grows it by
    [min(200, size)] rows. *)
Lemma update_MCMC_results_grows results e results' :
  update_MCMC_results' results (Z.of_nat (length (ML results))) e = Ok results' →
  alloc_fails (length (ML results)) = false →
  length (ML results') = (length (ML results) + Nat.min 200 (length (ML results)))%nat.
Proof.
  intros H Halloc. unfold update_MCMC_results in H.
  inv_bind H. rename x into ll. inv_bind H. inv_bind H.
  destruct x0 as [[results1 step1] ml].
  inv_bind H. inv_bind H. inv_bind H. inv_bind H. destruct x3 as [par width].
  injection H as <-. cbn [ML]. clear E2 E3 E4 E5.
  assert (setitemZ (ML results) (Z.of_nat (length (ML results))) ll = Raise IndexError)
    as Hset.
  { unfold setitemZ, norm_index. rewrite !decide_False by lia. done. }
  rewrite Hset in E1. unfold _extend_results_array in E1. rewrite Halloc in E1.
  cbn -[Nat.min] in E1. inv_bind E1. injection E1 as _ _ <-.
  apply setitemZ_Ok in E2 as [-> _]. unfold zeros.
  by rewrite length_app, length_replicate.
Qed.
End TraceProofs.

(** C9: when a step is recorded in a trace that is out of capacity
    and the arrays are reallocated, [_extend_results_array] and the
    padding of the cluster axis in [update_MCMC_results] keep every
    sample recorded before (log-likelihood, log-posterior, assignment,
    concentration, parameter snapshot) at its step index; the trace
    grows by [min(200, size)] rows. *)
Theorem trace_growth_keeps_samples
    (get_ll_full get_lprior : Engine → result R) (alloc_fails : nat → bool)
    (results results' : Trace) (step : Z) (e : Engine) :
  update_MCMC_results get_ll_full get_lprior alloc_fails results step e = Ok results' →
  alloc_fails (length (ML results)) = false →
  (0 ≤ step)%Z →
  extends_trace results results' (λ i, i ≠ Z.to_nat step)
  ∧ (∀ grown,
       _extend_results_array alloc_fails (muts_total e) (cells_total (clusters e)) results
       = Ok grown →
       extends_trace results grown (λ _, True)
       ∧ length (ML grown) = (length (ML results) + Nat.min 200 (length (ML results)))%nat)
  ∧ (step = Z.of_nat (length (ML results)) →
     length (ML results') = (length (ML results) + Nat.min 200 (length (ML results)))%nat).
Proof.
  intros H Halloc Hstep. split; [by eapply update_MCMC_results_extends|]. split.
  - intros grown Hg. split; [by eapply _extend_results_array_extends|].
    unfold _extend_results_array in Hg. rewrite Halloc in Hg. injection Hg as <-.
    simpl. unfold zeros. by rewrite length_app, length_replicate.
  - intros ->. by eapply update_MCMC_results_grows.
Qed.

Lemma trace_growth_keeps_samples_witness :
  extends_trace ex_trace_full ex_trace_grown (λ i, i ≠ 1%nat)
  ∧ length (ML ex_trace_grown) = 2%nat.
Proof.
  destruct (trace_growth_keeps_samples ex_ll ex_lprior ex_alloc
              ex_trace_full ex_trace_grown 1 ex_engine)
    as (Hkeep & _ & Hlen); [reflexivity | reflexivity | lia |].
  split; [exact Hkeep | exact (Hlen eq_refl)].
Defined.

(** C10 (as the code has it): a fixed-step run of 1 to 8 steps whose
    trace could be initialised raises [ZeroDivisionError] in its first
    iteration, whatever [silent] is: no step is made and no trace is
    returned. *)
Theorem run_MCMC_steps_small_raises
    (get_ll_full get_lprior : Engine → result R) (alloc_fails : nat → bool)
    (steps : Z) (f sm dpa : float) (silent : bool) (draws : Z → StepDraw)
    (e : Engine) (tr0 : Trace) :
  (1 ≤ steps ≤ 8)%Z →
  init_MCMC_results get_ll_full get_lprior alloc_fails (steps + 1) e = Ok tr0 →
  _run_MCMC_steps get_ll_full get_lprior alloc_fails steps f sm dpa silent draws e
  = Raise ZeroDivisionError.
Proof.
  intros Hs Hinit. unfold _run_MCMC_steps. rewrite Hinit. simpl.
  (* [range(1, steps + 1)] starts with 1 ... *)
  unfold py_range.
  assert (Z.to_nat (steps + 1 - 1) = S (Z.to_nat (steps - 1))) as -> by lia.
  simpl. unfold py_floordiv, py_mod. simpl.
  (* ... and [(steps + 1) // 10] is 0 *)
  rewrite Z.div_small by lia. done.
Qed.

Lemma ex_init_MCMC_results steps :
  (0 ≤ steps)%Z →
  ∃ tr0, init_MCMC_results ex_ll ex_lprior ex_alloc (steps + 1) ex_engine = Ok tr0.
Proof.
  intros Hs. unfold init_MCMC_results. rewrite decide_False by lia.
  unfold update_MCMC_results, ex_ll, ex_lprior. simpl.
  replace (Z.to_nat (steps + 1)) with (S (Z.to_nat steps)) by lia. simpl.
  eexists. reflexivity.
Qed.

Lemma run_MCMC_steps_small_raises_witness :
  _run_MCMC_steps ex_ll ex_lprior ex_alloc 3 0.5 0.1 0.1 false ex_draws ex_engine
  = Raise ZeroDivisionError
  ∧ _run_MCMC_steps ex_ll ex_lprior ex_alloc 3 0.5 0.1 0.1 true ex_draws ex_engine
    = Raise ZeroDivisionError.
Proof.
  destruct (ex_init_MCMC_results 3 ltac:(lia)) as [tr0 Hinit].
  split; apply (run_MCMC_steps_small_raises _ _ _ 3 _ _ _ _ _ _ tr0); (lia || exact Hinit).
Defined.

(** A run of 0 steps satisfies [S + 1 < 10] and raises nothing: the
    loop has no iteration, and the trace of the initial state is returned. *)
Lemma run_MCMC_steps_zero_counterexample :
  (0 + 1 < 10)%Z
  ∧ ∃ tr, _run_MCMC_steps ex_ll ex_lprior ex_alloc 0 0.5 0.1 0.1 false ex_draws ex_engine
          = Ok (ex_engine, tr)
       ∧ length (ML tr) = 1%nat.
Proof.
  split; [lia|]. eexists. split; reflexivity.
Qed.

(** C2: a fixed-step run of 5 steps with burn-in fraction 0.5 returns
    no trace: it raises [ZeroDivisionError] in its first iteration. *)
Theorem run_MCMC_steps_five_raises :
  _run_MCMC_steps ex_ll ex_lprior ex_alloc 5 0.5 0.1 0.1 true ex_draws ex_engine
  = Raise ZeroDivisionError.
Proof.
  unfold _run_MCMC_steps.
  (* the trace of 6 rows is set up and the initial state recorded *)
  destruct (ex_init_MCMC_results 5 ltac:(lia)) as [tr0 Hinit].
  change (5 + 1)%Z with 6%Z in *. rewrite Hinit.
  (* first iteration: 6 // 10 = 0, and 1 % 0 raises *)
  reflexivity.
Qed.

(** What the run returns when it does return: a run of 100 steps with
    burn-in fraction 0.5 has a trace of 101 rows and burn-in index 50. *)
Lemma run_MCMC_steps_hundred get_ll_full get_lprior alloc_fails sm dpa silent draws
    e e' tr :
  _run_MCMC_steps get_ll_full get_lprior alloc_fails 100 0.5 sm dpa silent draws e
  = Ok (e', tr) →
  trace_len tr 101 ∧ burn_in tr = Some 50%Z.
Proof.
  intros H. apply _run_MCMC_steps_trace in H as (Hlen & b & Hb & Hint); [|lia].
  split; [exact Hlen|]. rewrite Hb. f_equal.
  change (100 + 1)%Z with 101%Z in Hint. rewrite burn_in_100_half in Hint.
  by injection Hint as <-.
Qed.

(** When the allocation fails instead, the step index wraps around
    and the sample recorded first is overwritten: the hypothesis on the
    allocator cannot be dropped. *)
Lemma update_MCMC_results_MemoryError_wraps :
  update_MCMC_results ex_ll ex_lprior (λ _, true) ex_trace_full 1 ex_engine
  = Ok {| ML := [- 3]%R; MAP := [- 3 + - 1]%R; tr_DP_alpha := [2%R];
          assignments := [[0; 0; 0; 0]%Z]; params := [[[/ 2]]]%R;
          params_width := 1; burn_in := None |}.
Proof. reflexivity. Qed.

(** * Further properties of the cluster state *)

Section ClusterMoves.
Context {Row : Type}.
Implicit Types s : ClusterState Row.

Lemma size_cluster_keys (m : gmap Z Z) : length (cluster_keys m) = size m.
Proof. unfold cluster_keys. by rewrite length_fmap, length_map_to_list. Qed.

(** X1: started from a state of a run, a Gibbs sweep over a
    permutation of the cells runs to its end: no [KeyError], no
    [IndexError], and [get_empty_cluster] always finds a free id.  The
    state it returns has every cell in a cluster (no marker -1 is left). *)
Theorem Gibbs_sweep_returns s (ds : list (GibbsDraw Row)) :
  reachable s → gd_cell <$> ds ≡ₚ seq 0 (cells_total s) →
  ∃ s', update_assignments_Gibbs ds s = Ok s'
    ∧ cells_total s' = cells_total s
    ∧ length (assignment s') = cells_total s
    ∧ length (parameters s') = cells_total s
    ∧ ((-1)%Z ∉ assignment s').
Proof.
  intros HI%reachable_Inv Hperm.
  destruct (update_assignments_Gibbs_total ds s HI) as [s' Hs'].
  { apply Forall_forall. intros d Hd.
    assert (gd_cell d ∈ seq 0 (cells_total s)) as Hin.
    { rewrite <- Hperm. by apply list_elem_of_fmap_2. }
    apply elem_of_seq in Hin. lia. }
  exists s'. split; [done|].
  destruct (update_assignments_Gibbs_Inv _ _ _ HI Hs') as [HI' HN].
  pose proof (Inv_no_marker _ HI') as Hm. destruct HI' as (Hlen & Hpar & _).
  split; [done|]. split; [congruence|]. split; [congruence | done].
Qed.

(** X3: an accepted merge relabels: two distinct active clusters
    [cl_i], [cl_j] are chosen, every cell of [cl_j] is assigned to
    [cl_i] and no other cell is touched, the count of [cl_j] is added to
    that of [cl_i], the key [cl_j] is deleted, and there is one cluster less. *)
Theorem accepted_merge_relabels d s s' :
  reachable s → md_accept d = true →
  do_merge_move (cluster_keys (cells_per_cluster s)) d s = Ok s' →
  ∃ cl_i cl_j n_i n_j,
    cl_i ≠ cl_j
    ∧ cells_per_cluster s !! cl_i = Some n_i
    ∧ cells_per_cluster s !! cl_j = Some n_j
    ∧ assignment s' = (λ c, if decide (c = cl_j) then cl_i else c) <$> assignment s
    ∧ cells_per_cluster s' = delete cl_j (<[cl_i := (n_i + n_j)%Z]> (cells_per_cluster s))
    ∧ (size (cells_per_cluster s') + 1 = size (cells_per_cluster s))%nat
    ∧ merge_MH_counter s' = (((merge_MH_counter s).1 + 1)%Z, (merge_MH_counter s).2).
Proof.
  intros HI%reachable_Inv Hacc H. pose proof HI as (Hlen & Hpar & Hr & Ht).
  unfold do_merge_move in H. inv_bind H. destruct x as [cl_i cl_j].
  apply random_choice2_Ok in E as (Hki & Hkj & Hij); [|apply cluster_keys_NoDup].
  apply elem_of_cluster_keys in Hki as [n_i Hni].
  apply elem_of_cluster_keys in Hkj as [n_j Hnj].
  inv_bind H. inv_bind H. rewrite Hacc in H.
  inv_bind H. inv_bind H. rename x2 into a'. inv_bind H. inv_bind H.
  injection H as <-. simpl in *.
  destruct (tallied_key _ _ _ _ Ht Hnj) as (_ & -> & _).
  apply setitems_spec with (x := cl_j) in E2 as (Hlen' & Hlk & _ & _);
    [|apply argwhere_NoDup | by intros k ?%argwhere_spec | done].
  unfold dict_get in E3. rewrite Hni in E3. injection E3 as <-.
  unfold dict_del in E4. rewrite lookup_insert_ne, Hnj in E4 by done.
  injection E4 as <-. rewrite argwhere_length.
  exists cl_i, cl_j, n_i, (Z.of_nat (occ cl_j (assignment s))).
  split; [done|]. split; [done|]. split; [done|]. split; [|split; [done|split; [|done]]].
  - apply list_eq. intros k. rewrite Hlk, list_lookup_fmap.
    destruct (assignment s !! k) as [c|] eqn:Hk; simpl.
    + destruct (decide (c = cl_j)) as [->|Hc].
      * rewrite decide_True; [done | by apply argwhere_spec].
      * rewrite decide_False; [done|]. rewrite argwhere_spec. congruence.
    + rewrite decide_False; [done|]. rewrite argwhere_spec. congruence.
  - rewrite map_size_delete_Some by (rewrite lookup_insert_ne by done; eauto).
    rewrite map_size_insert_Some by eauto.
    assert (size (cells_per_cluster s) ≠ 0)%nat; [|lia].
    apply map_size_ne_0_lookup. eauto.
Qed.

(** X4: an accepted split takes two distinct cells [obs_i], [obs_j] of
    one cluster, leaves [obs_i] where it is and opens a cluster for
    [obs_j] under the smallest free id.  Cells only ever move from the
    split cluster into the new one, the two parts together hold the
    cells the cluster held, and there is one cluster more. *)
Theorem accepted_split_opens_cluster d s s' :
  reachable s → sd_accept d = true →
  do_split_move (cluster_keys (cells_per_cluster s)) d s = Ok s' →
  ∃ clust_i new obs_i obs_j,
    assignment s !! obs_i = Some clust_i
    ∧ assignment s !! obs_j = Some clust_i
    ∧ obs_i ≠ obs_j
    ∧ smallest_free_id (assignment s) new
    ∧ assignment s' !! obs_i = Some clust_i
    ∧ assignment s' !! obs_j = Some new
    ∧ (∀ k c, assignment s !! k = Some c →
         assignment s' !! k = Some c
         ∨ (c = clust_i ∧ assignment s' !! k = Some new))
    ∧ (occ clust_i (assignment s') + occ new (assignment s')
       = occ clust_i (assignment s))%nat
    ∧ (size (cells_per_cluster s') = size (cells_per_cluster s) + 1)%nat
    ∧ splits_MH_counter s' = (((splits_MH_counter s).1 + 1)%Z, (splits_MH_counter s).2).
Proof.
  intros HI%reachable_Inv Hacc H. pose proof HI as (Hlen & Hpar & Hr & Ht).
  unfold do_split_move in H. inv_bind H. destruct x as [clust_i idx].
  apply draw_split_cluster_Ok in E as ->.
  inv_bind H. destruct x as [obs_i obs_j].
  apply random_choice2_Ok in E as (Hi & Hj & Hij); [|apply argwhere_NoDup].
  apply argwhere_spec in Hi. apply argwhere_spec in Hj.
  rewrite Hacc in H. inv_bind H. rename x into new.
  pose proof (get_empty_cluster_Ok _ _ E) as (Hnew & Hfree & Hmin). simpl in Hnew, Hfree, Hmin.
  inv_bind H. inv_bind H. inv_bind H. rename x1 into moved.
  apply getitems_NoDup in E2 as [Hmnd Hmin'];
    [|apply NoDup_filter, argwhere_NoDup | apply argwhere_NoDup].
  inv_bind H. rename x1 into a'. inv_bind H. rename x1 into n.
  injection H as <-. simpl in *.
  assert (clust_i ∈ assignment s) as Hci by (by eapply list_elem_of_lookup_2).
  assert (clust_i ≠ new) as Hcn by (by intros ->).
  assert (clust_i ≠ (-1)%Z) as Hc1.
  { rewrite Forall_forall in Hr. apply Hr in Hci. lia. }
  assert (∀ k, k ∈ moved →
    k ≠ obs_i ∧ k ≠ obs_j ∧ assignment s !! k = Some clust_i) as Hmoved.
  { intros k Hk%Hmin'. apply list_elem_of_filter in Hk as [Hne Hk%argwhere_spec].
    split; [tauto|]. split; [tauto | done]. }
  apply setitems_spec with (x := clust_i) in E2 as (Hlen' & Hlk & Hocc & Hle);
    [| | |done].
  2:{ apply NoDup_app. split; [done|]. split; [|apply NoDup_singleton].
      intros k Hk ->%list_elem_of_singleton. apply Hmoved in Hk. tauto. }
  2:{ intros k [Hk| ->%list_elem_of_singleton]%elem_of_app; [by apply Hmoved | done]. }
  assert (obs_i ∉ moved ++ [obs_j]) as Hkeep.
  { intros [Hk| ->%list_elem_of_singleton]%elem_of_app; [|done].
    apply Hmoved in Hk. tauto. }
  exists clust_i, new, obs_i, obs_j.
  split; [done|]. split; [done|]. split; [done|].
  split; [split; [lia | split; [done | exact Hmin]]|].
  split; [by rewrite Hlk, decide_False|].
  split; [rewrite Hlk, decide_True; [done | apply elem_of_app; right; left]|].
  split; [|split; [|split; [|done]]].
  - intros k c Hk. rewrite Hlk. case_decide as Hin; [|by left]. right.
    split; [|done].
    apply elem_of_app in Hin as [Hin| ->%list_elem_of_singleton]; [|congruence].
    apply Hmoved in Hin as (_ & _ & Hin). congruence.
  - rewrite !Hocc. rewrite decide_True by done.
    rewrite (decide_False (P := new = clust_i)) by done.
    rewrite decide_True by done. apply occ_zero in Hfree. lia.
  - assert (cells_per_cluster s !! new = None) as Hnone.
    { destruct (cells_per_cluster s !! new) as [m|] eqn:Hm; [|done].
      by destruct (tallied_key _ _ _ _ Ht Hm) as (_ & _ & Hin). }
    rewrite map_size_insert_Some.
    + rewrite map_size_insert_None by done. lia.
    + rewrite lookup_insert_ne by done. rewrite (tallied_member _ _ _ Ht Hci Hc1). eauto.
Qed.

(** X5: on a state of a run with two clusters or more the merge move
    runs to its end whatever is drawn: the two clusters drawn are
    active, each has a cell to represent it, and both keys are in the table. *)
Theorem merge_move_returns d s :
  reachable s → (2 ≤ size (cells_per_cluster s))%nat →
  ∃ s', do_merge_move (cluster_keys (cells_per_cluster s)) d s = Ok s'
        ∧ cells_total s' = cells_total s.
Proof.
  intros HI%reachable_Inv Htwo.
  destruct (do_merge_move_total d s HI) as [s' Hs'].
  { by rewrite size_cluster_keys. }
  exists s'. split; [done|].
  by destruct (do_merge_move_Inv _ _ _ _ (cluster_keys_NoDup _) HI Hs').
Qed.

(** X6: the split move runs to its end as soon as one draw of the
    tape hits a cluster of two cells or more and the proposal assigns a
    side to every other member of that cluster: a free id exists for the
    new cluster. *)
Theorem split_move_returns d s :
  reachable s →
  Exists (λ u, ∃ c, random_choice (cluster_keys (cells_per_cluster s)) u = Ok c
               ∧ occ c (assignment s) ≠ 1%nat) (sd_clusters d) →
  (∀ clust_i idx,
     draw_split_cluster (cluster_keys (cells_per_cluster s)) (assignment s)
       (sd_clusters d) = Ok (clust_i, idx) →
     (length (sd_assignment d) + 2 = length idx)%nat) →
  ∃ s', do_split_move (cluster_keys (cells_per_cluster s)) d s = Ok s'
        ∧ cells_total s' = cells_total s.
Proof.
  intros HI%reachable_Inv Hex Hrg.
  destruct (do_split_move_total d s HI Hex Hrg) as [s' Hs'].
  exists s'. split; [done|]. by destruct (do_split_move_Inv _ _ _ _ HI Hs').
Qed.

(** X7: with a single cell the split-merge move never returns.  The
    one cluster has one member, so the loop "get cluster with more than
    one item" draws for ever: every tape of draws is used up. *)
Theorem single_cell_split_merge_loops d s :
  reachable s → cells_total s = 1%nat →
  update_assignments_split_merge d s = Raise NoMoreDraws.
Proof.
  intros HI%reachable_Inv HN. pose proof (Inv_no_marker _ HI) as Hm.
  destruct HI as (Hlen & Hpar & Hr & Ht).
  destruct (assignment s) as [|c [|c' a]] eqn:Ha; simpl in Hlen; try lia.
  apply Forall_cons in Hr as [Hc _].
  assert (c = 0%Z) as -> by lia.
  unfold update_assignments_split_merge.
  rewrite (tallied_tally _ _ Hm Ht). simpl. rewrite insert_empty.
  unfold cluster_keys. rewrite map_to_list_singleton. simpl.
  unfold do_split_move. rewrite Ha.
  assert (draw_split_cluster [0%Z] [0%Z] (sd_clusters (sm_split_draw d))
          = Raise NoMoreDraws) as ->; [|done].
  induction (sd_clusters (sm_split_draw d)) as [|u tape IH]; [done|].
  cbn [draw_split_cluster]. unfold random_choice. cbn [length].
  rewrite Nat.mod_1_r. simpl. exact IH.
Qed.

(** X8: in every state of a run on at least one cell the number of
    active clusters is at least 1 and at most the number of cells. *)
Theorem cluster_count_bounds s :
  reachable s → (1 ≤ cells_total s)%nat →
  (1 ≤ size (cells_per_cluster s) ≤ cells_total s)%nat.
Proof.
  intros HI%reachable_Inv HN. pose proof HI as (Hlen & Hpar & Hr & Ht). split.
  - destruct (lookup_lt_is_Some_2 (assignment s) 0) as [c Hc0]; [lia|].
    assert (c ∈ assignment s) as Hc by (by eapply list_elem_of_lookup_2).
    assert (c ≠ (-1)%Z) as Hne.
    { rewrite Forall_forall in Hr. apply Hr in Hc. lia. }
    pose proof (tallied_member _ _ _ Ht Hc Hne) as Hk.
    assert (size (cells_per_cluster s) ≠ 0)%nat; [|lia].
    apply map_size_ne_0_lookup. eauto.
  - rewrite <- size_cluster_keys.
    assert (cluster_keys (cells_per_cluster s) ⊆+ Z.of_nat <$> seq 0 (cells_total s))
      as Hsub.
    { apply NoDup_submseteq; [apply cluster_keys_NoDup|].
      intros c [n Hn]%elem_of_cluster_keys.
      pose proof (Inv_key_range _ _ _ HI Hn) as Hc.
      apply list_elem_of_fmap. exists (Z.to_nat c). split; [lia|].
      apply elem_of_seq. lia. }
    apply submseteq_length in Hsub. by rewrite length_fmap, length_seq in Hsub.
Qed.

Lemma update_parameters_fold (theta : Z → Row) (l : list Z) (p : list Row) :
  Forall (λ c, 0 ≤ c < Z.of_nat (length p))%Z l →
  ∃ p', foldr (λ cluster_id acc, p ← acc; setitemZ p cluster_id (theta cluster_id))
          (Ok p) l = Ok p'
        ∧ length p' = length p
        ∧ ∀ c, (0 ≤ c)%Z →
            p' !! Z.to_nat c = if decide (c ∈ l ∧ (c < Z.of_nat (length p))%Z)
                               then Some (theta c) else p !! Z.to_nat c.
Proof.
  induction 1 as [|c l Hc _ (p1 & Hp1 & Hlen1 & Hlk1)].
  - exists p. split; [done|]. split; [done|]. intros c Hc.
    destruct (decide (c ∈ [] ∧ (c < Z.of_nat (length p))%Z)) as [[?%elem_of_nil _]|];
      done.
  - cbn [foldr]. rewrite Hp1. simpl. rewrite setitemZ_in_range by lia.
    eexists. split; [done|]. rewrite length_insert. split; [done|].
    intros c' Hc'. destruct (decide (c' = c)) as [->|Hne].
    + rewrite list_lookup_insert_eq by lia. rewrite decide_True; [done|].
      split; [left | lia].
    + rewrite list_lookup_insert_ne by lia. rewrite Hlk1 by done.
      destruct (decide (c' ∈ l ∧ (c' < Z.of_nat (length p))%Z)) as [[Hin Hlt]|Hn].
      * rewrite decide_True; [done|]. split; [by right | done].
      * rewrite decide_False; [done|]. rewrite elem_of_cons. tauto.
Qed.

(** X9: the bookkeeping of [update_parameters].  The rows
    [MH_cluster_params] returns are inputs; an error raised inside
    [MH_cluster_params] is outside the model.  On a state of a run no
    write [self.parameters[cluster_id] = ...] is out of range: the
    loop stores the new row of every active cluster, keeps the row of
    every id that is not active, and does not touch the assignment
    vector or the member counts. *)
Theorem update_parameters_active_rows (theta : Z → Row) s :
  reachable s →
  ∃ s', update_parameters theta s = Ok s'
    ∧ assignment s' = assignment s
    ∧ cells_per_cluster s' = cells_per_cluster s
    ∧ length (parameters s') = length (parameters s)
    ∧ ∀ c, (0 ≤ c)%Z →
        parameters s' !! Z.to_nat c =
        if decide (is_Some (cells_per_cluster s !! c)) then Some (theta c)
        else parameters s !! Z.to_nat c.
Proof.
  intros HI%reachable_Inv. pose proof HI as (Hlen & Hpar & Hr & Ht).
  destruct (update_parameters_fold theta
              (reverse (cluster_keys (cells_per_cluster s))) (parameters s))
    as (p' & Hp' & Hlen' & Hlk).
  { apply Forall_forall. intros c [n Hn]%elem_of_reverse%elem_of_cluster_keys.
    rewrite Hpar. by eapply Inv_key_range. }
  unfold update_parameters. rewrite Hp'. simpl.
  eexists. split; [done|]. simpl. split; [done|]. split; [done|]. split; [done|].
  intros c Hc. rewrite Hlk by done.
  destruct (decide (is_Some (cells_per_cluster s !! c))) as [[n Hn]|Hn].
  - rewrite decide_True; [done|]. split.
    + apply elem_of_reverse, elem_of_cluster_keys. eauto.
    + rewrite Hpar. by eapply Inv_key_range.
  - rewrite decide_False; [done|]. intros [Hin%elem_of_reverse%elem_of_cluster_keys _].
    done.
Qed.
End ClusterMoves.

Lemma Gibbs_sweep_returns_witness :
  ∃ s', update_assignments_Gibbs ex_sweep ex_init = Ok s'
    ∧ cells_total s' = 4%nat
    ∧ length (assignment s') = 4%nat
    ∧ length (parameters s') = 4%nat
    ∧ ((-1)%Z ∉ assignment s').
Proof.
  apply (Gibbs_sweep_returns ex_init ex_sweep).
  - exact ex_init_reachable.
  - vm_compute. apply Permutation_sym.
    apply perm_trans with [1; 0; 2; 3]%nat; [apply perm_swap|].
    apply perm_trans with [1; 2; 0; 3]%nat; [apply perm_skip, perm_swap|].
    apply perm_trans with [2; 1; 0; 3]%nat; [apply perm_swap|].
    apply perm_trans with [2; 0; 1; 3]%nat; [apply perm_skip, perm_swap|].
    apply perm_skip, perm_skip, perm_swap.
Defined.

Lemma accepted_merge_relabels_witness :
  ∃ cl_i cl_j n_i n_j,
    cl_i ≠ cl_j
    ∧ cells_per_cluster ex_split !! cl_i = Some n_i
    ∧ cells_per_cluster ex_split !! cl_j = Some n_j
    ∧ assignment ex_merged
      = (λ c, if decide (c = cl_j) then cl_i else c) <$> assignment ex_split
    ∧ cells_per_cluster ex_merged
      = delete cl_j (<[cl_i := (n_i + n_j)%Z]> (cells_per_cluster ex_split))
    ∧ (size (cells_per_cluster ex_merged) + 1 = size (cells_per_cluster ex_split))%nat
    ∧ merge_MH_counter ex_merged
      = (((merge_MH_counter ex_split).1 + 1)%Z, (merge_MH_counter ex_split).2).
Proof.
  exact (accepted_merge_relabels ex_merge_draw ex_split ex_merged
           ex_split_reachable eq_refl ex_merged_eq).
Defined.

Lemma accepted_split_opens_cluster_witness :
  ∃ clust_i new obs_i obs_j,
    assignment ex_swept !! obs_i = Some clust_i
    ∧ assignment ex_swept !! obs_j = Some clust_i
    ∧ obs_i ≠ obs_j
    ∧ smallest_free_id (assignment ex_swept) new
    ∧ assignment ex_split !! obs_i = Some clust_i
    ∧ assignment ex_split !! obs_j = Some new
    ∧ (∀ k c, assignment ex_swept !! k = Some c →
         assignment ex_split !! k = Some c
         ∨ (c = clust_i ∧ assignment ex_split !! k = Some new))
    ∧ (occ clust_i (assignment ex_split) + occ new (assignment ex_split)
       = occ clust_i (assignment ex_swept))%nat
    ∧ (size (cells_per_cluster ex_split) = size (cells_per_cluster ex_swept) + 1)%nat
    ∧ splits_MH_counter ex_split
      = (((splits_MH_counter ex_swept).1 + 1)%Z, (splits_MH_counter ex_swept).2).
Proof.
  exact (accepted_split_opens_cluster ex_split_draw ex_swept ex_split
           ex_swept_reachable eq_refl ex_split_eq).
Defined.

Lemma merge_move_returns_witness :
  ∃ s', do_merge_move (cluster_keys (cells_per_cluster ex_split)) ex_merge_draw ex_split
        = Ok s'
        ∧ cells_total s' = 4%nat.
Proof.
  apply (merge_move_returns ex_merge_draw ex_split ex_split_reachable).
  vm_compute. lia.
Defined.

Lemma split_move_returns_witness :
  ∃ s', do_split_move (cluster_keys (cells_per_cluster ex_swept)) ex_split_draw ex_swept
        = Ok s'
        ∧ cells_total s' = 4%nat.
Proof.
  apply (split_move_returns ex_split_draw ex_swept ex_swept_reachable).
  - apply Exists_cons_tl, Exists_cons_hd. exists 1%Z.
    split; [vm_compute; reflexivity | vm_compute; lia].
  - intros clust_i idx H. vm_compute in H. injection H as <- <-. reflexivity.
Defined.

(** The state [__init__] builds for one cell. *)
Lemma ex_single_cell_reachable :
  reachable {| cells_total := 1; assignment := [0%Z];
               cells_per_cluster := ({[ 0%Z := 1%Z ]} : gmap Z Z);
               parameters := [()];
               splits_MH_counter := (0, 0)%Z; merge_MH_counter := (0, 0)%Z |}.
Proof. by apply (reach_init together 1 [()] ()). Qed.

Lemma single_cell_split_merge_loops_witness :
  update_assignments_split_merge
    {| sm_split := false; sm_split_draw := ex_split_draw; sm_merge_draw := ex_merge_draw |}
    {| cells_total := 1; assignment := [0%Z];
       cells_per_cluster := ({[ 0%Z := 1%Z ]} : gmap Z Z);
       parameters := [()];
       splits_MH_counter := (0, 0)%Z; merge_MH_counter := (0, 0)%Z |}
  = Raise NoMoreDraws.
Proof.
  apply single_cell_split_merge_loops; [exact ex_single_cell_reachable | reflexivity].
Defined.

Lemma cluster_count_bounds_witness :
  (1 ≤ size (cells_per_cluster ex_swept) ≤ 4)%nat.
Proof. apply (cluster_count_bounds ex_swept ex_swept_reachable). simpl. lia. Defined.

Lemma ex_engine2_reachable : reachable (clusters ex_engine2).
Proof.
  by apply (reach_init together 4 (replicate 4 [0%R; 0%R]) [(/ 2)%R; (/ 2)%R]).
Qed.

(** After the sweep [ex_sweep2] the clusters 0, 1 and 2 are active:
    their rows are replaced, the row of the free id 3 is kept. *)
Lemma update_parameters_active_rows_witness :
  ∃ s s',
    update_assignments_Gibbs ex_sweep2 (clusters ex_engine2) = Ok s
    ∧ update_parameters (λ c, [IZR c; / 2]%R) s = Ok s'
    ∧ assignment s' = [1; 0; 1; 2]%Z
    ∧ parameters s' !! 0%nat = Some [0; / 2]%R
    ∧ parameters s' !! 2%nat = Some [2; / 2]%R
    ∧ parameters s' !! 3%nat = Some [0; 0]%R.
Proof.
  assert (∃ s, update_assignments_Gibbs ex_sweep2 (clusters ex_engine2) = Ok s
               ∧ assignment s = [1; 0; 1; 2]%Z
               ∧ parameters s !! 3%nat = Some [0; 0]%R
               ∧ bool_decide (is_Some (cells_per_cluster s !! 0%Z)) = true
               ∧ bool_decide (is_Some (cells_per_cluster s !! 2%Z)) = true
               ∧ bool_decide (is_Some (cells_per_cluster s !! 3%Z)) = false)
    as (s & Hs & Ha & Hp & H0 & H2 & H3).
  { eexists. split; [vm_compute; reflexivity|]. vm_compute. done. }
  destruct (update_parameters_active_rows (λ c, [IZR c; / 2]%R) s
              (reach_Gibbs _ _ _ ex_engine2_reachable Hs))
    as (s' & Hs' & Ha' & _ & _ & Hlk).
  exists s, s'. split; [exact Hs|]. split; [exact Hs'|].
  split; [by rewrite Ha'|].
  pose proof (Hlk 0%Z ltac:(lia)) as L0. pose proof (Hlk 2%Z ltac:(lia)) as L2.
  pose proof (Hlk 3%Z ltac:(lia)) as L3.
  apply bool_decide_eq_true_1 in H0, H2. apply bool_decide_eq_false_1 in H3.
  rewrite decide_True in L0 by done. rewrite decide_True in L2 by done.
  rewrite decide_False in L3 by done.
  split; [exact L0|]. split; [exact L2|]. by rewrite <- Hp.
Defined.

(** * Further properties of the numerical kernels *)

Section NumericExtras.
Local Open Scope R_scope.

Lemma ln_nonpos x : 0 < x → x <= 1 → ln x <= 0.
Proof.
  intros H0 [Hlt| ->]; [|rewrite ln_1; lra].
  rewrite <- ln_1. left. by apply ln_increasing.
Qed.

Lemma ln_nonneg x : 1 <= x → 0 <= ln x.
Proof.
  intros [Hlt| <-]; [|rewrite ln_1; lra].
  rewrite <- ln_1. left. apply ln_increasing; lra.
Qed.

Lemma exp_le x y : x <= y → exp x <= exp y.
Proof. intros [Hlt| ->]; [left; by apply exp_increasing | lra]. Qed.

Lemma sum_list_app l1 l2 : sum_list (l1 ++ l2) = sum_list l1 + sum_list l2.
Proof.
  unfold sum_list. induction l1 as [|x l1 IH]; simpl; [lra | rewrite IH; lra].
Qed.

Lemma sum_list_nonneg l : Forall (λ x, 0 <= x) l → 0 <= sum_list l.
Proof. induction 1 as [|x l Hx _ IH]; simpl; lra. Qed.

Lemma sum_exp_shift l m c :
  sum_list (exp <$> ((λ p, p - m - c) <$> l))
  = sum_list ((λ p, exp (p - m)) <$> l) * exp (- c).
Proof.
  unfold sum_list. induction l as [|x l IH]; [simpl; lra|].
  rewrite !fmap_cons. cbn [foldr]. rewrite IH.
  replace (x - m - c) with ((x - m) + - c) by lra. rewrite exp_plus. lra.
Qed.

Lemma mapM_Ok_inv {A B} (f : A → result B) l r :
  mapM (M := result) f l = Ok r → Forall2 (λ x y, f x = Ok y) l r.
Proof.
  revert r. induction l as [|x l IH]; intros r H; simpl in H.
  - injection H as <-. constructor.
  - inv_bind H. inv_bind H. injection H as <-. constructor; [done | by apply IH].
Qed.

Lemma mapM_Raise {A B} (f : A → result B) l x e :
  x ∈ l → f x = Raise e → ∃ e', mapM (M := result) f l = Raise e'.
Proof.
  intros Hin Hx. induction l as [|y l IH]; [by apply elem_of_nil in Hin|].
  simpl. destruct (f y) as [b|e0] eqn:Hy; simpl; [|eauto].
  apply elem_of_cons in Hin as [->|Hin]; [congruence|].
  destruct (IH Hin) as [e' ->]. simpl. eauto.
Qed.

Lemma mapM_Raise_inv {A B} (f : A → result B) l e :
  mapM (M := result) f l = Raise e → ∃ x, x ∈ l ∧ f x = Raise e.
Proof.
  induction l as [|y l IH]; simpl; [done|].
  destruct (f y) as [b|e0] eqn:Hy; simpl.
  - destruct (mapM f l) as [r|e1] eqn:Hl; simpl; [done|].
    intros [= <-]. destruct (IH eq_refl) as (x & Hin & Hx).
    exists x. split; [by right | done].
  - intros [= <-]. exists y. split; [left | done].
Qed.

Lemma np_exp_Ok x y : np_exp x = Ok y → y = exp x.
Proof.
  unfold np_exp. destruct (Rlt_dec _ _); [done|]. destruct (Rle_dec _ _); [done|].
  by intros [= <-].
Qed.

Lemma np_exp_Raise x e : np_exp x = Raise e → e = FloatingPointError.
Proof.
  unfold np_exp. destruct (Rlt_dec _ _); [congruence|].
  destruct (Rle_dec _ _); [congruence | done].
Qed.

Lemma np_exp_nonpos x : x <= 0 → ¬ exp x < TINY → np_exp x = Ok (exp x).
Proof.
  intros Hx Hn. unfold np_exp. destruct (Rlt_dec _ _); [done|].
  destruct (Rle_dec _ _) as [Hh|]; [|done].
  pose proof (exp_le _ _ Hx) as He. rewrite exp_0 in He.
  pose proof one_lt_HUGE. lra.
Qed.

Lemma mapM_np_exp_of (g : R → R) l r :
  mapM (M := result) (λ p, np_exp (g p)) l = Ok r → r = (λ p, exp (g p)) <$> l.
Proof.
  intros H%mapM_Ok_inv. induction H as [|x y l r Hx _ IH]; [done|].
  rewrite fmap_cons. by rewrite (np_exp_Ok _ _ Hx), IH.
Qed.

Lemma mapM_np_exp l r : mapM (M := result) np_exp l = Ok r → r = exp <$> l.
Proof. apply (mapM_np_exp_of (λ p, p)). Qed.

(** [bn.nanargmax] returns the position of a largest entry. *)
Lemma argmax_from_spec pre l best_i best :
  pre !! best_i = Some best → Forall (λ y, y <= best) pre →
  ∃ m, (pre ++ l) !! argmax_from best_i best (length pre) l = Some m
       ∧ Forall (λ y, y <= m) (pre ++ l).
Proof.
  revert pre best_i best. induction l as [|x l IH]; intros pre best_i best Hb Hle; simpl.
  - exists best. rewrite app_nil_r. done.
  - replace (pre ++ x :: l) with ((pre ++ [x]) ++ l) by (by rewrite <- app_assoc).
    replace (S (length pre)) with (length (pre ++ [x]))
      by (rewrite length_app; simpl; lia).
    destruct (Rlt_dec best x) as [Hlt|Hge].
    + apply IH.
      * rewrite lookup_app_r by lia. by rewrite Nat.sub_diag.
      * apply Forall_app. split; [|apply Forall_singleton; lra].
        eapply Forall_impl; [exact Hle|]. simpl. intros; lra.
    + apply IH.
      * by apply lookup_app_l_Some.
      * apply Forall_app. split; [done|]. apply Forall_singleton. lra.
Qed.

Lemma nanargmax_spec probs i :
  nanargmax probs = Ok i →
  ∃ m, probs !! i = Some m ∧ Forall (λ y, y <= m) probs.
Proof.
  destruct probs as [|x l]; [done|]. simpl. intros [= <-].
  apply (argmax_from_spec [x] l 0%nat x); [done|]. apply Forall_singleton. lra.
Qed.

Lemma sum_list_delete (f : R → R) l i x :
  l !! i = Some x → sum_list (f <$> l) = f x + sum_list (f <$> delete i l).
Proof.
  intros Hi. rewrite <- (take_drop_middle l i x Hi) at 1.
  rewrite delete_take_drop, !fmap_app, fmap_cons, !sum_list_app.
  change (sum_list (f x :: (f <$> drop (S i) l)))
    with (f x + sum_list (f <$> drop (S i) l)). lra.
Qed.

(** The shifted log probabilities are non-positive and their
    exponentials add up to one. *)
Lemma log_probs_norm_spec probs i r :
  nanargmax probs = Ok i → log_probs_norm probs i = Ok r →
  length r = length probs
  ∧ sum_list (exp <$> r) = 1
  ∧ Forall (λ x, x <= 0) r.
Proof.
  intros (m & Hi & Hmax)%nanargmax_spec H. unfold log_probs_norm in H.
  unfold getitem in H. rewrite Hi in H. simpl in H.
  inv_bind H. rename x into others. apply (mapM_np_exp_of (λ p, p - m)) in E. inv_bind H.
  rename x into l. injection H as <-.
  set (S := sum_list others) in *.
  assert (0 <= S) as HS.
  { unfold S. apply sum_list_nonneg. rewrite E. apply Forall_fmap, Forall_forall.
    intros y _. simpl. left. apply exp_pos. }
  unfold np_log1p in E0. destruct (Rlt_dec (-1) S); [|lra]. injection E0 as <-.
  split; [by rewrite length_fmap|]. split.
  - rewrite sum_exp_shift, exp_Ropp, exp_ln by lra.
    rewrite (sum_list_delete (λ p, exp (p - m)) probs i m Hi).
    replace (m - m) with 0 by lra. rewrite exp_0.
    replace (sum_list ((λ p, exp (p - m)) <$> delete i probs)) with S.
    + field. lra.
    + unfold S. by rewrite E.
  - apply Forall_fmap. eapply Forall_impl; [exact Hmax|]. simpl. intros p Hp.
    pose proof (ln_nonneg (1 + S)). lra.
Qed.

(** X10: when [_normalize_log_probs] returns, it returns one
    probability per entry, each in (0, 1], and they add up to 1. *)
Theorem normalize_log_probs_sums_to_one (probs r : list R) :
  _normalize_log_probs probs = Ok r →
  length r = length probs
  ∧ sum_list r = 1
  ∧ Forall (λ x, 0 < x <= 1) r.
Proof.
  unfold _normalize_log_probs. intros H. inv_bind H. rename x into i.
  inv_bind H. rename x into lp. apply mapM_np_exp in H as ->.
  destruct (log_probs_norm_spec _ _ _ E E0) as (Hlen & Hsum & Hle).
  split; [by rewrite length_fmap|]. split; [done|].
  apply Forall_fmap. eapply Forall_impl; [exact Hle|]. simpl. intros x Hx.
  split; [apply exp_pos|]. rewrite <- exp_0. by apply exp_le.
Qed.

(** X11: [_normalize_log_probs] has no fallback: an entry so far
    below the maximum that its shifted exponential underflows makes it
    raise [FloatingPointError] (and with it the Gibbs sweep that called it). *)
Theorem normalize_log_probs_underflow (probs : list R) (i j : nat) (m p : R) :
  nanargmax probs = Ok i → probs !! i = Some m →
  j ≠ i → probs !! j = Some p → exp (p - m) < TINY →
  _normalize_log_probs probs = Raise FloatingPointError.
Proof.
  intros Hi Hm Hji Hp Hu. unfold _normalize_log_probs. rewrite Hi. simpl.
  unfold log_probs_norm, getitem. rewrite Hm. simpl.
  assert (p ∈ delete i probs) as Hin.
  { apply list_elem_of_lookup. destruct (decide (j < i)%nat).
    - exists j. by rewrite list_lookup_delete_lt.
    - exists (pred j). rewrite list_lookup_delete_ge by lia.
      by replace (Datatypes.S (pred j)) with j by lia. }
  destruct (mapM_Raise (λ p, np_exp (p - m)) _ p FloatingPointError Hin) as [e He].
  { by apply np_exp_underflow. }
  rewrite He. simpl.
  apply mapM_Raise_inv in He as (x & _ & Hx). by apply np_exp_Raise in Hx as ->.
Qed.

Lemma log_EPSILON_neg : log_EPSILON < 0.
Proof.
  unfold log_EPSILON, EPSILON. rewrite ln_Rinv by (apply pow_lt; lra).
  assert (0 < ln (10 ^ 15)); [|lra].
  rewrite <- ln_1. apply ln_increasing; [lra|].
  apply (Rlt_pow_R1 10 15); [lra | lia].
Qed.

(** Without underflow the stable formula normalises a pair. *)
Lemma normalize_log_pair_stable (p0 p1 : R) :
  ¬ underflows p0 p1 →
  ∃ r0 r1, _normalize_log [p0; p1] = Ok [r0; r1]
    ∧ r0 <= 0 ∧ r1 <= 0 ∧ exp r0 + exp r1 = 1.
Proof.
  unfold underflows. intros Hn.
  assert (∃ i, nanargmax [p0; p1] = Ok i
               ∧ [p0; p1] !! i = Some (Rmax p0 p1)
               ∧ delete i [p0; p1] = [Rmin p0 p1]) as (i & Hi & Hm & Hd).
  { unfold nanargmax. simpl. destruct (Rlt_dec p0 p1).
    - exists 1%nat. rewrite Rmax_right, Rmin_left by lra. done.
    - exists 0%nat. rewrite Rmax_left, Rmin_right by lra. done. }
  assert (∃ r, log_probs_norm [p0; p1] i = Ok r) as [r Hr].
  { unfold log_probs_norm, getitem. rewrite Hm, Hd. simpl.
    rewrite np_exp_nonpos; [| |done].
    2:{ pose proof (Rmin_l p0 p1). pose proof (Rmax_l p0 p1). lra. }
    simpl. unfold np_log1p. pose proof (exp_pos (Rmin p0 p1 - Rmax p0 p1)).
    destruct (Rlt_dec _ _); [simpl; eauto | lra]. }
  destruct (log_probs_norm_spec _ _ _ Hi Hr) as (Hlen & Hsum & Hle).
  destruct r as [|r0 [|r1 [|? ?]]]; simpl in Hlen; try lia.
  exists r0, r1. unfold _normalize_log. rewrite Hi. simpl. rewrite Hr.
  split; [done|]. apply Forall_cons in Hle as [H0 Hle].
  apply Forall_cons in Hle as [H1 _]. split; [done|]. split; [done|].
  simpl in Hsum. lra.
Qed.

(** A pair of log probabilities is always normalised to two
    non-positive log probabilities. *)
Lemma normalize_log_pair_nonpos (p0 p1 : R) :
  ∃ r0 r1, _normalize_log [p0; p1] = Ok [r0; r1] ∧ r0 <= 0 ∧ r1 <= 0.
Proof.
  destruct (Rlt_dec (exp (Rmin p0 p1 - Rmax p0 p1)) TINY) as [Hu|Hn].
  - rewrite (_normalize_log_underflow p0 p1 Hu). pose proof log_EPSILON_neg.
    destruct (Rgt_dec p0 p1); eexists _, _; (split; [done|]); split; lra.
  - destruct (normalize_log_pair_stable p0 p1 Hn) as (r0 & r1 & H & H0 & H1 & _).
    by exists r0, r1.
Qed.

(** X12: on a pair of log probabilities [_normalize_log] always
    returns, and returns two non-positive log probabilities; unless the
    normalisation underflows, their exponentials add up to 1. *)
Theorem normalize_log_pair_returns (p0 p1 : R) :
  ∃ r0 r1, _normalize_log [p0; p1] = Ok [r0; r1]
    ∧ r0 <= 0 ∧ r1 <= 0
    ∧ (¬ underflows p0 p1 → exp r0 + exp r1 = 1).
Proof.
  destruct (Rlt_dec (exp (Rmin p0 p1 - Rmax p0 p1)) TINY) as [Hu|Hn].
  - (* the stable formula raises and the fallback answers *)
    rewrite (_normalize_log_underflow p0 p1 Hu). pose proof log_EPSILON_neg.
    destruct (Rgt_dec p0 p1); eexists _, _; (split; [done|]);
      (split; [lra|]); (split; [lra|]); intros Hs; by destruct Hs.
  - destruct (normalize_log_pair_stable p0 p1 Hn) as (r0 & r1 & H & H0 & H1 & Hsum).
    exists r0, r1. split; [done|]. split; [done|]. split; [done|]. by intros _.
Qed.

(** X13: [log_beta_pdf_short] never raises.  Inside (0, 1) it
    returns [(a - 1) log x + (b - 1) log (1 - x)]; at 0 the error of the
    logarithm is caught and [(a - 1) log EPSILON] is returned, at 1 and
    everywhere else [(b - 1) log EPSILON]. *)
Theorem log_beta_pdf_short_values (x a b : R) :
  (0 < x < 1 → log_beta_pdf_short x a b = Ok ((a - 1) * ln x + (b - 1) * ln (1 - x)))
  ∧ (x = 0 → log_beta_pdf_short x a b = Ok ((a - 1) * log_EPSILON))
  ∧ (x < 0 ∨ 1 <= x → log_beta_pdf_short x a b = Ok ((b - 1) * log_EPSILON)).
Proof.
  pose proof EPSILON_pos as Heps. unfold log_beta_pdf_short, log_EPSILON.
  split; [|split].
  - intros Hx. rewrite !np_log_pos by lra. done.
  - intros ->. rewrite (np_log_nonpos 0) by lra. simpl.
    destruct (Req_dec_T 0 0); [|lra]. by rewrite np_log_pos.
  - intros Hx. unfold np_log at 1 2.
    destruct (Rlt_dec 0 x); simpl; [destruct (Rlt_dec 0 (1 - x)); simpl; [lra|]|];
      (destruct (Req_dec_T x 0); [lra|]); by rewrite np_log_pos.
Qed.

Lemma log_beta_pdf_short_values_witness :
  log_beta_pdf_short (/ 2) 3 1 = Ok ((3 - 1) * ln (/ 2) + (1 - 1) * ln (1 - / 2))
  ∧ log_beta_pdf_short 0 3 1 = Ok ((3 - 1) * log_EPSILON)
  ∧ log_beta_pdf_short 1 3 2 = Ok ((2 - 1) * log_EPSILON).
Proof.
  split; [|split].
  - apply (log_beta_pdf_short_values (/ 2) 3 1). lra.
  - by apply (log_beta_pdf_short_values 0 3 1).
  - apply (log_beta_pdf_short_values 1 3 2). lra.
Defined.

Lemma normalize_log_probs_sums_to_one_witness :
  ∃ r, _normalize_log_probs [0; 0] = Ok r
       ∧ length r = 2%nat ∧ sum_list r = 1 ∧ Forall (λ x, 0 < x <= 1) r.
Proof.
  assert (∃ r, _normalize_log_probs [0; 0] = Ok r) as [r Hr].
  { unfold _normalize_log_probs, nanargmax. simpl.
    destruct (Rlt_dec 0 0); [lra|]. simpl.
    unfold log_probs_norm. simpl. replace (0 - 0) with 0 by lra.
    rewrite np_exp_0. simpl. unfold np_log1p.
    destruct (Rlt_dec (-1) (1 + 0)); [|lra]. simpl.
    assert (0 <= ln (1 + (1 + 0))) as Hl by (apply ln_nonneg; lra).
    assert (¬ exp (0 - ln (1 + (1 + 0))) < TINY) as Hn.
    { replace (0 - ln (1 + (1 + 0))) with (- ln (1 + (1 + 0))) by lra.
      rewrite exp_Ropp, exp_ln by lra.
      assert (TINY < / (1 + (1 + 0))); [|lra]. unfold TINY.
      apply Rinv_lt_contravar.
      - apply Rmult_lt_0_compat; [lra | apply pow_lt; lra].
      - replace (1 + (1 + 0)) with (2 ^ 1) by lra. apply Rlt_pow; [lra | lia]. }
    rewrite !np_exp_nonpos by (done || lra). simpl. eauto. }
  exists r. split; [exact Hr|]. exact (normalize_log_probs_sums_to_one _ _ Hr).
Defined.

Lemma normalize_log_probs_underflow_witness :
  _normalize_log_probs [0; - 2000] = Raise FloatingPointError.
Proof.
  apply (normalize_log_probs_underflow [0; - 2000] 0%nat 1%nat 0 (- 2000)).
  - unfold nanargmax. simpl. destruct (Rlt_dec 0 (- 2000)); [lra | done].
  - done.
  - lia.
  - done.
  - replace (- 2000 - 0) with (- 2000) by lra. apply exp_minus_2000_tiny.
Defined.
End NumericExtras.

(** * The likelihood of a cell and the seating prior *)

Section LikelihoodExtras.
Local Open Scope R_scope.

Lemma mapM_total_Forall2 {A B} (f : A → result B) (P : A → B → Prop) l :
  (∀ x, x ∈ l → ∃ y, f x = Ok y ∧ P x y) →
  ∃ r, mapM (M := result) f l = Ok r ∧ Forall2 P l r.
Proof.
  induction l as [|x l IH]; intros H.
  - exists []. split; [done | constructor].
  - destruct (H x) as (y & Hy & HP); [left|].
    destruct IH as (r & Hr & HF); [intros z Hz; apply H; by right|].
    exists (y :: r). simpl. rewrite Hy. simpl. rewrite Hr. simpl.
    split; [done | by constructor].
Qed.

Lemma mixture_le_1 theta p q :
  0 <= theta <= 1 → p <= 1 → q <= 1 → theta * p + (1 - theta) * q <= 1.
Proof. intros Ht Hp Hq. nra. Qed.

(** One entry of the log likelihood is the logarithm of a probability. *)
Lemma ll_entry_nonpos m theta x :
  0 < alpha_error m < 1 → 0 < beta_error m < 1 → 0 <= theta <= 1 →
  ∃ o, ll_entry m theta x = Ok o ∧ default 0 o <= 0.
Proof.
  intros Ha Hb Ht. unfold ll_entry, _Bernoulli_FN, _Bernoulli_FP.
  destruct x; simpl; [| |exists None; split; [done | simpl; lra]].
  - rewrite np_log_pos by (apply mixture_pos; lra). simpl. eexists. split; [done|].
    simpl. apply ln_nonpos; [apply mixture_pos; lra | apply mixture_le_1; lra].
  - rewrite np_log_pos by (apply mixture_pos; lra). simpl. eexists. split; [done|].
    simpl. apply ln_nonpos; [apply mixture_pos; lra | apply mixture_le_1; lra].
Qed.

Lemma nansum_nonpos l : Forall (λ o, default 0 o <= 0) l → nansum l <= 0.
Proof. unfold nansum. induction 1 as [|o l Ho _ IH]; simpl; lra. Qed.

Lemma _calc_ll_flat_bound m x theta nan_no :
  0 < alpha_error m < 1 → 0 < beta_error m < 1 →
  Forall (λ t, 0 <= t <= 1) theta → length x = length theta →
  ∃ v, _calc_ll_flat m x theta nan_no = Ok v ∧ v <= nan_no * _beta_mix_const2 m.
Proof.
  intros Ha Hb Ht Hlen. unfold _calc_ll_flat. rewrite decide_True by done.
  destruct (mapM_total_Forall2 (λ tx, ll_entry m tx.1 tx.2)
              (λ _ o, default 0 o <= 0) (zip theta x)) as (logs & -> & HF).
  { intros [t o] Hin. apply ll_entry_nonpos; [done..|]. simpl.
    apply elem_of_zip_l in Hin. by eapply Forall_forall in Ht. }
  simpl. eexists. split; [done|].
  assert (nansum logs <= 0); [|lra]. apply nansum_nonpos.
  clear -HF. induction HF; constructor; done.
Qed.

(** In exact arithmetic (no product of the mixture underflows) the
    evaluation returns on these inputs. *)
Lemma _calc_ll_exact_Ok (m : ErrorModel) (x : list (list obs)) (theta nan_no : list R) :
  0 < alpha_error m < 1 → 0 < beta_error m < 1 →
  Forall (λ t, 0 <= t <= 1) theta →
  Forall (λ row, length row = length theta) x →
  length x = length nan_no →
  ∃ ll, _calc_ll m x theta nan_no = Ok ll.
Proof.
  intros Ha Hb Ht Hrows Hlen. unfold _calc_ll. rewrite decide_True by done.
  destruct (mapM_total_Forall2 (λ xn, _calc_ll_flat m xn.1 theta xn.2)
              (λ _ _, True) (zip x nan_no)) as (ll & Hll & _); [|by exists ll].
  intros [row n] Hin. simpl.
  destruct (_calc_ll_flat_bound m row theta n) as (v & Hv & _); [done..| |by exists v].
  apply elem_of_zip_l in Hin. by eapply Forall_forall in Hrows.
Qed.

Lemma np_log_Ok_inv x l : np_log x = Ok l → 0 < x ∧ l = ln x.
Proof. unfold np_log. destruct (Rlt_dec 0 x); [|done]. by intros [= <-]. Qed.

Lemma Bernoulli_le_1 m x fn fp :
  0 <= alpha_error m <= 1 → 0 <= beta_error m <= 1 →
  _Bernoulli_FN m x = Some fn → _Bernoulli_FP m x = Some fp → fn <= 1 ∧ fp <= 1.
Proof.
  intros Ha Hb. unfold _Bernoulli_FN, _Bernoulli_FP.
  destruct x; simpl; intros [= <-] [= <-]; lra.
Qed.

(** An entry that was computed is the logarithm of a probability. *)
Lemma ll_entry_Ok_nonpos m theta x o :
  0 <= alpha_error m <= 1 → 0 <= beta_error m <= 1 → 0 <= theta <= 1 →
  ll_entry m theta x = Ok o → default 0 o <= 0.
Proof.
  intros Ha Hb Ht. unfold ll_entry.
  destruct (_Bernoulli_FN m x) as [fn|] eqn:Hfn; [|intros [= <-]; simpl; lra].
  destruct (_Bernoulli_FP m x) as [fp|] eqn:Hfp; [|intros [= <-]; simpl; lra].
  destruct (Bernoulli_le_1 m x fn fp Ha Hb Hfn Hfp) as [Hn Hp].
  cbv zeta. intros H. inv_bind H. injection H as <-. simpl.
  apply np_log_Ok_inv in E as [Hpos ->].
  apply ln_nonpos; [done | by apply mixture_le_1].
Qed.

Lemma _calc_ll_flat_Ok_bound m x theta nan_no v :
  0 <= alpha_error m <= 1 → 0 <= beta_error m <= 1 →
  Forall (λ t, 0 <= t <= 1) theta →
  _calc_ll_flat m x theta nan_no = Ok v → v <= nan_no * _beta_mix_const2 m.
Proof.
  intros Ha Hb Ht. unfold _calc_ll_flat. case_decide; [|done]. intros Hv.
  inv_bind Hv. injection Hv as <-. rename x0 into logs.
  assert (nansum logs <= 0); [|lra]. apply nansum_nonpos.
  apply mapM_Ok_inv in E.
  assert (Forall (λ tx, 0 <= tx.1 <= 1) (zip theta x)) as Hz.
  { apply Forall_forall. intros [t o] Hin. simpl.
    apply elem_of_zip_l in Hin. by eapply Forall_forall in Ht. }
  clear -E Hz Ha Hb. induction E as [|tx o l logs Ho _ IH]; [constructor|].
  apply Forall_cons in Hz as [Htx Hz]. constructor; [|by apply IH].
  by eapply ll_entry_Ok_nonpos.
Qed.

(** X14: when [_calc_ll] returns (error rates and cluster
    parameters in [0, 1]; it raises when a logarithm is taken of 0 or,
    in the code, when a product of the mixture underflows), it returns
    one log likelihood per cell, and none exceeds the cell's term for
    its missing entries ([nan_no * _beta_mix_const[2]]): the observed
    entries contribute logarithms of probabilities. *)
Theorem calc_ll_bounded (m : ErrorModel) (x : list (list obs))
    (theta nan_no ll : list R) :
  _calc_ll m x theta nan_no = Ok ll →
  0 <= alpha_error m <= 1 → 0 <= beta_error m <= 1 →
  Forall (λ t, 0 <= t <= 1) theta →
  length ll = length x
  ∧ Forall2 (λ v n, v <= n * _beta_mix_const2 m) ll nan_no.
Proof.
  intros H Ha Hb Ht. unfold _calc_ll in H. case_decide as Hlen; [|done].
  apply mapM_Ok_inv in H. revert nan_no ll Hlen H.
  induction x as [|row x IH]; intros [|n nan_no] ll Hlen HF; simpl in *; try lia.
  - inversion HF. split; [done | constructor].
  - inversion HF as [|? v ? ll' Hv HF']; subst. simpl in Hv.
    destruct (IH nan_no ll' ltac:(lia) HF') as [Hl Hb'].
    split; [simpl; lia|]. constructor; [|done].
    by eapply _calc_ll_flat_Ok_bound.
Qed.

Lemma calc_ll_bounded_witness :
  ∃ ll, _calc_ll {| alpha_error := / 4; beta_error := / 4; _beta_mix_const2 := - 1 |}
          [[obs1; obs_nan]; [obs0; obs1]] [/ 2; 1] [1; 0] = Ok ll
    ∧ length ll = 2%nat
    ∧ Forall2 (λ v n, v <= n * - 1) ll [1; 0].
Proof.
  destruct (_calc_ll_exact_Ok
              {| alpha_error := / 4; beta_error := / 4; _beta_mix_const2 := - 1 |}
              [[obs1; obs_nan]; [obs0; obs1]] [/ 2; 1] [1; 0]) as [ll Hll].
  - simpl. lra.
  - simpl. lra.
  - repeat (apply Forall_cons; split; [lra|]). constructor.
  - repeat (apply Forall_cons; split; [reflexivity|]). constructor.
  - reflexivity.
  - exists ll. split; [exact Hll|].
    apply (calc_ll_bounded _ _ _ _ _ Hll); simpl; try lra.
    repeat (apply Forall_cons; split; [lra|]). constructor.
Defined.



End LikelihoodExtras.

(** * Further properties of the step sizes *)

Section StepSizeExtras.
Local Open Scope float_scope.

(** [np.clip(x, 0, 1)] is neither below 0 nor above 1. *)
Lemma clip_unit x : (clip x 0 1 <? 0) = false ∧ (1 <? clip x 0 1) = false.
Proof.
  unfold clip. destruct (x <? 0) eqn:Hlo.
  - change (1 <? 0) with false. cbn iota. done.
  - destruct (1 <? x) eqn:Hhi; [|done]. split; reflexivity.
Qed.

(** X16: [update_MH_std] keeps the step sizes in range.  Whatever
    the counters and the factor are, a call that returns has reset the
    counter, kept the number of step sizes, and left no step size below
    0 or above 1 if none was before. *)
Theorem update_MH_std_keeps_range (mult : float) (s s' : MHState) :
  Forall (λ x, (x <? 0) = false ∧ (1 <? x) = false) (param_proposal_sd s) →
  update_MH_std mult s = Ok s' →
  Forall (λ x, (x <? 0) = false ∧ (1 <? x) = false) (param_proposal_sd s')
  ∧ length (param_proposal_sd s') = length (param_proposal_sd s)
  ∧ params_MH_counter s' = (0, 0).
Proof.
  intros Hin H. unfold update_MH_std in H.
  destruct (params_MH_counter s) as [acc dec]. inv_bind H. rename x into ratio.
  inv_bind H. rename x into sd. injection H as <-. simpl.
  split; [|split; [|done]].
  - destruct (ratio <? 0.45).
    + inv_bind E0. injection E0 as <-. apply Forall_fmap, Forall_forall.
      intros y _. apply clip_unit.
    + destruct (0.55 <? ratio).
      * assert (sd = (λ x, clip (x * mult) 0 1) <$> param_proposal_sd s) as ->
          by (destruct (forallb _ _); congruence).
        apply Forall_fmap, Forall_forall. intros y _. apply clip_unit.
      * by injection E0 as <-.
  - destruct (ratio <? 0.45).
    + inv_bind E0. injection E0 as <-. apply mapM_Ok_inv, Forall2_length in E1.
      by rewrite length_fmap.
    + destruct (0.55 <? ratio).
      * assert (sd = (λ x, clip (x * mult) 0 1) <$> param_proposal_sd s) as ->
          by (destruct (forallb _ _); congruence).
        by rewrite length_fmap.
      * by injection E0 as <-.
Qed.

Lemma update_MH_std_keeps_range_witness :
  Forall (λ x, (x <? 0) = false ∧ (1 <? x) = false) [0.1 * 1.5; 0.375; 0.75]
  ∧ length [0.1 * 1.5; 0.375; 0.75] = length (param_proposal_sd MH_init)
  ∧ ((0, 0) : float * float) = (0, 0).
Proof.
  apply (update_MH_std_keeps_range 1.5 MH_init
           {| param_proposal_sd := [0.1 * 1.5; 0.375; 0.75];
              params_MH_counter := (0, 0) |}).
  - repeat (apply Forall_cons; split; [split; reflexivity|]). constructor.
  - vm_compute. reflexivity.
Defined.
End StepSizeExtras.

(** * The trace: what a step records, truncation, open-ended runs *)

Lemma count_zeros_spec (l : list R) (n : nat) :
  (n ≤ length l)%nat →
  (∀ i x, (i < n)%nat → l !! i = Some x → x ≠ 0%R) →
  (∀ i, (n ≤ i < length l)%nat → l !! i = Some 0%R) →
  count_zeros l = (length l - n)%nat.
Proof.
  revert n. induction l as [|y l IH]; intros n Hn Hrec Hpad; [done|].
  cbn [count_zeros foldr length]. fold (count_zeros l). destruct n as [|n].
  - assert (y = 0%R) as -> by (specialize (Hpad 0%nat); simpl in Hpad;
      assert (Some y = Some 0%R) as [= ->] by (apply Hpad; lia); done).
    destruct (Req_dec_T 0 0); [|done]. rewrite (IH 0%nat); [lia | lia | |].
    + intros; lia.
    + intros i Hi. apply (Hpad (S i)). simpl. lia.
  - destruct (Req_dec_T y 0) as [Hy|Hy].
    + by destruct (Hrec 0%nat y); [lia|..].
    + rewrite (IH n); [simpl; lia | simpl in Hn; lia | |].
      * intros i x Hi Hx. apply (Hrec (S i) x); [lia | done].
      * intros i Hi. apply (Hpad (S i)). simpl. lia.
Qed.

Lemma setitemZ_Forall {A} (P : A → Prop) (l l' : list A) i x :
  setitemZ l i x = Ok l' → Forall P l → P x → Forall P l'.
Proof.
  unfold setitemZ. intros H Hl Hx. inv_bind H. injection H as <-.
  by apply Forall_insert.
Qed.

Lemma foldl_insert_other {A} (l : list A) (kvs : list (nat * A)) k :
  k ∉ kvs.*1 → foldl (λ acc kv, <[kv.1 := kv.2]> acc) l kvs !! k = l !! k.
Proof.
  revert l. induction kvs as [|[k0 v0] kvs IH]; intros l Hk; [done|].
  simpl in *. apply not_elem_of_cons in Hk as [Hne Hk].
  rewrite IH by done. by rewrite list_lookup_insert_ne.
Qed.

Lemma foldl_insert_length {A} (l : list A) (kvs : list (nat * A)) :
  length (foldl (λ acc kv, <[kv.1 := kv.2]> acc) l kvs) = length l.
Proof.
  revert l. induction kvs as [|[k0 v0] kvs IH]; intros l; [done|].
  simpl. by rewrite IH, length_insert.
Qed.

Lemma foldl_insert_lookup {A} (l : list A) (kvs : list (nat * A)) k v :
  NoDup kvs.*1 → (k, v) ∈ kvs → (k < length l)%nat →
  foldl (λ acc kv, <[kv.1 := kv.2]> acc) l kvs !! k = Some v.
Proof.
  revert l. induction kvs as [|[k0 v0] kvs IH]; intros l Hnd Hin Hlt.
  - by apply elem_of_nil in Hin.
  - simpl in *. apply NoDup_cons in Hnd as [Hk0 Hnd].
    apply elem_of_cons in Hin as [[= -> ->]|Hin].
    + rewrite foldl_insert_other by done. by apply list_lookup_insert_eq.
    + apply IH; [done..|]. by rewrite length_insert.
Qed.

(** [l[idxs] = l'[idxs]] with non-negative, distinct indices writes
    entry [c] of [l'] at position [c]. *)
Lemma setitemsZ_getitemsZ {A} (row row' src vals : list A) (cl : list Z) c :
  getitemsZ src cl = Ok vals → setitemsZ row cl vals = Ok row' →
  NoDup cl → Forall (λ c, 0 ≤ c)%Z cl → c ∈ cl →
  ∃ v, src !! Z.to_nat c = Some v ∧ row' !! Z.to_nat c = Some v.
Proof.
  unfold getitemsZ, setitemsZ. intros Hget Hset Hnd Hpos Hc.
  inv_bind Hset. rename x into ks. injection Hset as <-.
  apply mapM_Ok_inv in Hget. apply mapM_Ok_inv in E.
  assert (ks = Z.to_nat <$> cl ∧ Forall (λ c, Z.to_nat c < length row)%nat cl)
    as [-> Hlt].
  { clear -E Hpos. induction E as [|c0 k cl ks Hk _ IH]; [by split|].
    apply Forall_cons in Hpos as [Hc0 Hpos]. destruct (IH Hpos) as [-> HF].
    apply norm_index_Ok in Hk as [Hk Hlt]; [|done]. split.
    - simpl. f_equal. lia.
    - constructor; [|done]. by replace (Z.to_nat c0) with k by lia. }
  assert (∃ v, getitemZ src c = Ok v ∧ (Z.to_nat c, v) ∈ zip (Z.to_nat <$> cl) vals)
    as (v & Hv & Hin).
  { clear -Hget Hc. induction Hget as [|c0 v0 cl vals Hv0 _ IH].
    - by apply elem_of_nil in Hc.
    - apply elem_of_cons in Hc as [->|Hc].
      + exists v0. split; [done | left].
      + destruct (IH Hc) as (v & Hv & Hin). exists v. split; [done | by right]. }
  exists v. split.
  - unfold getitemZ in Hv. inv_bind Hv. apply getitem_Ok in Hv.
    apply norm_index_Ok in E0 as [<- _]; [|by eapply Forall_forall in Hpos].
    by rewrite Nat2Z.id.
  - apply foldl_insert_lookup; [| done |by eapply Forall_forall in Hlt].
    rewrite fst_zip.
    + apply NoDup_fmap_2_strong; [|done]. intros x y Hx Hy Hxy.
      rewrite Forall_forall in Hpos. pose proof (Hpos x Hx). pose proof (Hpos y Hy).
      lia.
    + rewrite length_fmap. apply Forall2_length in Hget. lia.
Qed.

Section OpenRunProofs.
Variables (get_ll_full get_lprior : Engine → result R).
Variable alloc_fails : nat → bool.

Local Abbreviation update_MCMC_results'' :=
  (update_MCMC_results get_ll_full get_lprior alloc_fails).
Local Abbreviation init_MCMC_results'' :=
  (init_MCMC_results get_ll_full get_lprior alloc_fails).

(** What recording a step does to the arrays: the trace grows by
    [min(200, size)] rows of zeros when the step is past its end, and
    the sample is written at the step. *)
Lemma update_MCMC_results_shape results step e results' m :
  update_MCMC_results'' results step e = Ok results' →
  (0 ≤ step)%Z → alloc_fails m = false → trace_len results m →
  let m' := if decide (step < Z.of_nat m)%Z then m else (m + Nat.min 200 m)%nat in
  ∃ ll lp,
    get_ll_full e = Ok ll ∧ get_lprior e = Ok lp
    ∧ trace_len results' m' ∧ (Z.to_nat step < m')%nat
    ∧ burn_in results' = burn_in results
    ∧ ML results' = <[Z.to_nat step := ll]> (ML results ++ zeros (m' - m))
    ∧ MAP results' = <[Z.to_nat step := (ll + lp)%R]> (MAP results ++ zeros (m' - m))
    ∧ tr_DP_alpha results'
      = <[Z.to_nat step := DP_alpha (DP e)]> (tr_DP_alpha results ++ zeros (m' - m))
    ∧ assignments results'
      = <[Z.to_nat step := assignment (clusters e)]>
          (assignments results
           ++ replicate (m' - m) (replicate (cells_total (clusters e)) 0%Z)).
Proof.
  intros H Hstep Halloc (HML & HMAP & HDP & HA & HP) m'.
  unfold update_MCMC_results in H.
  inv_bind H. rename x into ll. inv_bind H. rename x into lp.
  inv_bind H. destruct x as [[results1 step1] ml].
  exists ll, lp. split; [done|]. split; [done|].
  assert (step1 = step ∧ (Z.to_nat step < m')%nat
          ∧ ml = <[Z.to_nat step := ll]> (ML results ++ zeros (m' - m))
          ∧ ML results1 = ML results ++ zeros (m' - m)
          ∧ MAP results1 = MAP results ++ zeros (m' - m)
          ∧ tr_DP_alpha results1 = tr_DP_alpha results ++ zeros (m' - m)
          ∧ assignments results1
            = assignments results
              ++ replicate (m' - m) (replicate (cells_total (clusters e)) 0%Z)
          ∧ length (params results1) = m'
          ∧ burn_in results1 = burn_in results)
    as (-> & Hlt & -> & H1 & H2 & H3 & H4 & H5 & H6).
  { unfold m'. case_decide as Hfit.
    - rewrite setitemZ_in_range in E1 by lia. simpl in E1. injection E1 as <- <- <-.
      rewrite Nat.sub_diag. unfold zeros. simpl. rewrite !app_nil_r.
      repeat split; (done || lia).
    - assert (setitemZ (ML results) step ll = Raise IndexError) as Hset.
      { unfold setitemZ, norm_index. rewrite !decide_False by lia. done. }
      rewrite Hset in E1. unfold _extend_results_array in E1.
      rewrite HML, Halloc in E1.
      replace (m + Nat.min 200 m - m)%nat with (Nat.min 200 m) by lia.
      generalize dependent (Nat.min 200 m). intros k E1.
      cbn in E1. inv_bind E1.
      injection E1 as <- <- <-. cbn.
      apply setitemZ_inv in E2 as [Hlt ->]; [|done].
      rewrite length_app, HML in Hlt. unfold zeros in Hlt.
      rewrite length_replicate in Hlt.
      repeat split; try done.
      rewrite length_app, length_replicate. lia. }
  inv_bind H. rename x into map. inv_bind H. rename x into asg.
  inv_bind H. rename x into dpa. inv_bind H. destruct x as [par width].
  injection H as <-. cbn [ML MAP tr_DP_alpha assignments params burn_in].
  apply setitemZ_inv in E2 as [L2 ->]; [|done].
  apply setitemZ_inv in E3 as [L3 ->]; [|done].
  apply setitemZ_inv in E4 as [L4 ->]; [|done].
  rewrite H2, H3, H4.
  assert (length par = m') as Hpar.
  { destruct (write_params results1 step _ e) as [par0|err] eqn:Hw.
    - simpl in E5. injection E5 as <- <-. by apply write_params_length in Hw as ->.
    - destruct err; try done. inv_bind E5. case_decide; [done|].
      inv_bind E5. injection E5 as <- <-. apply write_params_length in E3 as ->.
      simpl. unfold pad_params. by rewrite length_fmap. }
  split; [|done].
  unfold trace_len; cbn [ML MAP tr_DP_alpha assignments params].
  rewrite !length_insert. rewrite <- H2, <- H3, <- H4 in *.
  assert (length (ML results ++ zeros (m' - m)) = m') as ->.
  { unfold zeros. rewrite length_app, length_replicate, HML.
    unfold m'. case_decide; lia. }
  rewrite H2, H3, H4, !length_app, !length_replicate, HMAP, HDP, HA.
  unfold zeros. rewrite !length_replicate.
  assert (m + (m' - m) = m')%nat by (unfold m'; case_decide; lia).
  done.
Qed.
Lemma write_params_records results step cl e par c :
  write_params results step cl e = Ok par → (0 ≤ step)%Z →
  NoDup cl → Forall (λ c, 0 ≤ c)%Z cl → c ∈ cl →
  ∃ row v, par !! Z.to_nat step = Some row
    ∧ parameters (clusters e) !! Z.to_nat c = Some v
    ∧ row !! Z.to_nat c = Some v.
Proof.
  unfold write_params. intros H Hstep Hnd Hpos Hc.
  inv_bind H. rename x into vals. inv_bind H. rename x into row.
  inv_bind H. rename x into row'.
  apply setitemZ_inv in H as [Hlt ->]; [|done].
  destruct (setitemsZ_getitemsZ _ _ _ _ _ c E E1 Hnd Hpos Hc) as (v & Hv & Hv').
  exists row', v. split; [|done]. by apply list_lookup_insert_eq.
Qed.

(** X17: [update_MCMC_results] stores the sample at its step: the
    log likelihood, the log posterior (likelihood plus prior), the
    assignment vector, the concentration and, in the parameter
    snapshot, the row of every active cluster at the cluster's id,
    whether the trace had room or had to grow first. *)
Theorem update_MCMC_results_records (results results' : Trace) (step : Z)
    (e : Engine) (m : nat) :
  reachable (clusters e) → trace_len results m → alloc_fails m = false →
  (0 ≤ step)%Z →
  update_MCMC_results'' results step e = Ok results' →
  ∃ ll lp row,
    get_ll_full e = Ok ll ∧ get_lprior e = Ok lp
    ∧ ML results' !! Z.to_nat step = Some ll
    ∧ MAP results' !! Z.to_nat step = Some (ll + lp)%R
    ∧ tr_DP_alpha results' !! Z.to_nat step = Some (DP_alpha (DP e))
    ∧ assignments results' !! Z.to_nat step = Some (assignment (clusters e))
    ∧ params results' !! Z.to_nat step = Some row
    ∧ ∀ c, is_Some (cells_per_cluster (clusters e) !! c) →
        ∃ v, parameters (clusters e) !! Z.to_nat c = Some v
             ∧ row !! Z.to_nat c = Some v.
Proof.
  intros Hreach Hlen Halloc Hstep H.
  destruct (update_MCMC_results_shape _ _ _ _ _ H Hstep Halloc Hlen)
    as (ll & lp & Hll & Hlp & Hlen' & Hlt & _ & HML & HMAP & HDP & HA).
  destruct Hlen' as (L1 & L2 & L3 & L4 & L5).
  assert (∃ row, params results' !! Z.to_nat step = Some row
            ∧ ∀ c, is_Some (cells_per_cluster (clusters e) !! c) →
                ∃ v, parameters (clusters e) !! Z.to_nat c = Some v
                     ∧ row !! Z.to_nat c = Some v) as (row & Hrow & Hpar).
  { assert (is_Some (params results' !! Z.to_nat step)) as [row Hrow]
      by (apply lookup_lt_is_Some; lia).
    exists row. split; [done|]. intros c Hc.
    apply reachable_Inv in Hreach.
    assert (Forall (λ c, 0 ≤ c)%Z (cluster_keys (cells_per_cluster (clusters e))))
      as Hpos.
    { apply Forall_forall. intros c' [n Hn]%elem_of_cluster_keys.
      eapply Inv_key_range in Hn; [lia | done]. }
    apply elem_of_cluster_keys in Hc.
    pose proof (cluster_keys_NoDup (cells_per_cluster (clusters e))) as Hnd.
    unfold update_MCMC_results in H. rewrite Hll, Hlp in H. simpl in H.
    inv_bind H. destruct x as [[results1 step1] ml].
    assert (step1 = step) as ->.
    { destruct (setitemZ (ML results) step ll) as [ml0|err].
      - simpl in E. by injection E as <- <- <-.
      - destruct err; try done. inv_bind E. destruct x as [r2 s2].
        inv_bind E. injection E as <- <- <-.
        destruct (_extend_results_array _ _ _ results) as [r|err] eqn:Hgrow.
        + simpl in E0. by injection E0 as <- <-.
        + unfold _extend_results_array in Hgrow.
          rewrite (proj1 Hlen), Halloc in Hgrow. done. }
    inv_bind H. inv_bind H. inv_bind H. inv_bind H. destruct x2 as [par width].
    injection H as <-. cbn [params] in Hrow.
    destruct (write_params results1 step _ e) as [par0|err] eqn:Hw.
    - simpl in E3. injection E3 as <- <-.
      destruct (write_params_records _ _ _ _ _ c Hw Hstep Hnd Hpos Hc)
        as (row0 & v & Hr0 & Hv & Hv'). exists v. split; [done|]. congruence.
    - destruct err; try done. inv_bind E3.
      match type of E3 with context [decide ?P] => destruct (decide P) end; [done|].
      inv_bind E3. injection E3 as <- <-.
      destruct (write_params_records _ _ _ _ _ c E5 Hstep Hnd Hpos Hc)
        as (row0 & v & Hr0 & Hv & Hv'). exists v. split; [done|]. congruence. }
  exists ll, lp, row. split; [done|]. split; [done|].
  rewrite HML, HMAP, HDP, HA.
  assert (∀ A (l : list A) pad, length (l ++ pad) = length l + length pad)%nat
    as Happ by (intros; apply length_app).
  rewrite HML, length_insert in L1. rewrite HMAP, length_insert in L2.
  rewrite HDP, length_insert in L3. rewrite HA, length_insert in L4.
  split; [apply list_lookup_insert_eq; lia|].
  split; [apply list_lookup_insert_eq; lia|].
  split; [apply list_lookup_insert_eq; lia|].
  split; [apply list_lookup_insert_eq; lia|]. done.
Qed.
Section Recorded.
Hypothesis ll_nonzero : ∀ e ll, get_ll_full e = Ok ll → ll ≠ 0%R.
Hypothesis alloc_ok : ∀ k, alloc_fails k = false.

Lemma recorded_update n tr tr' e :
  recorded n tr → (1 ≤ n)%nat →
  update_MCMC_results'' tr (Z.of_nat n) e = Ok tr' → recorded (S n) tr'.
Proof.
  intros (m & Hlen & Hnm & Hrec & Hpad & Hb) Hn H.
  destruct (update_MCMC_results_shape _ _ _ _ m H ltac:(lia) (alloc_ok m) Hlen)
    as (ll & lp & Hll & _ & Hlen' & Hlt & Hb' & HML & _).
  rewrite Nat2Z.id in *. destruct Hlen as [HMLlen _].
  eexists. split; [exact Hlen'|]. split; [lia|]. split; [|split].
  - intros i x Hi Hx. rewrite HML in Hx. destruct (decide (i = n)) as [->|Hne].
    + rewrite list_lookup_insert_eq in Hx
        by (rewrite length_app; unfold zeros; rewrite length_replicate; lia).
      injection Hx as <-. by eapply ll_nonzero.
    + rewrite list_lookup_insert_ne in Hx by done.
      rewrite lookup_app_l in Hx by lia. apply (Hrec i); [lia | done].
  - intros i Hi. rewrite HML, list_lookup_insert_ne by lia.
    destruct (decide (i < m)%nat).
    + rewrite lookup_app_l by lia. apply Hpad. lia.
    + rewrite lookup_app_r by lia. unfold zeros. apply lookup_replicate_2. lia.
  - congruence.
Qed.

Lemma recorded_init steps e tr :
  init_MCMC_results'' steps e = Ok tr → (1 ≤ steps)%Z → recorded 1 tr.
Proof.
  unfold init_MCMC_results. case_decide as Hneg; [done|]. intros H Hs.
  set (m := Z.to_nat steps) in *.
  eapply (update_MCMC_results_shape _ _ _ _ m) in H as
    (ll & lp & Hll & _ & Hlen' & Hlt & Hb' & HML & _);
    [|lia | apply alloc_ok | unfold trace_len, zeros; simpl;
                              by rewrite !length_replicate].
  rewrite decide_True in Hlen', Hlt, HML by lia. cbn [ML] in HML.
  rewrite Nat.sub_diag in HML. change (zeros 0) with (@nil R) in HML.
  rewrite app_nil_r in HML. change (Z.to_nat 0) with 0%nat in HML.
  exists m. split; [done|]. split; [lia|]. split; [|split].
  - intros i x Hi Hx. assert (i = 0%nat) as -> by lia. rewrite HML in Hx.
    rewrite list_lookup_insert_eq in Hx by (unfold zeros; rewrite length_replicate; lia).
    injection Hx as <-. by eapply ll_nonzero.
  - intros i Hi. rewrite HML, list_lookup_insert_ne by lia.
    unfold zeros. apply lookup_replicate_2. lia.
  - done.
Qed.

Lemma MCMC_time_loop_recorded sm dpa silent draws clock step st step' st' :
  MCMC_time_loop get_ll_full get_lprior alloc_fails sm dpa silent draws clock step st
  = Ok (step', st') →
  (0 ≤ step)%Z → recorded (Z.to_nat step + 1) st.2 →
  (step < step')%Z ∧ recorded (Z.to_nat step') st'.2
  ∧ clock !! Z.to_nat (step' - step - 1) = Some true
  ∧ ∀ i, (i < Z.to_nat (step' - step - 1))%nat → clock !! i = Some false.
Proof.
  revert step st. induction clock as [|late clock IH]; intros step st H Hs Hrec.
  - done.
  - cbn [MCMC_time_loop] in H. destruct late.
    + injection H as <- <-.
      replace (step + 1 - step - 1)%Z with 0%Z by lia.
      replace (Z.to_nat (step + 1)) with (Z.to_nat step + 1)%nat by lia.
      split; [lia|]. split; [done|]. split; [done|]. intros i Hi. simpl in Hi. lia.
    + destruct st as [e results]. inv_bind H. rename x into e1.
      inv_bind H. rename x into results1.
      apply IH in H as (Hlt & Hrec' & Hlate & Hearly); [|lia|].
      2:{ simpl in *.
          replace (Z.to_nat (step + 1) + 1)%nat with (S (Z.to_nat step + 1)) by lia.
          eapply recorded_update; [exact Hrec | lia |].
          replace (Z.of_nat (Z.to_nat step + 1)) with (step + 1)%Z by lia. done. }
      split; [lia|]. split; [done|].
      replace (Z.to_nat (step' - step - 1))
        with (S (Z.to_nat (step' - (step + 1) - 1))) by lia.
      split; [done|]. intros [|i] Hi; [done|]. simpl. apply Hearly. lia.
Qed.

Lemma MCMC_lugsail_loop_recorded get_psrf cutoff min_steps sm dpa silent draws fuel
    step st step' st' :
  MCMC_lugsail_loop get_ll_full get_lprior alloc_fails get_psrf cutoff min_steps
    sm dpa silent draws fuel step st = Ok (step', st') →
  (0 ≤ step)%Z → recorded (Z.to_nat step + 1) st.2 →
  (step < step')%Z ∧ recorded (Z.to_nat step') st'.2
  ∧ (step' mod 500 = 0)%Z ∧ (min_steps < step')%Z.
Proof.
  revert step st. induction fuel as [|fuel IH]; intros step st H Hs Hrec; [done|].
  cbn [MCMC_lugsail_loop] in H. destruct st as [e results].
  inv_bind H. destruct x as [stop e0]. destruct stop.
  - injection H as <- <-. case_decide as Hmod; [|done].
    inv_bind E. injection E as Hstop <-.
    apply andb_prop in Hstop as [_ Hmin%bool_decide_eq_true].
    replace (Z.to_nat (step + 1)) with (Z.to_nat step + 1)%nat by lia.
    split; [lia|]. split; [|done].
    destruct silent; done.
  - inv_bind H. rename x into e1. inv_bind H. rename x into results1.
    apply IH in H as (Hlt & Hrec' & Hmod & Hmin); [|lia|].
    2:{ simpl in *.
        replace (Z.to_nat (step + 1) + 1)%nat with (S (Z.to_nat step + 1)) by lia.
        eapply recorded_update; [exact Hrec | lia |].
        replace (Z.of_nat (Z.to_nat step + 1)) with (step + 1)%Z by lia. done. }
    split; [lia|]. done.
Qed.
End Recorded.

Lemma truncate_recorded n tr :
  recorded n tr →
  ∃ tr', _truncate_results_array tr = Some tr'
    ∧ trace_len tr' n ∧ burn_in tr' = None
    ∧ ML tr' = take n (ML tr) ∧ MAP tr' = take n (MAP tr)
    ∧ tr_DP_alpha tr' = take n (tr_DP_alpha tr)
    ∧ assignments tr' = take n (assignments tr)
    ∧ params tr' = take n (params tr)
    ∧ params_width tr' = params_width tr
    ∧ Forall (λ x, x ≠ 0%R) (ML tr').
Proof.
  intros (m & (L1 & L2 & L3 & L4 & L5) & Hnm & Hrec & Hpad & Hb).
  assert (count_zeros (ML tr) = (m - n)%nat) as Hz.
  { rewrite <- L1. apply count_zeros_spec; [lia | done |]. intros i Hi.
    apply Hpad. lia. }
  assert (Forall (λ x, x ≠ 0%R) (take n (ML tr))) as Hnz.
  { apply Forall_forall. intros x (i & Hi)%list_elem_of_lookup.
    apply lookup_take_Some in Hi as [Hi Hlt]. by apply (Hrec i x). }
  unfold _truncate_results_array. rewrite Hz. case_decide as Hk.
  - rewrite Hb. eexists. split; [done|]. unfold drop_last. cbn.
    rewrite L1, L2, L3, L4, L5. replace (m - (m - n))%nat with n by lia.
    unfold trace_len. cbn. rewrite !length_take.
    repeat split; (done || lia).
  - assert (m = n) as -> by lia. exists tr.
    rewrite !take_ge by lia. rewrite take_ge in Hnz by lia.
    repeat split; done.
Qed.
Lemma init_MCMC_results_empty e ll lp :
  get_ll_full e = Ok ll → get_lprior e = Ok lp → alloc_fails 0 = false →
  init_MCMC_results'' 0 e = Raise IndexError.
Proof.
  intros Hll Hlp Halloc. unfold init_MCMC_results, update_MCMC_results.
  rewrite decide_False by lia. rewrite Hll, Hlp.
  unfold _extend_results_array. simpl. rewrite Halloc. reflexivity.
Qed.

(** X18: growing a full trace and truncating it is the identity.
    When every recorded log likelihood is non-zero,
    [_truncate_results_array] removes exactly the rows of zeros that
    [_extend_results_array] appended. *)
Theorem truncate_undoes_extend (muts cells : nat) (tr grown : Trace) (n : nat) :
  trace_len tr n → burn_in tr = None → Forall (λ x, x ≠ 0%R) (ML tr) →
  _extend_results_array alloc_fails muts cells tr = Ok grown →
  _truncate_results_array grown = Some tr.
Proof.
  intros Hlen Hb Hnz H.
  assert (recorded n grown ∧ ML grown = ML tr ++ zeros (Nat.min 200 n)
          ∧ MAP grown = MAP tr ++ zeros (Nat.min 200 n)
          ∧ tr_DP_alpha grown = tr_DP_alpha tr ++ zeros (Nat.min 200 n)
          ∧ assignments grown
            = assignments tr ++ replicate (Nat.min 200 n) (replicate cells 0%Z)
          ∧ params grown
            = params tr ++ replicate (Nat.min 200 n)
                             (replicate (params_width tr) (zeros muts))
          ∧ params_width grown = params_width tr)
    as (Hrec & G1 & G2 & G3 & G4 & G5 & G6).
  { destruct Hlen as (L1 & L2 & L3 & L4 & L5).
    unfold _extend_results_array in H. destruct (alloc_fails _); [done|].
    rewrite L1 in H. generalize dependent (Nat.min 200 n). intros k H.
    injection H as <-. cbn. split; [|done].
    exists (n + k)%nat. unfold trace_len, zeros. cbn.
    rewrite !length_app, !length_replicate, L1, L2, L3, L4, L5.
    split; [done|]. split; [lia|]. split; [|split; [|done]].
    - intros i x Hi Hx. rewrite lookup_app_l in Hx by lia.
      rewrite Forall_forall in Hnz. by eapply Hnz, list_elem_of_lookup_2.
    - intros i Hi. rewrite lookup_app_r by lia. apply lookup_replicate_2. lia. }
  destruct (truncate_recorded n grown Hrec)
    as (tr' & -> & _ & Hb' & T1 & T2 & T3 & T4 & T5 & T6 & _).
  f_equal. destruct Hlen as (L1 & L2 & L3 & L4 & L5).
  rewrite G1, take_app_length' in T1 by done.
  rewrite G2, take_app_length' in T2 by done.
  rewrite G3, take_app_length' in T3 by done.
  rewrite G4, take_app_length' in T4 by done.
  rewrite G5, take_app_length' in T5 by done.
  destruct tr, tr'; simpl in *; congruence.
Qed.
(** X19: a run bounded by time returns exactly the samples it
    recorded.  Provided no log likelihood is exactly 0 and the trace
    can always grow, a run that ends at the iteration [step] (the first
    whose clock reading is past the end time) returns a trace of [step]
    rows: the initial state and the [step - 1] steps made, whatever the
    capacity the trace went through; none of its log likelihoods is 0,
    and the burn-in index is [int(step * burn_in)]. *)
Theorem time_run_returns_recorded_samples (f sm dpa : float) (silent : bool)
    (draws : Z → StepDraw) (clock : list bool) (e : Engine)
    (r : option (Engine * Trace)) :
  (∀ e ll, get_ll_full e = Ok ll → ll ≠ 0%R) → (∀ k, alloc_fails k = false) →
  _run_MCMC_time get_ll_full get_lprior alloc_fails f sm dpa silent draws clock e
  = Ok r →
  ∃ e' tr step b,
    r = Some (e', tr) ∧ (1 ≤ step)%Z
    ∧ clock !! Z.to_nat (step - 1) = Some true
    ∧ (∀ i, (i < Z.to_nat (step - 1))%nat → clock !! i = Some false)
    ∧ trace_len tr (Z.to_nat step)
    ∧ Forall (λ x, x ≠ 0%R) (ML tr)
    ∧ burn_in tr = Some b
    ∧ int_times_float step f ≫= py_int = Ok b.
Proof.
  intros Hnz Halloc H. unfold _run_MCMC_time in H.
  inv_bind H. rename x into tr0. inv_bind H. destruct x as [step [e1 tr1]].
  apply recorded_init in E; [|done..|lia].
  apply MCMC_time_loop_recorded in E0 as (Hlt & Hrec & Hlate & Hearly);
    [|done..|lia|done].
  destruct (truncate_recorded _ _ Hrec)
    as (tr2 & Htr & Hlen & _ & _ & _ & _ & _ & _ & _ & Hnz2).
  simpl in Htr. rewrite Htr in H. inv_bind H. inv_bind H. injection H as <-.
  eexists e1, _, step, x0. split; [done|]. split; [lia|].
  replace (step - 0 - 1)%Z with (step - 1)%Z in * by lia.
  split; [done|]. split; [done|]. split; [done|]. split; [done|].
  split; [done|]. rewrite E0. done.
Qed.

(** X20: a lugsail run that returns has stopped at a multiple of
    500 steps past [min_steps = int(1 / (cutoff**2 - 1))], which is at
    least 1, and returns the [step] samples it recorded, with burn-in
    index [step // 2] (under the same provisos: no log likelihood is
    exactly 0, the trace can always grow). *)
Theorem lugsail_run_returns_recorded_samples
    (get_psrf : list R → Z → Z → result float) (py_pow : float → float → float)
    (cutoff sm dpa : float) (silent : bool) (draws : Z → StepDraw) (fuel : nat)
    (e : Engine) (r : option (Engine * Trace)) :
  (∀ e ll, get_ll_full e = Ok ll → ll ≠ 0%R) → (∀ k, alloc_fails k = false) →
  _run_MCMC_lugsail get_ll_full get_lprior alloc_fails get_psrf py_pow
    cutoff sm dpa silent draws fuel e = Ok r →
  ∃ e' tr step min_steps,
    r = Some (e', tr)
    ∧ lugsail_min_steps py_pow cutoff = Ok min_steps
    ∧ (1 ≤ min_steps < step)%Z ∧ (step mod 500 = 0)%Z
    ∧ trace_len tr (Z.to_nat step)
    ∧ Forall (λ x, x ≠ 0%R) (ML tr)
    ∧ burn_in tr = Some (step / 2)%Z.
Proof.
  intros Hnz Halloc H. unfold _run_MCMC_lugsail in H.
  inv_bind H. rename x into min_steps. inv_bind H. rename x into tr0.
  inv_bind H. destruct x as [step [e1 tr1]].
  assert (1 ≤ min_steps)%Z as Hmin.
  { destruct (decide (min_steps < 0)%Z) as [Hneg|Hpos].
    - unfold init_MCMC_results in E0. by rewrite decide_True in E0.
    - destruct (decide (min_steps = 0)%Z) as [->|]; [|lia].
      unfold init_MCMC_results, update_MCMC_results in E0.
      rewrite decide_False in E0 by lia. inv_bind E0. inv_bind E0.
      unfold _extend_results_array in E0. simpl in E0.
      rewrite Halloc in E0. done. }
  apply recorded_init in E0; [|done..].
  apply MCMC_lugsail_loop_recorded in E1 as (Hlt & Hrec & Hmod & Hpast);
    [|done..|lia|done].
  destruct (truncate_recorded _ _ Hrec)
    as (tr2 & Htr & Hlen & _ & _ & _ & _ & _ & _ & _ & Hnz2).
  simpl in Htr. rewrite Htr in H. injection H as <-.
  eexists e1, _, step, min_steps. split; [done|]. split; [done|].
  split; [lia|]. split; [done|]. split; [done|]. split; done.
Qed.

(** X21: a lugsail run whose cutoff gives [min_steps = 0] (a
    cutoff of the square root of 2 or more) makes no step: the trace is
    allocated with no row, and recording the initial state raises
    [IndexError] even after the trace was "grown" by
    [min(200, 0) = 0] rows.  A negative [min_steps] (a cutoff below 1)
    raises [ValueError] in [np.zeros]. *)
Theorem lugsail_run_without_rows_raises
    (get_psrf : list R → Z → Z → result float) (py_pow : float → float → float)
    (cutoff sm dpa : float) (silent : bool) (draws : Z → StepDraw) (fuel : nat)
    (e : Engine) (min_steps : Z) (ll lp : R) :
  lugsail_min_steps py_pow cutoff = Ok min_steps → (min_steps ≤ 0)%Z →
  get_ll_full e = Ok ll → get_lprior e = Ok lp → alloc_fails 0 = false →
  _run_MCMC_lugsail get_ll_full get_lprior alloc_fails get_psrf py_pow
    cutoff sm dpa silent draws fuel e
  = Raise (if decide (min_steps < 0)%Z then ValueError else IndexError).
Proof.
  intros Hmin Hle Hll Hlp Halloc. unfold _run_MCMC_lugsail. rewrite Hmin. simpl.
  case_decide as Hneg.
  - unfold init_MCMC_results. by rewrite decide_True.
  - assert (min_steps = 0%Z) as -> by lia.
    by rewrite (init_MCMC_results_empty e ll lp).
Qed.
End OpenRunProofs.

(** * Recording a step never fails on its own *)

Lemma norm_index_in_range len i :
  (0 ≤ i < Z.of_nat len)%Z → norm_index len i = Ok (Z.to_nat i).
Proof. intros H. unfold norm_index. by rewrite decide_True. Qed.

Lemma norm_index_Raise len i e : norm_index len i = Raise e → e = IndexError.
Proof. unfold norm_index. repeat case_decide; congruence. Qed.

Lemma getitemZ_in_range {A} (l : list A) i :
  (0 ≤ i < Z.of_nat (length l))%Z → ∃ x, getitemZ l i = Ok x ∧ l !! Z.to_nat i = Some x.
Proof.
  intros H. unfold getitemZ. rewrite norm_index_in_range by done. simpl.
  destruct (lookup_lt_is_Some_2 l (Z.to_nat i)) as [x Hx]; [lia|].
  exists x. split; [by apply getitem_Ok | done].
Qed.

Lemma getitemZ_Raise {A} (l : list A) i e : getitemZ l i = Raise e → e = IndexError.
Proof.
  unfold getitemZ. destruct (norm_index _ _) as [k|e'] eqn:Hk; simpl.
  - unfold getitem. destruct (l !! k); congruence.
  - intros [= <-]. by eapply norm_index_Raise.
Qed.

Lemma mapM_Raise_kind {A B} (f : A → result B) l e0 e :
  (∀ x e', f x = Raise e' → e' = e0) →
  mapM (M := result) f l = Raise e → e = e0.
Proof.
  intros Hf H. apply mapM_Raise_inv in H as (x & _ & Hx). by eapply Hf.
Qed.

Lemma mapM_total {A B} (f : A → result B) l :
  (∀ x, x ∈ l → ∃ y, f x = Ok y) → ∃ r, mapM (M := result) f l = Ok r.
Proof.
  intros H. destruct (mapM_total_Forall2 f (λ _ _, True) l) as (r & Hr & _);
    [|by exists r].
  intros x Hx. destruct (H x Hx) as [y Hy]. by exists y.
Qed.

Lemma py_max_list_ge (l : list Z) top c : py_max_list l = Ok top → c ∈ l → (c ≤ top)%Z.
Proof.
  destruct l as [|x l]; [done|]. simpl. intros [= <-].
  assert (∀ l a, (a ≤ foldl Z.max a l)%Z ∧ ∀ c, c ∈ l → (c ≤ foldl Z.max a l)%Z) as Hf.
  { clear. induction l as [|y l IH]; intros a; simpl.
    - split; [lia|]. intros c Hc. by apply elem_of_nil in Hc.
    - destruct (IH (Z.max a y)) as [H1 H2]. split; [lia|].
      intros c [->|Hc]%elem_of_cons; [lia | by apply H2]. }
  destruct (Hf l x) as [H1 H2]. intros [->|Hc]%elem_of_cons; [done | by apply H2].
Qed.

Lemma write_params_Raise results step cl e err :
  write_params results step cl e = Raise err → err = IndexError.
Proof.
  unfold write_params. intros H.
  destruct (getitemsZ (parameters (clusters e)) cl) as [vals|e1] eqn:H1; simpl in H.
  2:{ injection H as <-. eapply mapM_Raise_kind; [|exact H1].
      intros x e'. apply getitemZ_Raise. }
  destruct (getitemZ (params results) step) as [row|e2] eqn:H2; simpl in H.
  2:{ injection H as <-. by eapply getitemZ_Raise. }
  destruct (setitemsZ row cl vals) as [row'|e3] eqn:H3; simpl in H.
  2:{ injection H as <-. unfold setitemsZ in H3.
      destruct (mapM _ cl) as [ks|e4] eqn:H4; simpl in H3; [done|].
      injection H3 as <-. eapply mapM_Raise_kind; [|exact H4].
      intros x e'. apply norm_index_Raise. }
  by eapply setitemZ_Raise.
Qed.

(** With room for every cluster id the parameter rows are written. *)
Lemma write_params_total results step cl (e : Engine) m :
  length (params results) = m → (0 ≤ step < Z.of_nat m)%Z →
  params_shaped results →
  Forall (λ c, 0 ≤ c < Z.of_nat (length (parameters (clusters e)))
               ∧ c < Z.of_nat (params_width results))%Z cl →
  ∃ par, write_params results step cl e = Ok par
    ∧ length par = m
    ∧ Forall (λ row, length row = params_width results) par.
Proof.
  intros Hm Hstep Hshape Hcl. unfold write_params.
  destruct (mapM_total (getitemZ (parameters (clusters e))) cl) as [vals Hvals].
  { intros c Hc. eapply Forall_forall in Hcl; [|done].
    destruct (getitemZ_in_range (parameters (clusters e)) c) as (v & Hv & _);
      [lia | by exists v]. }
  unfold getitemsZ. rewrite Hvals. simpl.
  destruct (getitemZ_in_range (params results) step) as (row & -> & Hrow); [lia|].
  simpl. assert (length row = params_width results) as Hlen.
  { unfold params_shaped in Hshape. rewrite Forall_forall in Hshape.
    by eapply Hshape, list_elem_of_lookup_2. }
  unfold setitemsZ.
  destruct (mapM_total (norm_index (length row)) cl) as [ks ->].
  { intros c Hc. eapply Forall_forall in Hcl; [|done].
    rewrite norm_index_in_range by lia. eauto. }
  simpl. rewrite setitemZ_in_range by lia. eexists. split; [done|].
  rewrite length_insert. split; [done|].
  apply Forall_insert; [done|]. by rewrite foldl_insert_length.
Qed.

Section TraceTotality.
Variables (get_ll_full get_lprior : Engine → result R).
Variable alloc_fails : nat → bool.

(** Recording returns, and keeps the shape of the snapshots. *)
Lemma update_MCMC_results_total (tr : Trace) (step : Z) (e : Engine)
    (m : nat) (ll lp : R) :
  reachable (clusters e) → get_ll_full e = Ok ll → get_lprior e = Ok lp →
  alloc_fails m = false → trace_len tr m → (1 ≤ m)%nat → (0 ≤ step ≤ Z.of_nat m)%Z →
  params_shaped tr →
  ∃ tr', update_MCMC_results get_ll_full get_lprior alloc_fails tr step e = Ok tr'
    ∧ params_shaped tr'.
Proof.
  intros Hreach Hll Hlp Halloc (L1 & L2 & L3 & L4 & L5) Hm Hstep Hshape.
  apply reachable_Inv in Hreach.
  set (cl := cluster_keys (cells_per_cluster (clusters e))).
  assert (Forall (λ c, 0 ≤ c < Z.of_nat (length (parameters (clusters e))))%Z cl)
    as Hkeys.
  { apply Forall_forall. intros c [n Hn]%elem_of_cluster_keys.
    eapply Inv_key_range in Hn; [|done]. destruct Hreach as (_ & -> & _). done. }
  unfold update_MCMC_results. rewrite Hll, Hlp. simpl.
  (* the log likelihood, after the trace has grown if it must *)
  match goal with
  | |- ∃ tr', (?X ≫= _) = _ ∧ _ =>
      assert (∃ tr1 ml m', X = Ok (tr1, step, ml)
                ∧ trace_len tr1 m' ∧ (0 ≤ step < Z.of_nat m')%Z
                ∧ params_shaped tr1)
        as (tr1 & ml & m' & -> & (M1 & M2 & M3 & M4 & M5) & Hstep' & Hshape1)
  end.
  { destruct (decide (step < Z.of_nat m)%Z) as [Hfit|Hfull].
    - rewrite setitemZ_in_range by lia. simpl. eexists tr, _, m.
      split; [done|]. split; [done|]. split; [lia | done].
    - assert (setitemZ (ML tr) step ll = Raise IndexError) as ->.
      { unfold setitemZ, norm_index. rewrite !decide_False by lia. done. }
      unfold _extend_results_array. rewrite L1, Halloc.
      assert (1 ≤ Nat.min 200 m)%nat as Hk by lia.
      generalize dependent (Nat.min 200 m). intros k Hk. cbn.
      rewrite setitemZ_in_range
        by (rewrite length_app; unfold zeros; rewrite length_replicate; lia).
      simpl. eexists _, _, (m + k)%nat. split; [done|].
      unfold trace_len, zeros, params_shaped. cbn.
      rewrite !length_app, !length_replicate, L1, L2, L3, L4, L5.
      split; [done|]. split; [lia|]. apply Forall_app. split; [done|].
      apply Forall_forall. intros row Hrow%elem_of_replicate.
      destruct Hrow as [-> _]. by rewrite length_replicate. }
  simpl. rewrite !setitemZ_in_range by lia. simpl. fold cl.
  (* the parameter snapshot, after padding if it must *)
  destruct (write_params tr1 step cl e) as [par|err] eqn:Hw; simpl.
  - eexists. split; [done|]. unfold params_shaped. cbn.
    unfold write_params in Hw. inv_bind Hw. inv_bind Hw. inv_bind Hw.
    rename x0 into row, x1 into row'.
    apply setitemZ_inv in Hw as [_ ->]; [|lia].
    apply Forall_insert; [done|].
    unfold setitemsZ in E1. inv_bind E1. injection E1 as <-.
    rewrite foldl_insert_length. unfold getitemZ in E0. inv_bind E0.
    apply getitem_Ok in E0. unfold params_shaped in Hshape1.
    rewrite Forall_forall in Hshape1.
    by eapply Hshape1, list_elem_of_lookup_2.
  - apply write_params_Raise in Hw as Herr. subst err.
    (* some id has no slot: the largest has none *)
    destruct (decide (Forall (λ c, c < Z.of_nat (params_width tr1))%Z cl))
      as [Hall|Hsome].
    { destruct (write_params_total tr1 step cl e m') as (par & Hpar & _);
        [done | lia | done | | congruence].
      apply Forall_forall. intros c Hc. rewrite Forall_forall in Hkeys, Hall.
      split; [by apply Hkeys | by apply Hall]. }
    apply not_Forall_Exists in Hsome; [|apply _].
    apply Exists_exists in Hsome as (c & Hc & Hwide). simpl in Hwide.
    destruct (py_max_list cl) as [top|err] eqn:Htop.
    2:{ destruct cl; [by apply elem_of_nil in Hc | done]. }
    pose proof (py_max_list_ge _ _ _ Htop Hc) as Hctop. simpl.
    rewrite decide_False by lia.
    set (padded := {| ML := ML tr1; params := pad_params _ _ _ |}).
    destruct (write_params_total padded step cl e m') as (par & -> & Hlen & Hsh).
    + unfold padded, pad_params. cbn. by rewrite length_fmap.
    + lia.
    + unfold params_shaped, padded, pad_params. cbn.
      apply Forall_fmap. eapply Forall_impl; [exact Hshape1|]. simpl.
      intros row Hrow. rewrite length_app, length_replicate. lia.
    + apply Forall_forall. intros c' Hc'. rewrite Forall_forall in Hkeys.
      split; [by apply Hkeys|]. unfold padded. cbn.
      pose proof (py_max_list_ge _ _ _ Htop Hc'). lia.
    + simpl. eexists. split; [done|]. unfold params_shaped. cbn. done.
Qed.

(** X22: recording a step raises no error of its own.  For an
    engine in a state of a run whose two evaluators return, a trace of
    [m >= 1] rows and a step of at most [m], with an allocator that
    does not fail, [update_MCMC_results] returns: a step just past the
    end is made room for by the growth of the trace, and a cluster id
    past the parameter slots by the padding, which always reaches the
    largest active id. *)
Theorem update_MCMC_results_returns (tr : Trace) (step : Z) (e : Engine)
    (m : nat) (ll lp : R) :
  reachable (clusters e) → get_ll_full e = Ok ll → get_lprior e = Ok lp →
  alloc_fails m = false → trace_len tr m → (1 ≤ m)%nat → (0 ≤ step ≤ Z.of_nat m)%Z →
  params_shaped tr →
  ∃ tr', update_MCMC_results get_ll_full get_lprior alloc_fails tr step e = Ok tr'
    ∧ params_shaped tr'.
Proof. apply update_MCMC_results_total. Qed.

Lemma init_MCMC_results_shaped steps e tr :
  init_MCMC_results get_ll_full get_lprior alloc_fails steps e = Ok tr →
  (1 ≤ steps)%Z → reachable (clusters e) → alloc_fails (Z.to_nat steps) = false →
  params_shaped tr.
Proof.
  unfold init_MCMC_results. case_decide as Hneg; [done|]. intros H Hs Hreach Halloc.
  assert (∃ ll lp, get_ll_full e = Ok ll ∧ get_lprior e = Ok lp) as (ll & lp & Hll & Hlp).
  { unfold update_MCMC_results in H. inv_bind H. inv_bind H. eauto. }
  set (tr0 := {| ML := zeros (Z.to_nat steps); burn_in := None |}) in *.
  destruct (update_MCMC_results_total tr0 0 e (Z.to_nat steps) ll lp)
    as (tr' & Htr' & Hsh).
  - done.
  - done.
  - done.
  - done.
  - unfold trace_len, tr0. cbn. unfold zeros. by rewrite !length_replicate.
  - lia.
  - lia.
  - unfold params_shaped, tr0. cbn. apply Forall_forall.
    intros row [-> _]%elem_of_replicate. done.
  - rewrite Htr' in H. by injection H as <-.
Qed.
End TraceTotality.

(** ** The example engine in the open-ended runs *)

Lemma ex_engine_reachable : reachable (clusters ex_engine).
Proof. by apply (reach_init together 4 (replicate 4 [0%R]) [(/ 2)%R]). Qed.

Lemma ex_ll_nonzero (e : Engine) (ll : R) : ex_ll e = Ok ll → ll ≠ 0%R.
Proof. intros [= <-]. lra. Qed.

Lemma ex_alloc_ok (k : nat) : ex_alloc k = false.
Proof. done. Qed.

Lemma ex_do_MCMC_step step e :
  e = ex_engine ∨ e = ex_engine_stepped →
  do_MCMC_step 0.1 0.1 (ex_draws step) e = Ok ex_engine_stepped.
Proof. intros [-> | ->]; reflexivity. Qed.

(** A step of the example and its recording. *)
Lemma ex_iteration step e tr m :
  e = ex_engine ∨ e = ex_engine_stepped →
  (0 ≤ step)%Z → trace_len tr m → (step + 1 ≤ Z.of_nat m)%Z → params_shaped tr →
  ∃ tr' m',
    do_MCMC_step 0.1 0.1 (ex_draws (step + 1)) e = Ok ex_engine_stepped
    ∧ update_MCMC_results ex_ll ex_lprior ex_alloc tr (step + 1) ex_engine_stepped
      = Ok tr'
    ∧ trace_len tr' m' ∧ (step + 1 + 1 ≤ Z.of_nat m')%Z ∧ params_shaped tr'.
Proof.
  intros He Hs Hlen Hm Hsh.
  destruct (update_MCMC_results_total ex_ll ex_lprior ex_alloc tr (step + 1)
              ex_engine_stepped m (- 3) (- 1))
    as (tr' & Htr' & Hsh'); [exact ex_engine_reachable | done.. | lia | lia | done |].
  destruct (update_MCMC_results_shape _ _ _ _ _ _ _ m Htr')
    as (_ & _ & _ & _ & Hlen' & Hlt & _); [lia | done | done |].
  eexists tr', _. split; [by apply ex_do_MCMC_step|]. split; [done|].
  split; [exact Hlen'|]. split; [lia | done].
Qed.

Lemma ex_time_loop n step e tr m :
  e = ex_engine ∨ e = ex_engine_stepped →
  (0 ≤ step)%Z → trace_len tr m → (step + 1 ≤ Z.of_nat m)%Z → params_shaped tr →
  ∃ st', MCMC_time_loop ex_ll ex_lprior ex_alloc 0.1 0.1 true ex_draws
           (replicate n false ++ [true]) step (e, tr)
         = Ok ((step + Z.of_nat n + 1)%Z, st').
Proof.
  revert step e tr m. induction n as [|n IH]; intros step e tr m He Hs Hlen Hm Hsh.
  - cbn [replicate app MCMC_time_loop]. eexists. do 2 f_equal. lia.
  - cbn [replicate app MCMC_time_loop].
    destruct (ex_iteration step e tr m He Hs Hlen Hm Hsh)
      as (tr' & m' & Hstep & Hup & Hlen' & Hm' & Hsh').
    assert ((if decide ((step + 1) mod 1000 = 0)%Z
             then if negb true then stdout_MCMC_progress e else e else e) = e) as ->
      by (by case_decide).
    rewrite Hstep. cbn [mbind result_bind]. rewrite Hup. cbn [mbind result_bind].
    destruct (IH (step + 1)%Z ex_engine_stepped tr' m') as [st' Hst'];
      [by right | lia | done | lia | done |].
    exists st'. rewrite Hst'. do 2 f_equal. lia.
Qed.

Lemma ex_lugsail_loop n step e tr m :
  e = ex_engine ∨ e = ex_engine_stepped →
  (step + Z.of_nat n = 499)%Z →
  (0 ≤ step)%Z → trace_len tr m → (step + 1 ≤ Z.of_nat m)%Z → params_shaped tr →
  ∃ st', MCMC_lugsail_loop ex_ll ex_lprior ex_alloc (λ _ _ _, Ok 1%float) 1.2 2
           0.1 0.1 true ex_draws (S n) step (e, tr)
         = Ok (500%Z, st').
Proof.
  revert step e tr m. induction n as [|n IH]; intros step e tr m He Hn Hs Hlen Hm Hsh.
  - assert (step = 499%Z) as -> by lia. eexists. reflexivity.
  - cbn [MCMC_lugsail_loop].
    rewrite (decide_False (P := ((step + 1) mod 500 = 0)%Z))
      by (rewrite Z.mod_small; lia).
    cbn [mbind result_bind].
    destruct (ex_iteration step e tr m He Hs Hlen Hm Hsh)
      as (tr' & m' & Hstep & Hup & Hlen' & Hm' & Hsh').
    rewrite Hstep. cbn [mbind result_bind]. rewrite Hup. cbn [mbind result_bind].
    apply (IH (step + 1)%Z ex_engine_stepped tr' m');
      [by right | lia | lia | done | lia | done].
Qed.

Lemma update_MCMC_results_records_witness :
  ∃ ll lp row,
    ex_ll ex_engine = Ok ll ∧ ex_lprior ex_engine = Ok lp
    ∧ ML ex_trace_grown !! 1%nat = Some ll
    ∧ MAP ex_trace_grown !! 1%nat = Some (ll + lp)%R
    ∧ tr_DP_alpha ex_trace_grown !! 1%nat = Some (DP_alpha (DP ex_engine))
    ∧ assignments ex_trace_grown !! 1%nat = Some (assignment (clusters ex_engine))
    ∧ params ex_trace_grown !! 1%nat = Some row
    ∧ ∀ c, is_Some (cells_per_cluster (clusters ex_engine) !! c) →
        ∃ v, parameters (clusters ex_engine) !! Z.to_nat c = Some v
             ∧ row !! Z.to_nat c = Some v.
Proof.
  apply (update_MCMC_results_records ex_ll ex_lprior ex_alloc
           ex_trace_full ex_trace_grown 1 ex_engine 1).
  - exact ex_engine_reachable.
  - repeat split; reflexivity.
  - reflexivity.
  - lia.
  - reflexivity.
Defined.

Lemma truncate_undoes_extend_witness :
  _truncate_results_array
    {| ML := [- 7; 0]%R; MAP := [- 9; 0]%R; tr_DP_alpha := [3; 0]%R;
       assignments := [[0; 0; 0; 0]; [0; 0; 0; 0]]%Z;
       params := [[[/ 4]]; [[0]]]%R; params_width := 1; burn_in := None |}
  = Some ex_trace_full.
Proof.
  apply (truncate_undoes_extend ex_alloc 1 4 ex_trace_full _ 1).
  - repeat split; reflexivity.
  - reflexivity.
  - apply Forall_singleton. lra.
  - reflexivity.
Defined.

Lemma time_run_returns_recorded_samples_witness :
  ∃ e' tr step b,
    _run_MCMC_time ex_ll ex_lprior ex_alloc 0.5 0.1 0.1 true ex_draws
      [false; false; true] ex_engine = Ok (Some (e', tr))
    ∧ [false; false; true] !! Z.to_nat (step - 1) = Some true
    ∧ trace_len tr (Z.to_nat step)
    ∧ burn_in tr = Some b.
Proof.
  assert (∃ r, _run_MCMC_time ex_ll ex_lprior ex_alloc 0.5 0.1 0.1 true ex_draws
                 [false; false; true] ex_engine = Ok r) as [r Hr].
  { unfold _run_MCMC_time.
    destruct (ex_init_MCMC_results 499 ltac:(lia)) as [tr0 Hinit].
    change (499 + 1)%Z with 500%Z in Hinit. rewrite Hinit. cbn [mbind result_bind].
    pose proof (init_MCMC_results_len _ _ _ _ _ _ Hinit ltac:(lia)) as Hlen.
    pose proof (init_MCMC_results_shaped _ _ _ _ _ _ Hinit ltac:(lia)
                  ex_engine_reachable eq_refl) as Hsh.
    destruct (ex_time_loop 2 0 ex_engine tr0 _ (or_introl eq_refl) ltac:(lia)
                Hlen ltac:(lia) Hsh) as [[e1 tr1] Hloop].
    change (replicate 2 false ++ [true]) with [false; false; true] in Hloop.
    rewrite Hloop. cbn [mbind result_bind].
    apply MCMC_time_loop_recorded in Hloop as (_ & Hrec & _);
      [|exact ex_ll_nonzero | exact ex_alloc_ok | lia
       |exact (recorded_init _ _ _ ex_ll_nonzero ex_alloc_ok _ _ _ Hinit ltac:(lia))].
    destruct (truncate_recorded _ _ Hrec) as (tr2 & Htr2 & _).
    cbn [snd] in Htr2. rewrite Htr2. eexists. reflexivity. }
  destruct (time_run_returns_recorded_samples ex_ll ex_lprior ex_alloc
              0.5 0.1 0.1 true ex_draws [false; false; true] ex_engine r
              ex_ll_nonzero ex_alloc_ok Hr)
    as (e' & tr & step & b & -> & _ & Hlate & _ & Hlen & _ & Hb & _).
  exists e', tr, step, b. split; [exact Hr|]. split; [exact Hlate|].
  split; [exact Hlen | exact Hb].
Defined.

Lemma lugsail_run_returns_recorded_samples_witness :
  ∃ e' tr step,
    _run_MCMC_lugsail ex_ll ex_lprior ex_alloc (λ _ _ _, Ok 1%float)
      (λ x _, (x * x)%float) 1.2 0.1 0.1 true ex_draws 500 ex_engine
    = Ok (Some (e', tr))
    ∧ (step mod 500 = 0)%Z
    ∧ trace_len tr (Z.to_nat step)
    ∧ burn_in tr = Some (step / 2)%Z.
Proof.
  assert (∃ r, _run_MCMC_lugsail ex_ll ex_lprior ex_alloc (λ _ _ _, Ok 1%float)
                 (λ x _, (x * x)%float) 1.2 0.1 0.1 true ex_draws 500 ex_engine
               = Ok r) as [r Hr].
  { unfold _run_MCMC_lugsail.
    assert (lugsail_min_steps (λ x _, (x * x)%float) 1.2 = Ok 2%Z) as ->
      by (vm_compute; reflexivity).
    cbn [mbind result_bind].
    destruct (ex_init_MCMC_results 1 ltac:(lia)) as [tr0 Hinit].
    change (1 + 1)%Z with 2%Z in Hinit. rewrite Hinit. cbn [mbind result_bind].
    pose proof (init_MCMC_results_len _ _ _ _ _ _ Hinit ltac:(lia)) as Hlen.
    pose proof (init_MCMC_results_shaped _ _ _ _ _ _ Hinit ltac:(lia)
                  ex_engine_reachable eq_refl) as Hsh.
    destruct (ex_lugsail_loop 499 0 ex_engine tr0 _ (or_introl eq_refl) ltac:(lia)
                ltac:(lia) Hlen ltac:(lia) Hsh) as [[e1 tr1] Hloop].
    rewrite Hloop. cbn [mbind result_bind].
    apply MCMC_lugsail_loop_recorded in Hloop as (_ & Hrec & _);
      [|exact ex_ll_nonzero | exact ex_alloc_ok | lia
       |exact (recorded_init _ _ _ ex_ll_nonzero ex_alloc_ok _ _ _ Hinit ltac:(lia))].
    destruct (truncate_recorded _ _ Hrec) as (tr2 & Htr2 & _).
    cbn [snd] in Htr2. rewrite Htr2. eexists. reflexivity. }
  destruct (lugsail_run_returns_recorded_samples ex_ll ex_lprior ex_alloc
              (λ _ _ _, Ok 1%float) (λ x _, (x * x)%float) 1.2 0.1 0.1 true
              ex_draws 500 ex_engine r ex_ll_nonzero ex_alloc_ok Hr)
    as (e' & tr & step & min_steps & -> & _ & _ & Hmod & Hlen & _ & Hb).
  exists e', tr, step. split; [exact Hr|]. split; [exact Hmod|].
  split; [exact Hlen | exact Hb].
Defined.

Lemma lugsail_run_without_rows_raises_witness :
  _run_MCMC_lugsail ex_ll ex_lprior ex_alloc (λ _ _ _, Ok 1%float)
    (λ x _, (x * x)%float) 1.5 0.1 0.1 true ex_draws 500 ex_engine
  = Raise IndexError.
Proof.
  apply (lugsail_run_without_rows_raises ex_ll ex_lprior ex_alloc
           (λ _ _ _, Ok 1%float) (λ x _, (x * x)%float) 1.5 0.1 0.1 true
           ex_draws 500 ex_engine 0 (- 3) (- 1)).
  - vm_compute. reflexivity.
  - lia.
  - reflexivity.
  - reflexivity.
  - reflexivity.
Defined.

Lemma update_MCMC_results_returns_witness :
  ∃ tr', update_MCMC_results ex_ll ex_lprior ex_alloc ex_trace_full 1 ex_engine
         = Ok tr'
    ∧ params_shaped tr'.
Proof.
  apply (update_MCMC_results_returns ex_ll ex_lprior ex_alloc
           ex_trace_full 1 ex_engine 1 (- 3) (- 1)).
  - exact ex_engine_reachable.
  - reflexivity.
  - reflexivity.
  - reflexivity.
  - repeat split; reflexivity.
  - lia.
  - lia.
  - repeat constructor.
Defined.

(** * The assignment vectors a run records *)

Lemma do_MCMC_step_reachable sm dpa d e e' :
  do_MCMC_step sm dpa d e = Ok e' → reachable (clusters e) →
  reachable (clusters e')
  ∧ cells_total (clusters e') = cells_total (clusters e)
  ∧ muts_total e' = muts_total e.
Proof.
  unfold do_MCMC_step. intros H Hreach. inv_bind H. rename x into cs.
  inv_bind H. rename x into cs'. inv_bind H. injection H as <-. cbn.
  assert (reachable cs ∧ cells_total cs = cells_total (clusters e)) as [Hcs HN].
  { destruct (st_u_move d <? sm)%float.
    - split; [by eapply reach_split_merge|].
      by eapply update_assignments_split_merge_Inv; [apply reachable_Inv|].
    - split; [by eapply reach_Gibbs|].
      by eapply update_assignments_Gibbs_Inv; [apply reachable_Inv|]. }
  split; [by eapply reach_parameters|]. split; [|done].
  apply update_parameters_Inv in E0 as [_ ->]; [done | by apply reachable_Inv].
Qed.

(** The rows of a state of a run on [N] cells: [N] ids in [0, N). *)
Lemma reachable_assignment_row (s : ClusterState (list R)) :
  reachable s →
  length (assignment s) = cells_total s
  ∧ Forall (λ c, 0 ≤ c < Z.of_nat (cells_total s))%Z (assignment s).
Proof. intros (Hlen & _ & Hr & _)%reachable_Inv. done. Qed.

Section RunValidity.
Variables (get_ll_full get_lprior : Engine → result R).
Variable alloc_fails : nat → bool.

Lemma update_MCMC_results_rows (P : list Z → Prop) results step e results' :
  update_MCMC_results get_ll_full get_lprior alloc_fails results step e = Ok results' →
  P (assignment (clusters e)) → P (replicate (cells_total (clusters e)) 0%Z) →
  Forall P (assignments results) → Forall P (assignments results').
Proof.
  intros H Hrow Hzero Hall. unfold update_MCMC_results in H.
  inv_bind H. inv_bind H. inv_bind H. destruct x1 as [[results1 step1] ml].
  assert (Forall P (assignments results1)) as Hall1.
  { destruct (setitemZ (ML results) step x) as [ml0|err].
    - simpl in E1. by injection E1 as <- <- <-.
    - destruct err; try done. inv_bind E1. destruct x1 as [r2 s2].
      inv_bind E1. injection E1 as <- <- <-.
      unfold _extend_results_array in E2. destruct (alloc_fails _).
      + inv_bind E2. by injection E2 as <- <-.
      + simpl in E2. injection E2 as <- <-. cbn. apply Forall_app. split; [done|].
        apply Forall_forall. by intros row [-> _]%elem_of_replicate. }
  inv_bind H. inv_bind H. inv_bind H. inv_bind H. destruct x4 as [par width].
  injection H as <-. cbn. by eapply setitemZ_Forall.
Qed.

Lemma MCMC_steps_loop_rows steps sm dpa silent draws todo st st' :
  MCMC_steps_loop get_ll_full get_lprior alloc_fails steps sm dpa silent draws todo st
  = Ok st' →
  reachable (clusters st.1) →
  Forall (λ row, length row = cells_total (clusters st.1)
                 ∧ Forall (λ c, 0 ≤ c < Z.of_nat (cells_total (clusters st.1)))%Z row)
         (assignments st.2) →
  reachable (clusters st'.1)
  ∧ cells_total (clusters st'.1) = cells_total (clusters st.1)
  ∧ Forall (λ row, length row = cells_total (clusters st.1)
                   ∧ Forall (λ c, 0 ≤ c < Z.of_nat (cells_total (clusters st.1)))%Z row)
           (assignments st'.2).
Proof.
  revert st. induction todo as [|step todo IH]; intros st H Hreach Hrows; simpl in H.
  - by injection H as <-.
  - inv_bind H. destruct st as [e results]. destruct x as [e1 results1].
    unfold MCMC_steps_body in E. inv_bind E. inv_bind E. inv_bind E. inv_bind E.
    injection E as <- <-. cbn [fst snd] in *.
    apply do_MCMC_step_reachable in E2 as (Hreach1 & HN1 & _).
    2:{ by repeat (case_decide || destruct silent). }
    assert (cells_total (clusters x1) = cells_total (clusters e)) as HN.
    { rewrite HN1. by repeat (case_decide || destruct silent). }
    apply IH in H as (Hreach' & HN' & Hrows'); cbn [fst snd]; [| done |].
    + cbn [fst snd] in HN', Hrows'. rewrite HN in HN', Hrows'. done.
    + rewrite HN. eapply update_MCMC_results_rows; [exact E3 | | | exact Hrows].
      * rewrite <- HN. by apply reachable_assignment_row.
      * rewrite HN, length_replicate. split; [done|].
        apply Forall_forall. intros c [-> Hne]%elem_of_replicate. lia.
Qed.

(** X23: every assignment vector in the trace of a fixed-step run
    is a vector of [N] cluster ids in [0, N), [N] the number of cells,
    and the engine the run leaves is again in a state of a run on [N]
    cells (so its member counts are consistent with its assignment). *)
Theorem fixed_step_run_assignments_valid (steps : Z) (f sm dpa : float)
    (silent : bool) (draws : Z → StepDraw) (e e' : Engine) (tr : Trace) :
  reachable (clusters e) →
  _run_MCMC_steps get_ll_full get_lprior alloc_fails steps f sm dpa silent draws e
  = Ok (e', tr) →
  reachable (clusters e')
  ∧ cells_total (clusters e') = cells_total (clusters e)
  ∧ Forall (λ row, length row = cells_total (clusters e)
                   ∧ Forall (λ c, 0 ≤ c < Z.of_nat (cells_total (clusters e)))%Z row)
           (assignments tr).
Proof.
  intros Hreach H. unfold _run_MCMC_steps in H. inv_bind H. rename x into tr0.
  inv_bind H. destruct x as [e1 tr1]. inv_bind H. inv_bind H.
  injection H as <- <-. cbn [assignments].
  apply (MCMC_steps_loop_rows _ _ _ _ _ _ (e, tr0) (e1, tr1)) in E0; [done | done |].
  cbn [fst snd]. unfold init_MCMC_results in E. case_decide; [done|].
  eapply update_MCMC_results_rows; [exact E | | |].
  - by apply reachable_assignment_row.
  - rewrite length_replicate. split; [done|].
    apply Forall_forall. intros c [-> Hne]%elem_of_replicate. lia.
  - cbn. apply Forall_forall. intros row [-> _]%elem_of_replicate.
    rewrite length_replicate. split; [done|].
    apply Forall_forall. intros c [-> Hne]%elem_of_replicate. lia.
Qed.
End RunValidity.

(** A run of nine steps on the engine [ex_engine2]: eight sweeps that
    move cells between up to three clusters, and an accepted split at
    step 3 that opens a fourth one. *)
Lemma fixed_step_run_assignments_valid_witness :
  ∃ e' tr,
    _run_MCMC_steps ex_ll ex_lprior ex_alloc 9 0.5 0.1 0.1 true ex_draws2 ex_engine2
    = Ok (e', tr)
    ∧ assignments tr
      = [[0; 0; 0; 0]; [1; 0; 1; 2]; [2; 1; 1; 0]; [2; 1; 3; 0]; [1; 0; 1; 1];
         [1; 1; 0; 2]; [2; 1; 1; 0]; [1; 0; 1; 1]; [1; 1; 0; 2]; [2; 1; 1; 0]]%Z
    ∧ assignment (clusters e') = [2; 1; 1; 0]%Z
    ∧ reachable (clusters e')
    ∧ cells_total (clusters e') = 4%nat
    ∧ Forall (λ row, length row = 4%nat ∧ Forall (λ c, 0 ≤ c < 4)%Z row)
             (assignments tr).
Proof.
  assert (∃ e' tr,
            _run_MCMC_steps ex_ll ex_lprior ex_alloc 9 0.5 0.1 0.1 true
              ex_draws2 ex_engine2 = Ok (e', tr)
            ∧ assignments tr
              = [[0; 0; 0; 0]; [1; 0; 1; 2]; [2; 1; 1; 0]; [2; 1; 3; 0];
                 [1; 0; 1; 1]; [1; 1; 0; 2]; [2; 1; 1; 0]; [1; 0; 1; 1];
                 [1; 1; 0; 2]; [2; 1; 1; 0]]%Z
            ∧ assignment (clusters e') = [2; 1; 1; 0]%Z)
    as (e' & tr & Hr & Hrows & Hlast).
  { eexists _, _. split; [vm_compute; reflexivity|]. split; reflexivity. }
  destruct (fixed_step_run_assignments_valid ex_ll ex_lprior ex_alloc 9 0.5 0.1 0.1
              true ex_draws2 ex_engine2 e' tr ex_engine2_reachable Hr)
    as (Hreach & HN & Hall).
  exists e', tr. split; [exact Hr|]. split; [exact Hrows|]. split; [exact Hlast|].
  split; [exact Hreach|]. split; [exact HN | exact Hall].
Defined.

(** * The restricted Gibbs scan *)

Lemma sum_01_bounds (a : list Z) :
  Forall (λ c, c = 0 ∨ c = 1)%Z a → (0 ≤ foldr Z.add 0 a ≤ Z.of_nat (length a))%Z.
Proof.
  induction 1 as [|c a Hc _ IH]; simpl; [lia|]. destruct Hc as [-> | ->]; lia.
Qed.

Lemma sum_Z_app (a b : list Z) :
  foldr Z.add 0%Z (a ++ b) = (foldr Z.add 0 a + foldr Z.add 0 b)%Z.
Proof. induction a as [|c a IH]; simpl; lia. Qed.

(** With one observation marked, the two sizes count the other
    observations and the two anchors. *)
Lemma rg_sizes_marked (a : list Z) (obs : nat) :
  Forall (λ c, c = 0 ∨ c = 1)%Z a → (obs < length a)%nat →
  let '(n_i, n_j) := rg_sizes (length a) (<[obs := (-1)%Z]> a) in
  (1 ≤ n_i ∧ 1 ≤ n_j ∧ n_i + n_j = Z.of_nat (length a) + 1)%Z.
Proof.
  intros Ha Hobs. unfold rg_sizes.
  destruct (lookup_lt_is_Some_2 a obs Hobs) as [x Hx].
  assert (foldr Z.add 0%Z (<[obs := (-1)%Z]> a)
          = (foldr Z.add 0 (take obs a) + (-1 + foldr Z.add 0 (drop (S obs) a)))%Z)
    as ->.
  { rewrite <- (take_drop_middle a obs x Hx) at 1.
    rewrite insert_app_r_alt by (rewrite length_take; lia).
    rewrite length_take, Nat.min_l, Nat.sub_diag by lia. cbn [list_insert insert].
    rewrite sum_Z_app. done. }
  pose proof (sum_01_bounds (take obs a) (Forall_take _ _ _ Ha)) as H1.
  pose proof (sum_01_bounds (drop (S obs) a) (Forall_drop _ _ _ Ha)) as H2.
  rewrite length_take in H1. rewrite length_drop in H2. lia.
Qed.

Section RestrictedGibbs.
Local Open Scope R_scope.

(** X24: the log probabilities of a restricted Gibbs scan are
    always defined.  For an assignment of the observations of [S] to
    the two clusters (entries 0 and 1) and a positive concentration,
    taking one observation out leaves two sizes that are at least 1
    (each cluster keeps its anchor) and add up to [S.size + 1]; so the
    CRP prior takes no logarithm of 0, and [_normalize_log] returns
    two non-positive log probabilities whatever the likelihoods are. *)
Theorem rg_log_probs_defined (DP_alpha : R) (S_size : nat) (rg_assignment : list Z)
    (ll : list (R * R)) (obs : nat) :
  0 < DP_alpha →
  Forall (λ c, c = 0 ∨ c = 1)%Z rg_assignment →
  length rg_assignment = S_size → length ll = S_size → (obs < S_size)%nat →
  ∃ r0 r1,
    rg_log_probs DP_alpha S_size rg_assignment ll obs
    = Ok (<[obs := (-1)%Z]> rg_assignment, [r0; r1])
    ∧ r0 <= 0 ∧ r1 <= 0
    ∧ (1 ≤ (rg_sizes S_size (<[obs := (-1)%Z]> rg_assignment)).1)%Z
    ∧ (1 ≤ (rg_sizes S_size (<[obs := (-1)%Z]> rg_assignment)).2)%Z
    ∧ ((rg_sizes S_size (<[obs := (-1)%Z]> rg_assignment)).1
       + (rg_sizes S_size (<[obs := (-1)%Z]> rg_assignment)).2
       = Z.of_nat S_size + 1)%Z.
Proof.
  intros Halpha Ha Hlen Hll Hobs. subst S_size.
  pose proof (rg_sizes_marked rg_assignment obs Ha Hobs) as Hsizes.
  unfold rg_log_probs, setitem. rewrite decide_True by done. cbn [mbind result_bind].
  destruct (rg_sizes _ _) as [n_i n_j]. destruct Hsizes as (Hi & Hj & Hsum).
  destruct (lookup_lt_is_Some_2 ll obs) as [l Hl]; [lia|].
  unfold getitem. rewrite Hl. cbn [mbind result_bind].
  assert (0 < IZR n_i) by (apply (IZR_lt 0); lia).
  assert (0 < IZR n_j) by (apply (IZR_lt 0); lia).
  assert (2 <= IZR (Z.of_nat (length rg_assignment) + 2)) by (apply (IZR_le 2); lia).
  rewrite !log_CRP_prior_Ok by lra. cbn [mbind result_bind].
  destruct (normalize_log_pair_nonpos
              (l.1 + (ln (IZR n_i)
                      - ln (IZR (Z.of_nat (length rg_assignment) + 2) - 1 + DP_alpha)))
              (l.2 + (ln (IZR n_j)
                      - ln (IZR (Z.of_nat (length rg_assignment) + 2) - 1 + DP_alpha))))
    as (r0 & r1 & -> & Hr0 & Hr1).
  exists r0, r1. cbn [fst snd]. repeat split; (done || lia).
Qed.
End RestrictedGibbs.

Lemma rg_log_probs_defined_witness :
  ∃ r0 r1,
    rg_log_probs 2 3 [1; 0; 1]%Z [(0, 0); (- 1, - 2); (0, 0)]%R 1
    = Ok ([1; -1; 1]%Z, [r0; r1])
    ∧ (r0 <= 0)%R ∧ (r1 <= 0)%R.
Proof.
  destruct (rg_log_probs_defined 2 3 [1; 0; 1]%Z [(0, 0); (- 1, - 2); (0, 0)]%R 1)
    as (r0 & r1 & H & H0 & H1 & _).
  - lra.
  - repeat (apply Forall_cons; split; [lia|]). constructor.
  - reflexivity.
  - reflexivity.
  - lia.
  - exists r0, r1. split; [exact H|]. split; [exact H0 | exact H1].
Defined.

(** * The CRP prior as the code computes it, in single precision (C7) *)





Section SinglePrecisionProofs.
Variable logf : spec_float → result spec_float.





End SinglePrecisionProofs.





